(** * file-combiner: a Rocq model of [main.py]

    [main.py] flattens a directory tree: every file found under a source
    directory is moved into one destination directory by a pool of worker
    threads, a file whose name is already taken receiving a [" (i)"] suffix.

    The development follows the source top-down:
    - the file system the program acts on (a tree of directories and files),
      with the library calls [main.py] makes on it ([Path.exists],
      [Path.mkdir], [os.walk], [shutil.move], [Path.stem], [Path.suffix]);
    - [move_file], split at its only blocking call into the collision probe
      (lines 11-23) and the move (line 25);
    - [gather_files];
    - [main], as a labelled transition system in which the main thread and
      the worker threads of the [ThreadPoolExecutor] interleave. *)

From Stdlib Require Import List String Ascii Bool Arith ZArith Lia.
From Stdlib Require Import DecimalString DecimalNat FinFun.
Import ListNotations.

Set Warnings "-register-all".
Local Open Scope string_scope.
Local Open Scope list_scope.

(* ================================================================= *)
(** ** Paths *)

(** A path is the list of its components below the root of the file
    system; [dest_dir / name] appends one component. *)
Definition path := list string.

Definition joinpath (d : path) (name : string) : path := d ++ [name].

Notation "d // n" := (joinpath d n) (at level 40, left associativity).

(** [Path.name]: the final component, empty for the root. *)
Definition name (p : path) : string := last p "".

(** [str(path)], used by the messages [main] prints. *)
Fixpoint path_str (p : path) : string :=
  match p with
  | [] => ""
  | c :: p' => ("/" ++ c ++ path_str p')%string
  end.

(** [is_prefix p q]: [q] is [p] or lies below it. *)
Fixpoint is_prefix (p q : path) : bool :=
  match p, q with
  | [], _ => true
  | _ :: _, [] => false
  | a :: p', b :: q' => String.eqb a b && is_prefix p' q'
  end.

(* ----------------------------------------------------------------- *)
(** *** [Path.stem] and [Path.suffix]

    pathlib computes both from [i = name.rfind('.')]: when
    [0 < i < len(name) - 1] the name splits at [i], otherwise the suffix is
    empty and the stem is the whole name.  (This is pathlib up to Python
    3.13; later versions differ for a name that ends in a dot only.) *)

(** [str.rfind]: index of the last occurrence, [-1] when there is none. *)
Fixpoint rfind (c : ascii) (s : string) : Z :=
  match s with
  | EmptyString => (-1)%Z
  | String a s' =>
      let i := rfind c s' in
      if (0 <=? i)%Z then (i + 1)%Z
      else if Ascii.eqb a c then 0%Z else (-1)%Z
  end.

(** [c in s]. *)
Fixpoint has_char (c : ascii) (s : string) : bool :=
  match s with
  | EmptyString => false
  | String a s' => Ascii.eqb a c || has_char c s'
  end.

Definition len (s : string) : Z := Z.of_nat (String.length s).

Definition splits_at (nm : string) (i : Z) : bool :=
  ((0 <? i) && (i <? len nm - 1))%Z.

Definition suffix (nm : string) : string :=
  let i := rfind "." nm in
  if splits_at nm i
  then substring (Z.to_nat i) (String.length nm - Z.to_nat i) nm
  else "".

Definition stem (nm : string) : string :=
  let i := rfind "." nm in
  if splits_at nm i then substring 0 (Z.to_nat i) nm else nm.

(** [f"{i}"] for a non-negative integer: its decimal digits. *)
Definition str_of_int (i : nat) : string :=
  NilEmpty.string_of_uint (Nat.to_uint i).

(** [f"{stem} ({i}){suffix}"] (line 19). *)
Definition candidate (stem suffix : string) (i : nat) : string :=
  (stem ++ " (" ++ str_of_int i ++ ")" ++ suffix)%string.

(* ================================================================= *)
(** ** The file system *)

(** A directory lists its entries in directory-read order. *)
Inductive node : Type :=
| File (content : string)
| Dir (entries : list (string * node)).

Definition entries := list (string * node).

(** The first entry of a directory with a given name. *)
Fixpoint assoc (n : string) (es : entries) : option node :=
  match es with
  | [] => None
  | (m, c) :: es' => if String.eqb n m then Some c else assoc n es'
  end.

(** Replace the entry named [n], or add it at the end of the directory. *)
Fixpoint aset (n : string) (v : node) (es : entries) : entries :=
  match es with
  | [] => [(n, v)]
  | (m, c) :: es' =>
      if String.eqb n m then (n, v) :: es' else (m, c) :: aset n v es'
  end.

(** Remove the entries named [n]. *)
Fixpoint adel (n : string) (es : entries) : entries :=
  match es with
  | [] => []
  | (m, c) :: es' =>
      if String.eqb n m then adel n es' else (m, c) :: adel n es'
  end.

(** The node a path leads to, if any. *)
Fixpoint get (t : node) (p : path) : option node :=
  match p with
  | [] => Some t
  | n :: p' =>
      match t with
      | File _ => None
      | Dir es =>
          match assoc n es with
          | Some c => get c p'
          | None => None
          end
      end
  end.

(** [Path.exists()]. *)
Definition exists_ (fs : node) (p : path) : bool :=
  match get fs p with Some _ => true | None => false end.

(** [Path.is_dir()]. *)
Definition is_dir (fs : node) (p : path) : bool :=
  match get fs p with Some (Dir _) => true | _ => false end.

(** The entries of a directory; nothing for a file or a missing path. *)
Definition listdir (fs : node) (d : path) : entries :=
  match get fs d with Some (Dir es) => es | _ => [] end.

(* ================================================================= *)
(** ** [move_file], lines 11-23: the collision probe *)

(** The [while True] loop of lines 18-23, started at counter [i].  The
    source loop has no bound; [fuel] bounds the number of probes here, and
    [probe_enough_fuel] below shows that one more than the number of
    entries of [dest_dir] is never used up. *)
Fixpoint probe (fs : node) (dest_dir : path) (stem suffix : string)
    (fuel i : nat) : option path :=
  match fuel with
  | O => None
  | S fuel' =>
      let new_dest := dest_dir // candidate stem suffix i in
      if negb (exists_ fs new_dest) then Some new_dest
      else probe fs dest_dir stem suffix fuel' (S i)
  end.

(** Lines 11-23: the destination [move_file] settles on for [src]. *)
Definition resolve (fs : node) (src dest_dir : path) : option path :=
  let dest := dest_dir // name src in
  if exists_ fs dest then
    probe fs dest_dir (stem (name dest)) (suffix (name dest))
      (S (List.length (listdir fs dest_dir))) 1
  else Some dest.

(* ================================================================= *)
(** ** Exceptions and results *)

(** The exceptions the library calls of [main.py] raise; each carries the
    path it is about. *)
Inductive exn : Type :=
| FileNotFoundError (p : path)
| FileExistsError (p : path)
| NotADirectoryError (p : path)
| PermissionError (p : path)
| ShutilError (p : path)
| ValueError.

Inductive result (A : Type) : Type :=
| Ok (a : A)
| Err (e : exn).

Arguments Ok {A} a.
Arguments Err {A} e.

(* ================================================================= *)
(** ** Updating the file system *)

(** [update t p v] binds the entry at [p] to [v], or removes it when [v]
    is [None].  The directory holding [p] must exist; the root itself is
    never rebound. *)
Fixpoint update (t : node) (p : path) (v : option node) : option node :=
  match p with
  | [] => None
  | n :: p' =>
      match t with
      | File _ => None
      | Dir es =>
          match p' with
          | [] =>
              Some (Dir (match v with
                         | Some x => aset n x es
                         | None => adel n es
                         end))
          | _ :: _ =>
              match assoc n es with
              | Some c =>
                  match update c p' v with
                  | Some c' => Some (Dir (aset n c' es))
                  | None => None
                  end
              | None => None
              end
          end
      end
  end.

(** [dest.mkdir(parents=True, exist_ok=True)] (line 52): every missing
    directory along [p] is created; a file in the way raises. *)
Fixpoint mkdir_from (whole : path) (t : node) (p : path) : result node :=
  match t with
  | File _ =>
      match p with
      | [] => Err (FileExistsError whole)
      | _ :: _ => Err (NotADirectoryError whole)
      end
  | Dir es =>
      match p with
      | [] => Ok t
      | n :: p' =>
          let child := match assoc n es with
                       | Some c => c
                       | None => Dir []
                       end in
          match mkdir_from whole child p' with
          | Ok c' => Ok (Dir (aset n c' es))
          | Err e => Err e
          end
      end
  end.

Definition mkdir (fs : node) (p : path) : result node := mkdir_from p fs p.

(** A file system in which no directory lists a name twice. *)
Fixpoint nodupb (l : list string) : bool :=
  match l with
  | [] => true
  | a :: l' => negb (existsb (String.eqb a) l') && nodupb l'
  end.

Fixpoint wf (t : node) : bool :=
  match t with
  | File _ => true
  | Dir es => nodupb (map fst es) && forallb (fun e : string * node => let (_, c) := e in wf c) es
  end.

(* ================================================================= *)
(** ** [gather_files] (lines 28-33) *)

Definition is_dir_entry (e : string * node) : bool :=
  match snd e with Dir _ => true | File _ => false end.

Definition dirnames (es : entries) : list string :=
  map fst (filter is_dir_entry es).

Definition filenames (es : entries) : list string :=
  map fst (filter (fun e => negb (is_dir_entry e)) es).

(** [os.walk(top)], top-down: the triple of a directory, then the walks of
    its subdirectories in directory-read order.  A top that is no directory
    yields nothing. *)
Fixpoint os_walk (t : node) (dirpath : path)
    : list (path * list string * list string) :=
  match t with
  | File _ => []
  | Dir es =>
      (dirpath, dirnames es, filenames es)
        :: flat_map (fun e : string * node =>
                       let (n, c) := e in os_walk c (dirpath // n)) es
  end.

(** The two loops of lines 30-32 over the triples of a walk. *)
Definition walk_files (ws : list (path * list string * list string))
    : list path :=
  flat_map
    (fun w => let '(dirpath, _, fnames) := w in
              map (fun f => dirpath // f) fnames)
    ws.

Definition gather_files (fs : node) (root : path) : list path :=
  match get fs root with
  | None => []
  | Some t => walk_files (os_walk t root)
  end.

(* ================================================================= *)
(** ** [move_file], line 25: the move *)

Section MoveFile.

(** The moves the operating system refuses (a read-only directory, a file
    held by another user): [denied src] makes [shutil.move] raise
    [PermissionError] for [src].  It stands for the failures of a move
    that the tree of files and directories does not explain. *)
Variable denied : path -> bool.

(** [shutil.move(src, dst)].  An existing directory [dst] receives the
    entry under its own name and refuses to replace one; otherwise [src]
    is renamed to [dst], replacing a file already there.  The rename is
    atomic: on an error the file system is as before.  (Of shutil's
    further checks for a directory [src] nothing is modelled:
    [gather_files] yields no directory.) *)
Definition shutil_move (fs : node) (src dst : path) : result node :=
  let real_dst := if is_dir fs dst then dst // name src else dst in
  if is_dir fs dst && exists_ fs real_dst then Err (ShutilError real_dst)
  else
    match get fs src with
    | None => Err (FileNotFoundError src)
    | Some v =>
        if denied src then Err (PermissionError src)
        else
          match update fs src None with
          | None => Err (FileNotFoundError src)
          | Some fs1 =>
              match update fs1 real_dst (Some v) with
              | None => Err (FileNotFoundError real_dst)
              | Some fs2 => Ok fs2
              end
          end
    end.

(** [move_file(src, dest_dir)] run without interruption: the value it
    returns or the exception it raises, and the file system it leaves.
    [None] stands for a probe loop that does not end. *)
Definition move_file (fs : node) (src dest_dir : path)
    : option (result path * node) :=
  match resolve fs src dest_dir with
  | None => None
  | Some dest =>
      match shutil_move fs src dest with
      | Ok fs' => Some (Ok dest, fs')
      | Err e => Some (Err e, fs)
      end
  end.

End MoveFile.

(* ================================================================= *)
(** ** [main] (lines 48-76) *)

(** The arguments of [main]; the two counts are whatever integers the
    command line gave. *)
Record config : Type := Config {
  source : path;
  dest : path;
  max_workers : Z;
  batch_size : Z;
  dry_run : bool
}.

(** A future of the executor: the file it moves, and how far its
    [move_file] call has got. *)
Inductive status : Type :=
| Queued                     (* submitted, waiting for a worker *)
| Started                    (* taken by a worker, line 11 not yet run *)
| Resolved (dest : path)     (* lines 11-23 done, line 25 not yet run *)
| Done (r : result path).    (* returned or raised *)

Abbreviation future := (path * status)%type (only parsing).

(** Where the main thread stands.  Futures are named by their position in
    the executor's list of submitted work. *)
Inductive pc : Type :=
| AtLoop (rest : list path) (futures : list nat)
    (* line 60, [rest] still to iterate over *)
| AtDrain (rest : list path) (waiting : list nat)
    (* line 68, [as_completed] has yet to yield [waiting] *)
| AtFinal (waiting : list nat)
    (* line 73, likewise *)
| AtExit (raised : option exn)
    (* leaving the [with] block: [shutdown(wait=True)] *)
| Finished (raised : option exn).
    (* [main] has returned ([None]) or raised *)

Record state : Type := State {
  fs : node;
  out : list string;          (* the lines printed so far *)
  pool : list future;         (* every future submitted so far *)
  at_ : pc
}.

(** A future in a terminal state: returned or raised. *)
Definition is_done (f : future) : bool :=
  match snd f with Done _ => true | _ => false end.

(** A future a worker is busy with. *)
Definition is_running (f : future) : bool :=
  match snd f with Started | Resolved _ => true | _ => false end.

Definition failed (f : future) : bool :=
  match snd f with Done (Err _) => true | _ => false end.

(** Items submitted and not yet completed. *)
Definition in_flight (s : state) : nat :=
  List.length (filter (fun f => negb (is_done f)) (pool s)).

(** The number of futures with a property. *)
Definition count (P : future -> bool) (l : list future) : nat :=
  list_sum (map (fun f => if P f then 1 else 0) l).

Fixpoint set_status (i : nat) (st : status) (l : list future) : list future :=
  match l, i with
  | [], _ => []
  | (src, _) :: l', O => (src, st) :: l'
  | f :: l', S i' => f :: set_status i' st l'
  end.

(** The work queue is first-in first-out: a worker takes the oldest
    queued future. *)
Fixpoint take (l : list future) : option (list future) :=
  match l with
  | [] => None
  | (src, Queued) :: l' => Some ((src, Started) :: l')
  | f :: l' =>
      match take l' with
      | Some l'' => Some (f :: l'')
      | None => None
      end
  end.

Fixpoint remove_id (i : nat) (l : list nat) : list nat :=
  match l with
  | [] => []
  | j :: l' => if Nat.eqb i j then l' else j :: remove_id i l'
  end.

Definition found_msg (n : nat) : string :=
  ("Found " ++ str_of_int n ++ " files to move.")%string.

Definition missing_msg (src : path) : string :=
  ("Source path does not exist: " ++ path_str src)%string.

Definition would_move_msg (f d : path) : string :=
  ("Would move: " ++ path_str f ++ " -> " ++ path_str d)%string.

Definition done_msg : string := "Done moving files.".

(** What one scheduling decision lets happen. *)
Inductive label : Type :=
| Main             (* the main thread takes its next step *)
| Yield (i : nat)  (* [as_completed] yields future [i]; [fut.result()] *)
| Take             (* an idle worker takes the oldest queued future *)
| Probe (i : nat)  (* the worker of future [i] runs lines 11-23 *)
| Move (i : nat).  (* the worker of future [i] runs line 25 and returns *)

Section Main.

Variable denied : path -> bool.
Variable c : config.

(** Lines 48-58: everything before the loop.  [ThreadPoolExecutor] refuses
    a worker count below one. *)
Definition start (fs0 : node) : state :=
  if negb (exists_ fs0 (source c)) then
    State fs0 [missing_msg (source c)] [] (Finished None)
  else
    match mkdir fs0 (dest c) with
    | Err e => State fs0 [] [] (Finished (Some e))
    | Ok fs1 =>
        let all_files := gather_files fs1 (source c) in
        let out1 := [found_msg (List.length all_files)] in
        if (max_workers c <=? 0)%Z then
          State fs1 out1 [] (Finished (Some ValueError))
        else State fs1 out1 [] (AtLoop all_files [])
    end.

(** Lines 60-64 and 67 for one file, the ends of the two [as_completed]
    loops, and the exit from the [with] block, which waits for every
    future submitted. *)
Definition main_step (s : state) : option state :=
  match at_ s with
  | AtLoop (f :: rest) futures =>
      if dry_run c then
        Some (State (fs s) (out s ++ [would_move_msg f (dest c)]) (pool s)
                (AtLoop rest futures))
      else
        let futures' := futures ++ [List.length (pool s)] in
        let pool' := pool s ++ [(f, Queued)] in
        if (Z.of_nat (List.length futures') >=? batch_size c)%Z then
          Some (State (fs s) (out s) pool' (AtDrain rest futures'))
        else Some (State (fs s) (out s) pool' (AtLoop rest futures'))
  | AtLoop [] futures => Some (State (fs s) (out s) (pool s) (AtFinal futures))
  | AtDrain rest [] => Some (State (fs s) (out s) (pool s) (AtLoop rest []))
  | AtDrain _ (_ :: _) => None
  | AtFinal [] => Some (State (fs s) (out s) (pool s) (AtExit None))
  | AtFinal (_ :: _) => None
  | AtExit raised =>
      if forallb is_done (pool s) then
        match raised with
        | None =>
            Some (State (fs s) (out s ++ [done_msg]) (pool s) (Finished None))
        | Some e => Some (State (fs s) (out s) (pool s) (Finished (Some e)))
        end
      else None
  | Finished _ => None
  end.

(** Lines 68-69 and 73-74: [as_completed] hands over a finished future
    and [fut.result()] returns its value or raises its exception. *)
Definition yield_step (i : nat) (s : state) : option state :=
  let continue_ (waiting : list nat) (k : list nat -> pc) :=
    if existsb (Nat.eqb i) waiting then
      match nth_error (pool s) i with
      | Some (_, Done (Ok _)) =>
          Some (State (fs s) (out s) (pool s) (k (remove_id i waiting)))
      | Some (_, Done (Err e)) =>
          Some (State (fs s) (out s) (pool s) (AtExit (Some e)))
      | _ => None
      end
    else None in
  match at_ s with
  | AtDrain rest waiting => continue_ waiting (AtDrain rest)
  | AtFinal waiting => continue_ waiting AtFinal
  | _ => None
  end.

(** One step of the main thread or of a worker.  At most [max_workers]
    futures are being run.  The probe of lines 11-23 is taken as one step:
    it reads the file system as it is at that moment, and the move of
    line 25 comes as a later step, so that other workers may act in
    between. *)
Definition step (l : label) (s : state) : option state :=
  match l with
  | Main => main_step s
  | Yield i => yield_step i s
  | Take =>
      if (Z.of_nat (List.length (filter is_running (pool s))) <? max_workers c)%Z
      then
        match take (pool s) with
        | Some pool' => Some (State (fs s) (out s) pool' (at_ s))
        | None => None
        end
      else None
  | Probe i =>
      match nth_error (pool s) i with
      | Some (src, Started) =>
          match resolve (fs s) src (dest c) with
          | Some d =>
              Some (State (fs s) (out s) (set_status i (Resolved d) (pool s))
                      (at_ s))
          | None => None
          end
      | _ => None
      end
  | Move i =>
      match nth_error (pool s) i with
      | Some (src, Resolved d) =>
          match shutil_move denied (fs s) src d with
          | Ok fs' =>
              Some (State fs' (out s) (set_status i (Done (Ok d)) (pool s))
                      (at_ s))
          | Err e =>
              Some (State (fs s) (out s) (set_status i (Done (Err e)) (pool s))
                      (at_ s))
          end
      | _ => None
      end
  end.

(** A schedule is the list of decisions taken; [run] follows it as far as
    every decision is possible. *)
Fixpoint run (tr : list label) (s : state) : option state :=
  match tr with
  | [] => Some s
  | l :: tr' =>
      match step l s with
      | Some s' => run tr' s'
      | None => None
      end
  end.

End Main.

(** An upper bound on the number of steps a state has left. *)
Definition status_weight (f : future) : nat :=
  match snd f with
  | Queued => 3
  | Started => 2
  | Resolved _ => 1
  | Done _ => 0
  end.

Definition pc_weight (p : pc) : nat :=
  match p with
  | AtLoop rest futures => 3 + List.length futures + 6 * List.length rest
  | AtDrain rest waiting => 4 + List.length waiting + 6 * List.length rest
  | AtFinal waiting => 2 + List.length waiting
  | AtExit _ => 1
  | Finished _ => 0
  end.

Definition weight (s : state) : nat :=
  pc_weight (at_ s) + list_sum (map status_weight (pool s)).

(* ================================================================= *)
(** ** Predicates on the states of [main] *)

(** A future that has returned a destination. *)
Definition succeeded (f : future) : bool :=
  match snd f with Done (Ok _) => true | _ => false end.

(** Some future has raised [e]. *)
Definition raised_by (e : exn) (l : list future) : Prop :=
  exists i src, nth_error l i = Some (src, Done (Err e)).

(** The batch size the loop works with: [len(futures) >= batch_size]
    holds after the first submission already when [batch_size < 1]. *)
Definition cap (c : config) : nat := Z.to_nat (Z.max 1 (batch_size c)).

(** The futures main still holds: every other one has succeeded. *)
Definition holds (c : config) (s : state) (w : list nat) : Prop :=
  (0 < max_workers c)%Z /\
  List.length w <= cap c /\
  (forall i, In i w -> i < List.length (pool s)) /\
  (forall i f, nth_error (pool s) i = Some f -> succeeded f = false -> In i w).

(** What holds of the futures wherever the main thread stands. *)
Definition inv_pc (c : config) (s : state) : Prop :=
  match at_ s with
  | AtLoop _ futures => holds c s futures /\ List.length futures < cap c
  | AtDrain _ waiting => holds c s waiting
  | AtFinal waiting => holds c s waiting
  | AtExit None =>
      (0 < max_workers c)%Z /\ forall f, In f (pool s) -> succeeded f = true
  | AtExit (Some e) =>
      (0 < max_workers c)%Z /\ raised_by e (pool s) /\ in_flight s <= cap c
  | Finished None => forall f, In f (pool s) -> succeeded f = true
  | Finished (Some e) =>
      pool s = [] \/
      (raised_by e (pool s) /\ forall f, In f (pool s) -> is_done f = true)
  end.

(** The first line [main] prints once the source is known to exist. *)
Definition found_line (c : config) (fs0 : node) : string :=
  match mkdir fs0 (dest c) with
  | Ok fs1 => found_msg (List.length (gather_files fs1 (source c)))
  | Err _ => ""
  end.

(** What has been printed: the completion message only once main has
    returned, and nothing but the first line when files are moved. *)
Definition inv_out (c : config) (fs0 : node) (s : state) : Prop :=
  match at_ s with
  | Finished None => exists_ fs0 (source c) = true -> In done_msg (out s)
  | Finished (Some _) =>
      ~ In done_msg (out s) /\ (pool s <> [] -> out s = [found_line c fs0])
  | _ =>
      ~ In done_msg (out s) /\
      (dry_run c = false -> out s = [found_line c fs0]) /\
      (dry_run c = true -> pool s = [])
  end.

(* ================================================================= *)
(** ** Files of one name *)

(** The name given to the [j]-th file called [nm] to arrive. *)
Definition nth_name (nm : string) (j : nat) : string :=
  match j with
  | O => nm
  | S _ => candidate (stem nm) (suffix nm) j
  end.

(** The destination directory once the files [pcs] (paths with their
    contents) have arrived in this order, counting from [j]. *)
Fixpoint placed (nm : string) (j : nat) (pcs : list (path * string)) : entries :=
  match pcs with
  | [] => []
  | (_, c) :: pcs' => (nth_name nm j, File c) :: placed nm (S j) pcs'
  end.

(** The content of the file at [p], and a list of files with theirs. *)
Definition content (t : node) (p : path) : string :=
  match get t p with Some (File c) => c | _ => "" end.

Definition contents (t : node) (ps : list path) : list (path * string) :=
  map (fun p => (p, content t p)) ps.

(** The file system after the first [k] of the files gathered under
    [source_] in [t0] have been moved to [dest_]: the destination lists
    them under their new names, the others are where they were, and no
    other file is left below the source. *)
Definition seq_inv (source_ dest_ : path) (nm : string) (t0 : node)
    (k : nat) (t : node) : Prop :=
  wf t = true /\
  is_dir t dest_ = true /\
  listdir t dest_ =
    placed nm 0 (firstn k (contents t0 (gather_files t0 source_))) /\
  (forall j p, k <= j -> nth_error (gather_files t0 source_) j = Some p ->
               get t p = Some (File (content t0 p))) /\
  (forall rel c0, rel <> [] -> get t (source_ ++ rel) = Some (File c0) ->
                  exists j, k <= j /\
                    nth_error (gather_files t0 source_) j = Some (source_ ++ rel)).

(** With [k] files moved by the one worker: the futures before the [k]-th
    have returned their destinations, the [k]-th may be under way, the
    others wait. *)
Definition status_ok (c : config) (nm : string) (k j : nat) (st : status)
    : Prop :=
  (j < k -> st = Done (Ok (dest c // nth_name nm j))) /\
  (j = k -> st = Queued \/ st = Started \/
            st = Resolved (dest c // nth_name nm k)) /\
  (k < j -> st = Queued).

(** With [m] of the files [ps] submitted. *)
Definition pc_ok (ps : list path) (a : pc) (m : nat) : Prop :=
  match a with
  | AtLoop rest _ | AtDrain rest _ => rest = skipn m ps
  | AtFinal _ | AtExit None | Finished None => m = List.length ps
  | AtExit (Some _) | Finished (Some _) => False
  end.

(** What holds in every state of a run with one worker: some [k] files
    have been moved, in gathering order, and the futures say so. *)
Definition ow_inv (c : config) (nm : string) (fs0 : node) (s : state) : Prop :=
  exists k,
    k <= List.length (pool s) /\
    map fst (pool s) =
      firstn (List.length (pool s)) (gather_files fs0 (source c)) /\
    (forall j src st, nth_error (pool s) j = Some (src, st) ->
                      status_ok c nm k j st) /\
    seq_inv (source c) (dest c) nm fs0 k (fs s) /\
    pc_ok (gather_files fs0 (source c)) (at_ s) (List.length (pool s)).

(* ================================================================= *)
(** ** Small file systems and schedules *)

(** Equality of paths, as a test. *)
Definition path_eqb (p q : path) : bool := is_prefix p q && is_prefix q p.

Definition nothing_denied (p : path) : bool := false.

(** A source directory [/s] with two files, one of which the operating
    system will not let go; no [/d] yet. *)
Definition ex_tree : node :=
  Dir [("s", Dir [("bad.txt", File "b"); ("good.txt", File "g")])].

Definition ex_denied : path -> bool := path_eqb ["s"; "bad.txt"].

Definition ex_config : config := Config ["s"] ["d"] 1 2000 false.

Definition ex_perm : exn := PermissionError ["s"; "bad.txt"].

(** Both files are submitted, the worker fails on the first, and
    [fut.result()] raises. *)
Definition ex_trace_raise : list label :=
  [Main; Main; Main; Take; Probe 0; Move 0; Yield 0].

Definition ex_state_raise : state :=
  State (Dir [("s", Dir [("bad.txt", File "b"); ("good.txt", File "g")]);
              ("d", Dir [])])
        ["Found 2 files to move."]
        [(["s"; "bad.txt"], Done (Err ex_perm)); (["s"; "good.txt"], Queued)]
        (AtExit (Some ex_perm)).

(** The executor then finishes the second file and [main] raises. *)
Definition ex_trace_end : list label :=
  ex_trace_raise ++ [Take; Probe 1; Move 1; Main].

Definition ex_state_end : state :=
  State (Dir [("s", Dir [("bad.txt", File "b")]);
              ("d", Dir [("good.txt", File "g")])])
        ["Found 2 files to move."]
        [(["s"; "bad.txt"], Done (Err ex_perm));
         (["s"; "good.txt"], Done (Ok ["d"; "good.txt"]))]
        (Finished (Some ex_perm)).

(** A batch size of zero, as [--batch 0] gives it. *)
Definition ex_config_zero : config := Config ["s"] ["d"] 1 0 false.

(** A source that does not exist. *)
Definition ex_config_missing : config := Config ["nowhere"] ["d"] 2 2000 false.

(** Dry-run mode on the same tree. *)
Definition ex_config_dry : config := Config ["s"] ["d"] 2 2000 true.

(** A destination that holds [.gitignore], and a directory named like the
    file that is to arrive. *)
Definition ex_tree_taken : node :=
  Dir [("s", Dir [(".gitignore", File "new"); ("a.txt", File "a")]);
       ("d", Dir [(".gitignore", File "old"); ("a.txt", Dir [("x", File "x")])])].

(** Two files called [a.txt] below [/s], and an empty [/d]. *)
Definition ex_tree_same : node :=
  Dir [("s", Dir [("x", Dir [("a.txt", File "1")]);
                  ("y", Dir [("a.txt", File "2")])]);
       ("d", Dir [])].

Definition ex_config_two : config := Config ["s"] ["d"] 2 2000 false.

Definition ex_config_one : config := Config ["s"] ["d"] 1 2000 false.

(** Two workers both find [/d/a.txt] free before either has moved. *)
Definition ex_trace_race : list label :=
  [Main; Main; Main; Take; Take; Probe 0; Probe 1; Move 0; Move 1;
   Yield 0; Yield 1; Main; Main].

Definition ex_state_race : state :=
  State (Dir [("s", Dir [("x", Dir []); ("y", Dir [])]);
              ("d", Dir [("a.txt", File "2")])])
        ["Found 2 files to move."; "Done moving files."]
        [(["s"; "x"; "a.txt"], Done (Ok ["d"; "a.txt"]));
         (["s"; "y"; "a.txt"], Done (Ok ["d"; "a.txt"]))]
        (Finished None).

(** The same two files with one worker. *)
Definition ex_trace_one : list label :=
  [Main; Main; Main; Take; Probe 0; Move 0; Take; Probe 1; Move 1;
   Yield 0; Yield 1; Main; Main].

Definition ex_state_one : state :=
  State (Dir [("s", Dir [("x", Dir []); ("y", Dir [])]);
              ("d", Dir [("a.txt", File "1"); ("a (1).txt", File "2")])])
        ["Found 2 files to move."; "Done moving files."]
        [(["s"; "x"; "a.txt"], Done (Ok ["d"; "a.txt"]));
         (["s"; "y"; "a.txt"], Done (Ok ["d"; "a (1).txt"]))]
        (Finished None).

(* ================================================================= *)
(** ** Further example data *)

(** A destination below a regular file of the source tree. *)
Definition ex_config_blocked : config :=
  Config ["s"] ["s"; "good.txt"; "sub"] 2 2000 false.

(** Two workers busy with the two files of [ex_tree_same]. *)
Definition ex_trace_busy : list label := [Main; Main; Take; Take; Probe 0].

(* ================================================================= *)
(** ** How far the loop of line 60 has got *)

(** With real moves: the futures submitted so far are for an initial part
    of the gathered files, in their order, and [rest] is what follows. *)
Definition submitted (files : list path) (s : state) : Prop :=
  match at_ s with
  | AtLoop rest _ | AtDrain rest _ => map fst (pool s) ++ rest = files
  | AtFinal _ | AtExit None | Finished None => map fst (pool s) = files
  | AtExit (Some _) | Finished (Some _) =>
      exists rest, map fst (pool s) ++ rest = files
  end.

(** In dry-run mode, once line 52 has left the file system [fs1]: nothing
    is submitted, and the output is the count and a line per file
    iterated over. *)
Definition dry_inv (c : config) (fs1 : node) (s : state) : Prop :=
  let files := gather_files fs1 (source c) in
  let lines := map (fun f => would_move_msg f (dest c)) in
  let report := found_msg (List.length files) :: lines files in
  fs s = fs1 /\ pool s = [] /\
  match at_ s with
  | AtLoop rest futures => futures = [] /\ out s ++ lines rest = report
  | AtDrain _ _ => False
  | AtFinal waiting => waiting = [] /\ out s = report
  | AtExit None => out s = report
  | AtExit (Some _) => False
  | Finished None => out s = report ++ [done_msg]
  | Finished (Some _) => (max_workers c <= 0)%Z
  end.

(** In either mode: the files submitted and the files still to iterate
    over are among those gathered. *)
Definition from_files (files : list path) (s : state) : Prop :=
  incl (map fst (pool s)) files /\
  match at_ s with
  | AtLoop rest _ | AtDrain rest _ => incl rest files
  | _ => True
  end.

(* ================================================================= *)
(** ** Files of pairwise distinct names *)

(** Future [j] has not returned (or is not submitted yet). *)
Definition pending (l : list future) (j : nat) : Prop :=
  forall q r, nth_error l j <> Some (q, Done r).

(** What holds in every state of a run, with any number of workers, when
    the gathered files have pairwise distinct names that the destination
    does not hold: a future that has returned has put its file under its
    own name, the others' files are where they were, and nothing else has
    changed. *)
Definition par_inv (c : config) (fs0 : node) (s : state) : Prop :=
  wf (fs s) = true /\
  is_dir (fs s) (dest c) = true /\
  (forall j p r, nth_error (pool s) j = Some (p, Done r) ->
     r = Ok (dest c // name p) /\
     get (fs s) (dest c // name p) = Some (File (content fs0 p))) /\
  (forall j p d, nth_error (pool s) j = Some (p, Resolved d) ->
     d = dest c // name p) /\
  (forall j p, nth_error (gather_files fs0 (source c)) j = Some p ->
     pending (pool s) j ->
     get (fs s) p = Some (File (content fs0 p))) /\
  (forall rel x, rel <> [] ->
     get (fs s) (source c ++ rel) = Some (File x) ->
     exists j, nth_error (gather_files fs0 (source c)) j
               = Some (source c ++ rel) /\
               pending (pool s) j) /\
  (forall n, exists_ (fs s) (dest c // n) = true ->
     exists_ fs0 (dest c // n) = true \/
     exists j p r, nth_error (pool s) j = Some (p, Done r) /\ n = name p) /\
  (forall q x, is_prefix (source c) q = false ->
     get fs0 q = Some (File x) -> get (fs s) q = Some (File x)) /\
  match at_ s with
  | AtExit (Some _) | Finished (Some _) => False
  | _ => True
  end.

(** Two files of different names below [/s], and a destination that holds
    a third. *)
Definition ex_tree_pair : node :=
  Dir [("s", Dir [("a.txt", File "a"); ("sub", Dir [("b.txt", File "b")])]);
       ("d", Dir [("keep.txt", File "k")])].

(** Two workers probe before either moves. *)
Definition ex_trace_pair : list label :=
  [Main; Main; Take; Take; Probe 1; Probe 0; Move 1; Move 0; Main;
   Yield 1; Yield 0; Main; Main].

(** Where that schedule ends: both files beside the one the destination
    held. *)
Definition ex_state_pair : state :=
  State (Dir [("s", Dir [("sub", Dir [])]);
              ("d", Dir [("keep.txt", File "k"); ("b.txt", File "b");
                         ("a.txt", File "a")])])
        ["Found 2 files to move."; "Done moving files."]
        [(["s"; "a.txt"], Done (Ok ["d"; "a.txt"]));
         (["s"; "sub"; "b.txt"], Done (Ok ["d"; "b.txt"]))]
        (Finished None).

(* ================================================================= *)
(** ** Where a file may land *)

(** [d] is directly inside the destination directory, under the name of
    [p] or under one of the names line 19 builds from it. *)
Definition lands (c : config) (p d : path) : Prop :=
  d = dest c // name p \/
  exists i, 1 <= i /\
    d = dest c // candidate (stem (name p)) (suffix (name p)) i.

(** Every destination a future has settled on or returned is such a path. *)
Definition flat (c : config) (l : list future) : Prop :=
  forall j p st d,
    nth_error l j = Some (p, st) ->
    st = Resolved d \/ st = Done (Ok d) -> lands c p d.

(* ================================================================= *)
(** ** Files [main] did not gather *)

(** No destination settled on is a directory, or a file of the file
    system [fs1] other than a gathered one. *)
Definition spares (fs1 : node) (files : list path) (l : list future) : Prop :=
  forall j p d,
    nth_error l j = Some (p, Resolved d) ->
    is_dir fs1 d = false /\
    forall x, get fs1 d = Some (File x) -> In d files.

(** Every file of [fs1] that was not gathered is where it was. *)
Definition kept (fs1 : node) (files : list path) (t : node) : Prop :=
  forall q x, get fs1 q = Some (File x) -> ~ In q files ->
              get t q = Some (File x).

(* ================================================================= *)
(** * Properties *)

(* ----------------------------------------------------------------- *)
(** ** Strings and candidate names *)

Lemma length_append (a b : string) :
  String.length (a ++ b)%string = String.length a + String.length b.
Proof. induction a as [|x a IH]; simpl; [reflexivity | now rewrite IH]. Qed.

Lemma append_inv_head (s x y : string) :
  (s ++ x)%string = (s ++ y)%string -> x = y.
Proof.
  induction s as [|a s IH]; simpl; intros H; [exact H|].
  injection H as H. now apply IH.
Qed.

Lemma append_inv_tail (x y t : string) :
  (x ++ t)%string = (y ++ t)%string -> x = y.
Proof.
  revert y; induction x as [|a x IH]; intros [|b y] H; simpl in H.
  - reflexivity.
  - apply (f_equal String.length) in H. simpl in H.
    rewrite length_append in H. lia.
  - apply (f_equal String.length) in H. simpl in H.
    rewrite length_append in H. lia.
  - injection H as -> H. f_equal. now apply IH.
Qed.

Lemma str_of_int_inj (i j : nat) : str_of_int i = str_of_int j -> i = j.
Proof.
  unfold str_of_int. intros H.
  apply Unsigned.to_uint_inj.
  assert (E : Some (Nat.to_uint i) = Some (Nat.to_uint j))
    by (rewrite <- !NilEmpty.usu; now rewrite H).
  now injection E.
Qed.

(** Different counters give different candidate names. *)
Lemma candidate_inj (st sf : string) (i j : nat) :
  candidate st sf i = candidate st sf j -> i = j.
Proof.
  unfold candidate. intros H.
  apply append_inv_head in H. apply (append_inv_head " (") in H.
  apply str_of_int_inj.
  apply append_inv_tail with (t := (")" ++ sf)%string). exact H.
Qed.

(** No candidate is the name it was derived from. *)
Lemma length_candidate (st sf : string) (i : nat) :
  String.length (candidate st sf i) =
  String.length st + String.length sf + String.length (str_of_int i) + 3.
Proof. unfold candidate. rewrite !length_append. simpl. lia. Qed.

Lemma rfind_absent (c : ascii) (s : string) :
  has_char c s = false -> rfind c s = (-1)%Z.
Proof.
  induction s as [|a s IH]; simpl; [reflexivity|].
  intros H. apply orb_false_iff in H as [Ha Hs].
  rewrite (IH Hs), Ha. reflexivity.
Qed.

Lemma rfind_range (c : ascii) (s : string) :
  (-1 <= rfind c s < len s)%Z.
Proof.
  unfold len. induction s as [|a s IH]; simpl String.length; simpl rfind; [lia|].
  destruct (Z.leb_spec 0 (rfind c s)); [lia|].
  destruct (Ascii.eqb a c); lia.
Qed.

Lemma substring_all (s : string) : substring 0 (String.length s) s = s.
Proof. induction s as [|a s IH]; simpl; [reflexivity | now rewrite IH]. Qed.

Lemma substring_split (s : string) (n : nat) :
  n <= String.length s ->
  (substring 0 n s ++ substring n (String.length s - n) s)%string = s.
Proof.
  revert n; induction s as [|a s IH]; intros [|n] H; simpl in *;
    try reflexivity; try lia.
  - now rewrite substring_all.
  - f_equal. apply IH. lia.
Qed.

(** The two halves pathlib splits a name into make up the name. *)
Lemma stem_suffix (nm : string) : (stem nm ++ suffix nm)%string = nm.
Proof.
  unfold stem, suffix.
  destruct (splits_at nm (rfind "." nm)) eqn:E.
  - apply substring_split.
    pose proof (rfind_range "." nm) as R. unfold len in R. lia.
  - clear E. induction nm as [|a nm IH]; simpl; [reflexivity | now rewrite IH].
Qed.

(* ----------------------------------------------------------------- *)
(** ** Paths and look-up *)

Lemma name_join (d : path) (n : string) : name (d // n) = n.
Proof. unfold name, joinpath. apply last_last. Qed.

Lemma get_app (t : node) (p q : path) :
  get t (p ++ q) = match get t p with Some t' => get t' q | None => None end.
Proof.
  revert t; induction p as [|n p IH]; intros t; simpl; [reflexivity|].
  destruct t as [|es]; [reflexivity|].
  destruct (assoc n es); [apply IH | reflexivity].
Qed.

Lemma assoc_in (n : string) (es : entries) (v : node) :
  assoc n es = Some v -> In (n, v) es.
Proof.
  induction es as [|[m x] es IH]; simpl; [discriminate|].
  destruct (String.eqb_spec n m) as [->|_]; intros H.
  - injection H as ->. now left.
  - right. now apply IH.
Qed.

Lemma assoc_none (n : string) (es : entries) :
  assoc n es = None <-> ~ In n (map fst es).
Proof.
  induction es as [|[m x] es IH]; simpl; [tauto|].
  destruct (String.eqb_spec n m) as [->|Hne]; split; intros H.
  - discriminate.
  - exfalso. apply H. now left.
  - intros [E|E]; [congruence | now apply IH in E].
  - apply IH. tauto.
Qed.

Lemma get_join (t : node) (d : path) (n : string) :
  get t (d // n) = assoc n (listdir t d).
Proof.
  unfold joinpath, listdir. rewrite get_app.
  destruct (get t d) as [[|es]|]; simpl; try reflexivity.
  now destruct (assoc n es).
Qed.

(** What exists directly below a directory is listed in it. *)
Lemma exists_join (t : node) (d : path) (n : string) :
  exists_ t (d // n) = true <-> In n (map fst (listdir t d)).
Proof.
  unfold exists_. rewrite get_join.
  destruct (assoc n (listdir t d)) eqn:E.
  - split; [intros _ | reflexivity].
    apply assoc_in in E. change n with (fst (n, n0)). now apply in_map.
  - split; [discriminate|]. intros H. now apply assoc_none in E.
Qed.

(* ----------------------------------------------------------------- *)
(** ** The probe loop *)

Section Probe.

Variables (t : node) (dest_dir : path) (st sf : string).

Local Abbreviation cand i := (dest_dir // candidate st sf i) (only parsing).

Lemma probe_some (fuel i : nat) (p : path) :
  probe t dest_dir st sf fuel i = Some p ->
  exists k, i <= k < i + fuel /\ p = cand k /\ exists_ t (cand k) = false /\
            forall j, i <= j < k -> exists_ t (cand j) = true.
Proof.
  revert i; induction fuel as [|fuel IH]; intros i; simpl; [discriminate|].
  destruct (exists_ t (cand i)) eqn:E; simpl.
  - intros H. destruct (IH _ H) as (k & Hk & -> & Hn & Hlt).
    exists k. repeat split; try lia; try assumption.
    intros j Hj. destruct (Nat.eq_dec j i) as [->|]; [exact E | apply Hlt; lia].
  - intros H. injection H as <-. exists i. repeat split; try lia; assumption.
Qed.

Lemma probe_none (fuel i : nat) :
  probe t dest_dir st sf fuel i = None ->
  forall j, i <= j < i + fuel -> exists_ t (cand j) = true.
Proof.
  revert i; induction fuel as [|fuel IH]; intros i; simpl; [intros _ j; lia|].
  destruct (exists_ t (cand i)) eqn:E; simpl; [|discriminate].
  intros H j Hj. destruct (Nat.eq_dec j i) as [->|]; [exact E|].
  apply (IH _ H). lia.
Qed.

(** More fuel than a run of the loop needs changes nothing. *)
Lemma probe_more_fuel (fuel fuel' i : nat) (p : path) :
  probe t dest_dir st sf fuel i = Some p -> fuel <= fuel' ->
  probe t dest_dir st sf fuel' i = Some p.
Proof.
  revert fuel' i; induction fuel as [|fuel IH]; intros fuel' i; simpl;
    [discriminate|].
  intros H Hle. destruct fuel' as [|fuel']; [lia|]. simpl.
  destruct (negb (exists_ t (dest_dir // candidate st sf i))); [exact H|].
  apply IH; [exact H | lia].
Qed.

(** Pigeonhole: a directory of [n] entries cannot hold the [n + 1] first
    candidates, so the loop ends within [n + 1] probes. *)
Lemma probe_enough_fuel :
  probe t dest_dir st sf (S (List.length (listdir t dest_dir))) 1 <> None.
Proof.
  intros H. pose proof (probe_none _ _ H) as Hall.
  set (n := List.length (listdir t dest_dir)) in *.
  set (names := map fst (listdir t dest_dir)).
  assert (Hincl : incl (map (candidate st sf) (seq 1 (S n))) names).
  { intros x Hx. apply in_map_iff in Hx as (j & <- & Hj).
    apply in_seq in Hj. apply exists_join. apply Hall. lia. }
  assert (Hnd : NoDup (map (candidate st sf) (seq 1 (S n)))).
  { apply Injective_map_NoDup; [|apply seq_NoDup].
    intros a b. apply candidate_inj. }
  pose proof (NoDup_incl_length Hnd Hincl) as L.
  unfold names in L. rewrite !length_map, length_seq in L. fold n in L. lia.
Qed.

End Probe.

(* ----------------------------------------------------------------- *)
(** ** The collision resolver *)

(** The loop, given one more probe than the directory has entries, returns
    the first candidate that is free. *)
Lemma probe_finds (t : node) (dest_dir : path) (st sf : string) :
  exists i,
    1 <= i <= S (List.length (listdir t dest_dir)) /\
    exists_ t (dest_dir // candidate st sf i) = false /\
    (forall j, 1 <= j < i -> exists_ t (dest_dir // candidate st sf j) = true) /\
    probe t dest_dir st sf (S (List.length (listdir t dest_dir))) 1
    = Some (dest_dir // candidate st sf i).
Proof.
  destruct (probe t dest_dir st sf (S (List.length (listdir t dest_dir))) 1)
    as [p|] eqn:E; [|now apply probe_enough_fuel in E].
  destruct (probe_some _ _ _ _ _ _ _ E) as (k & Hk & -> & Hfree & Hbusy).
  exists k. repeat split; try lia; assumption.
Qed.

(** C8.  The probe loop of [move_file] terminates on every file system:
    some counter [i >= 1], no larger than the number of entries of the
    destination directory plus one, names a candidate that does not exist;
    the loop probes exactly the counters [1 .. i] and returns that
    candidate, however many further probes it would be allowed. *)
Theorem probe_terminates (t : node) (dest_dir : path) (st sf : string) :
  exists i,
    1 <= i <= S (List.length (listdir t dest_dir)) /\
    exists_ t (dest_dir // candidate st sf i) = false /\
    (forall j, 1 <= j < i -> exists_ t (dest_dir // candidate st sf j) = true) /\
    forall fuel, i <= fuel ->
      probe t dest_dir st sf fuel 1 = Some (dest_dir // candidate st sf i).
Proof.
  destruct (probe_finds t dest_dir st sf) as (k & Hk & Hfree & Hbusy & _).
  exists k. repeat split; try lia; try assumption.
  intros fuel Hfuel.
  destruct (probe t dest_dir st sf fuel 1) as [q|] eqn:E'.
  - destruct (probe_some _ _ _ _ _ _ _ E') as (k' & Hk' & -> & Hfree' & Hbusy').
    destruct (Nat.lt_trichotomy k k') as [L|[->|L]]; [|reflexivity|].
    + rewrite Hbusy' in Hfree by lia. discriminate.
    + rewrite Hbusy in Hfree' by lia. discriminate.
  - pose proof (probe_none _ _ _ _ _ _ E' k) as B.
    rewrite B in Hfree by lia. discriminate.
Qed.

(** What lines 11-23 settle on, by whether the name is taken. *)
Lemma resolve_cases (t : node) (src dest_dir : path) :
  (exists_ t (dest_dir // name src) = false ->
   resolve t src dest_dir = Some (dest_dir // name src)) /\
  (exists_ t (dest_dir // name src) = true ->
   exists i, 1 <= i /\
     resolve t src dest_dir
     = Some (dest_dir // candidate (stem (name src)) (suffix (name src)) i) /\
     exists_ t (dest_dir // candidate (stem (name src)) (suffix (name src)) i)
     = false /\
     forall j, 1 <= j < i ->
       exists_ t (dest_dir // candidate (stem (name src)) (suffix (name src)) j)
       = true).
Proof.
  unfold resolve. rewrite name_join. split; intros E; rewrite E.
  - reflexivity.
  - destruct (probe_finds t dest_dir (stem (name src)) (suffix (name src)))
      as (i & Hi & Hfree & Hbusy & Hrun).
    exists i. repeat split; try lia; assumption.
Qed.

(** C2.  The destination [move_file] settles on: [dest_dir / name] itself
    when nothing exists there; otherwise, the name being split by pathlib
    into stem and suffix (which together make up the name), the candidate
    ["{stem} ({i}){suffix}"] of the smallest [i >= 1] that does not exist
    in the file system the probes read. *)
Theorem resolve_first_free (t : node) (src dest_dir : path) :
  let nm := name src in
  let cand i := dest_dir // candidate (stem nm) (suffix nm) i in
  (stem nm ++ suffix nm)%string = nm /\
  (exists_ t (dest_dir // nm) = false ->
   resolve t src dest_dir = Some (dest_dir // nm)) /\
  (exists_ t (dest_dir // nm) = true ->
   exists i, 1 <= i /\
     resolve t src dest_dir = Some (cand i) /\
     exists_ t (cand i) = false /\
     forall j, 1 <= j < i -> exists_ t (cand j) = true).
Proof.
  intros nm cand. split; [apply stem_suffix|].
  destruct (resolve_cases t src dest_dir) as [Hno Hyes].
  split; [exact Hno|]. intros E.
  destruct (Hyes E) as (i & Hi & Hr & Hfree & Hbusy).
  exists i. repeat split; assumption.
Qed.

(** The resolver always answers. *)
Lemma resolve_total (t : node) (src dest_dir : path) :
  exists d, resolve t src dest_dir = Some d /\ exists_ t d = false.
Proof.
  destruct (resolve_cases t src dest_dir) as (Hno & Hyes).
  destruct (exists_ t (dest_dir // name src)) eqn:E.
  - destruct (Hyes eq_refl) as (i & _ & Hr & Hfree & _). eauto.
  - eauto.
Qed.

Lemma dot_leading_split (rest : string) :
  has_char "." rest = false ->
  stem (String "." rest) = String "." rest /\ suffix (String "." rest) = "".
Proof.
  intros H. unfold stem, suffix. simpl rfind.
  rewrite (rfind_absent _ _ H). simpl. split; reflexivity.
Qed.

(** C9.  A name that is a leading dot followed by no further dot (such as
    [".gitignore"]) is all stem and has no suffix: its [i]-th candidate is
    the name followed by [" (i)"], and that is what [move_file] settles on
    when the name is taken. *)
Theorem dotfile_candidate (t : node) (src dest_dir : path) (rest : string) :
  name src = String "." rest ->
  has_char "." rest = false ->
  stem (name src) = name src /\
  suffix (name src) = "" /\
  (forall i, candidate (stem (name src)) (suffix (name src)) i =
             (name src ++ " (" ++ str_of_int i ++ ")")%string) /\
  (exists_ t (dest_dir // name src) = true ->
   exists i, 1 <= i /\
     resolve t src dest_dir =
     Some (dest_dir // (name src ++ " (" ++ str_of_int i ++ ")")%string)).
Proof.
  intros Hn Hrest. destruct (dot_leading_split rest Hrest) as [Hst Hsf].
  rewrite <- Hn in Hst, Hsf.
  assert (Hc : forall i, candidate (stem (name src)) (suffix (name src)) i =
                         (name src ++ " (" ++ str_of_int i ++ ")")%string).
  { intros i. rewrite Hst, Hsf. unfold candidate. reflexivity. }
  repeat split; try assumption.
  intros E. destruct (resolve_cases t src dest_dir) as (_ & Hyes).
  destruct (Hyes E) as (i & Hi & Hr & _). exists i. split; [exact Hi|].
  now rewrite <- Hc.
Qed.

(* ----------------------------------------------------------------- *)
(** ** Prefixes *)

Lemma is_prefix_spec (p q : path) :
  is_prefix p q = true <-> exists r, q = p ++ r.
Proof.
  revert q; induction p as [|a p IH]; intros q; simpl.
  - split; [intros _; now exists q | reflexivity].
  - destruct q as [|b q].
    + split; [discriminate | intros [r H]; discriminate].
    + rewrite andb_true_iff, String.eqb_eq, IH. split.
      * intros [-> [r ->]]. now exists r.
      * intros [r H]. injection H as -> ->. split; [reflexivity | now exists r].
Qed.

Lemma is_prefix_refl (p : path) : is_prefix p p = true.
Proof. apply is_prefix_spec. exists []. now rewrite app_nil_r. Qed.

Lemma is_prefix_app (p r : path) : is_prefix p (p ++ r) = true.
Proof. apply is_prefix_spec. now exists r. Qed.

Lemma is_prefix_trans (p q r : path) :
  is_prefix p q = true -> is_prefix q r = true -> is_prefix p r = true.
Proof.
  rewrite !is_prefix_spec. intros [a ->] [b ->]. exists (a ++ b).
  now rewrite app_assoc.
Qed.

(** A path below [d // n] is below [d]. *)
Lemma is_prefix_join_l (d q : path) (n : string) :
  is_prefix (d // n) q = true -> is_prefix d q = true.
Proof.
  intros H. apply is_prefix_trans with (q := d // n); [|exact H].
  apply is_prefix_app.
Qed.

(** A path at or above [d // n] is [d // n] or lies at or above [d]. *)
Lemma is_prefix_join_r (q d : path) (n : string) :
  is_prefix q (d // n) = true -> q = d // n \/ is_prefix q d = true.
Proof.
  rewrite !is_prefix_spec. intros [r H]. unfold joinpath in *.
  destruct r as [|m r' _] using rev_ind.
  - left. now rewrite app_nil_r in H.
  - right. exists r'. rewrite app_assoc in H.
    now apply app_inj_tail in H as [H _].
Qed.

(** Nothing lies below a file. *)
Lemma get_below_file (t : node) (p q : path) (c : string) (x : node) :
  get t p = Some (File c) -> is_prefix p q = true -> get t q = Some x -> q = p.
Proof.
  intros Hp Hpq Hq. apply is_prefix_spec in Hpq as [r ->].
  rewrite get_app, Hp in Hq. destruct r; [now rewrite app_nil_r | discriminate].
Qed.

(* ----------------------------------------------------------------- *)
(** ** Directories as association lists *)

Lemma assoc_aset_same (n : string) (v : node) (es : entries) :
  assoc n (aset n v es) = Some v.
Proof.
  induction es as [|[m x] es IH]; simpl.
  - now rewrite String.eqb_refl.
  - destruct (String.eqb_spec n m) as [->|Hne]; simpl.
    + now rewrite String.eqb_refl.
    + destruct (String.eqb_spec n m); [contradiction | exact IH].
Qed.

Lemma assoc_aset_other (m n : string) (v : node) (es : entries) :
  m <> n -> assoc m (aset n v es) = assoc m es.
Proof.
  intros Hmn. induction es as [|[k x] es IH]; simpl.
  - destruct (String.eqb_spec m n); [contradiction | reflexivity].
  - destruct (String.eqb_spec n k) as [->|Hne]; simpl.
    + destruct (String.eqb_spec m k); [contradiction | reflexivity].
    + destruct (String.eqb_spec m k); [reflexivity | exact IH].
Qed.

Lemma assoc_adel_same (n : string) (es : entries) : assoc n (adel n es) = None.
Proof.
  induction es as [|[m x] es IH]; simpl; [reflexivity|].
  destruct (String.eqb_spec n m) as [->|Hne]; simpl; [exact IH|].
  destruct (String.eqb_spec n m); [contradiction | exact IH].
Qed.

Lemma assoc_adel_other (m n : string) (es : entries) :
  m <> n -> assoc m (adel n es) = assoc m es.
Proof.
  intros Hmn. induction es as [|[k x] es IH]; simpl; [reflexivity|].
  destruct (String.eqb_spec n k) as [->|Hne]; simpl.
  - destruct (String.eqb_spec m k); [contradiction | exact IH].
  - destruct (String.eqb_spec m k); [reflexivity | exact IH].
Qed.

Lemma aset_present (n : string) (v : node) (es : entries) :
  assoc n es = Some v -> aset n v es = es.
Proof.
  induction es as [|[m x] es IH]; simpl; [discriminate|].
  destruct (String.eqb_spec n m) as [->|Hne]; intros H.
  - now injection H as ->.
  - now rewrite IH.
Qed.

Lemma aset_absent (n : string) (v : node) (es : entries) :
  assoc n es = None -> aset n v es = es ++ [(n, v)].
Proof.
  induction es as [|[m x] es IH]; simpl; [reflexivity|].
  destruct (String.eqb_spec n m) as [->|Hne]; intros H; [discriminate|].
  now rewrite IH.
Qed.

(* ----------------------------------------------------------------- *)
(** ** Look-up after an update *)

Lemma update_dir (s s' : node) (r : path) (v : option node) :
  update s r v = Some s' -> exists es es', s = Dir es /\ s' = Dir es'.
Proof.
  destruct r as [|n r]; simpl; [discriminate|].
  destruct s as [|es]; [discriminate|].
  destruct r as [|m r].
  - intros H. injection H as <-. eauto.
  - destruct (assoc n es) as [c|]; [|discriminate].
    destruct (update c (m :: r) v); [|discriminate].
    intros H. injection H as <-. eauto.
Qed.

(** At and below the updated path. *)
Lemma get_update_below (p : path) : forall (t t' : node) v (r : path),
  update t p v = Some t' ->
  get t' (p ++ r) = match v with Some x => get x r | None => None end.
Proof.
  induction p as [|n p IH]; intros t t' v r; simpl; [discriminate|].
  destruct t as [|es]; [discriminate|].
  destruct p as [|m p].
  - intros H. injection H as <-. simpl. destruct v as [x|].
    + now rewrite assoc_aset_same.
    + now rewrite assoc_adel_same.
  - destruct (assoc n es) as [c|]; [|discriminate].
    destruct (update c (m :: p) v) as [c'|] eqn:E; [|discriminate].
    intros H. injection H as <-.
    change (get (Dir (aset n c' es)) (n :: (m :: p) ++ r) =
            match v with Some x => get x r | None => None end).
    simpl get at 1. rewrite assoc_aset_same. exact (IH c c' v r E).
Qed.

Lemma get_update_same (p : path) (t t' : node) (v : option node) :
  update t p v = Some t' -> get t' p = v.
Proof.
  intros H. pose proof (get_update_below p t t' v [] H) as G.
  rewrite app_nil_r in G. rewrite G. now destruct v.
Qed.

(** Away from the updated path. *)
Lemma get_update_apart (p : path) : forall (t t' : node) v (q : path),
  update t p v = Some t' ->
  is_prefix p q = false -> is_prefix q p = false ->
  get t' q = get t q.
Proof.
  induction p as [|n p IH]; intros t t' v q; simpl; [discriminate|].
  destruct t as [|es]; [discriminate|].
  destruct q as [|k q]; [discriminate|]. simpl is_prefix.
  destruct (String.eqb_spec n k) as [<-|Hne].
  - rewrite String.eqb_refl. simpl. destruct p as [|m p]; [discriminate|].
    destruct (assoc n es) as [c|] eqn:A; [|discriminate].
    destruct (update c (m :: p) v) as [c'|] eqn:E; [|discriminate].
    intros H Hpq Hqp. injection H as <-. simpl.
    rewrite assoc_aset_same. now apply IH with (v := v).
  - intros H _ _. assert (Hkn : k <> n) by congruence.
    destruct p as [|m p].
    + injection H as <-. simpl. destruct v.
      * now rewrite assoc_aset_other.
      * now rewrite assoc_adel_other.
    + destruct (assoc n es) as [c|]; [|discriminate].
      destruct (update c (m :: p) v) as [c'|]; [|discriminate].
      injection H as <-. simpl. now rewrite assoc_aset_other.
Qed.

(** Strictly above the updated path. *)
Lemma get_update_above (q : path) : forall (t t' : node) v (r : path),
  r <> [] ->
  update t (q ++ r) v = Some t' ->
  exists s s', get t q = Some s /\ update s r v = Some s' /\
               get t' q = Some s'.
Proof.
  induction q as [|n q IH]; intros t t' v r Hr; simpl.
  - intros H. now exists t, t'.
  - destruct t as [|es]; [discriminate|].
    destruct (q ++ r) as [|m qr] eqn:Eqr.
    { apply app_eq_nil in Eqr as [_ ->]. contradiction. }
    destruct (assoc n es) as [c|]; [|discriminate].
    destruct (update c (m :: qr) v) as [c'|] eqn:E; [|discriminate].
    intros H. injection H as <-. rewrite assoc_aset_same.
    rewrite <- Eqr in E. now apply IH.
Qed.

(** Where a file can be after an update: inside what was bound, or where
    it was before, away from the updated path. *)
Lemma get_file_update (p q : path) (t t' : node) (v : option node) (c : string) :
  update t p v = Some t' ->
  get t' q = Some (File c) ->
  (exists r x, q = p ++ r /\ v = Some x /\ get x r = Some (File c)) \/
  (is_prefix p q = false /\ get t q = Some (File c)).
Proof.
  intros U G. destruct (is_prefix p q) eqn:Epq.
  - apply is_prefix_spec in Epq as [r ->].
    rewrite (get_update_below p t t' v r U) in G.
    destruct v as [x|]; [|discriminate]. left. now exists r, x.
  - right. split; [reflexivity|]. destruct (is_prefix q p) eqn:Eqp.
    + apply is_prefix_spec in Eqp as [r ->].
      assert (Hr : r <> []).
      { intros ->. rewrite app_nil_r, is_prefix_refl in Epq. discriminate. }
      destruct (get_update_above q t t' v r Hr U) as (s & s' & _ & Us & G').
      apply update_dir in Us as (es & es' & _ & ->). congruence.
    + now rewrite <- (get_update_apart p t t' v q U Epq Eqp).
Qed.

(** A directory that is not at or below the updated path stays one. *)
Lemma is_dir_update (p q : path) (t t' : node) (v : option node) :
  update t p v = Some t' ->
  is_prefix p q = false -> is_dir t q = true -> is_dir t' q = true.
Proof.
  intros U Epq D. unfold is_dir in *. destruct (is_prefix q p) eqn:Eqp.
  - apply is_prefix_spec in Eqp as [r ->].
    assert (Hr : r <> []).
    { intros ->. rewrite app_nil_r, is_prefix_refl in Epq. discriminate. }
    destruct (get_update_above q t t' v r Hr U) as (s & s' & _ & Us & G).
    apply update_dir in Us as (es & es' & _ & ->). now rewrite G.
  - now rewrite (get_update_apart p t t' v q U Epq Eqp).
Qed.

(* ----------------------------------------------------------------- *)
(** ** When an update succeeds *)

Lemma update_remove_ok (p : path) : forall (t x : node),
  p <> [] -> get t p = Some x -> exists t', update t p None = Some t'.
Proof.
  induction p as [|n p IH]; intros t x Hp; [contradiction|]. simpl.
  destruct t as [|es]; [discriminate|].
  destruct (assoc n es) as [c|]; [|discriminate].
  destruct p as [|m p]; [eauto|]. intros G.
  destruct (IH c x ltac:(discriminate) G) as [c' ->]. eauto.
Qed.

Lemma update_put_ok (d : path) : forall (t : node) (n : string) (x : node),
  is_dir t d = true -> exists t', update t (d // n) (Some x) = Some t'.
Proof.
  unfold is_dir, joinpath.
  induction d as [|k d IH]; intros t n x; simpl.
  - destruct t as [|es]; [discriminate | eauto].
  - destruct t as [|es]; [discriminate|].
    destruct (assoc k es) as [c|]; [|discriminate]. intros D.
    destruct (IH c n x D) as [c' E].
    destruct (d ++ [n]) as [|m r] eqn:Er; [now destruct d|].
    rewrite E. eauto.
Qed.

Lemma is_dir_exists (t : node) (p : path) : is_dir t p = true -> exists_ t p = true.
Proof. unfold is_dir, exists_. now destruct (get t p) as [[|]|]. Qed.

Lemma is_dir_parent (t : node) (d : path) (n : string) :
  exists_ t (d // n) = true -> is_dir t d = true.
Proof.
  unfold exists_, is_dir, joinpath. rewrite get_app.
  destruct (get t d) as [[|es]|]; simpl; congruence.
Qed.

Section MoveFileFacts.

Variable denied : path -> bool.

(** Moving a file to a name that is free in an existing directory. *)
Lemma shutil_move_file (t : node) (src d : path) (n c : string) :
  get t src = Some (File c) ->
  denied src = false ->
  is_dir t d = true ->
  exists_ t (d // n) = false ->
  exists t1 t2,
    update t src None = Some t1 /\
    update t1 (d // n) (Some (File c)) = Some t2 /\
    shutil_move denied t src (d // n) = Ok t2.
Proof.
  intros Hsrc Hden Hd Hfree.
  assert (Hne : src <> []).
  { intros ->. simpl in Hsrc. injection Hsrc as ->.
    unfold is_dir in Hd. now destruct d. }
  destruct (update_remove_ok src t _ Hne Hsrc) as [t1 U1].
  assert (Hd1 : is_dir t1 d = true).
  { apply (is_dir_update src d t t1 None U1); [|exact Hd].
    destruct (is_prefix src d) eqn:E; [|reflexivity].
    unfold is_dir in Hd. destruct (get t d) as [[|es]|] eqn:G; try discriminate.
    pose proof (get_below_file t src d c _ Hsrc E G) as ->. congruence. }
  destruct (update_put_ok d t1 n (File c) Hd1) as [t2 U2].
  exists t1, t2. repeat split; try assumption.
  unfold shutil_move.
  assert (Hnd : is_dir t (d // n) = false).
  { destruct (is_dir t (d // n)) eqn:E; [|reflexivity].
    apply is_dir_exists in E. congruence. }
  rewrite Hnd. simpl. rewrite Hsrc, Hden, U1, U2. reflexivity.
Qed.

(** [d // a] and [d // b] are apart as soon as [a] and [b] differ. *)
Lemma is_prefix_siblings (d : path) (a b : string) :
  a <> b -> is_prefix (d // a) (d // b) = false.
Proof.
  intros Hab. destruct (is_prefix (d // a) (d // b)) eqn:E; [|reflexivity].
  apply is_prefix_spec in E as [r E]. unfold joinpath in E.
  rewrite <- app_assoc in E. apply app_inv_head in E.
  injection E as E _. congruence.
Qed.

Lemma candidate_neq (nm : string) (i : nat) :
  candidate (stem nm) (suffix nm) i <> nm.
Proof.
  intros H. apply (f_equal String.length) in H.
  rewrite length_candidate, <- length_append, stem_suffix in H. lia.
Qed.

(** C10.  A directory at [dest_dir / name] counts as a collision like any
    other entry: the file goes to a ["(i)"] candidate beside it, the
    directory stays a directory, and unless the file came from inside that
    directory, the directory is exactly as it was. *)
Theorem directory_is_collision (t : node) (src dest_dir : path) (c : string) :
  get t src = Some (File c) ->
  denied src = false ->
  is_dir t (dest_dir // name src) = true ->
  exists i t',
    1 <= i /\
    let new_dest :=
      dest_dir // candidate (stem (name src)) (suffix (name src)) i in
    move_file denied t src dest_dir = Some (Ok new_dest, t') /\
    get t' new_dest = Some (File c) /\
    get t' src = None /\
    is_dir t' (dest_dir // name src) = true /\
    (is_prefix (dest_dir // name src) src = false ->
     get t' (dest_dir // name src) = get t (dest_dir // name src)).
Proof.
  intros Hsrc Hden Hdir.
  set (nm := name src) in *. set (q := dest_dir // nm) in *.
  pose proof (is_dir_exists _ _ Hdir) as Hex.
  destruct (resolve_cases t src dest_dir) as (_ & Hyes).
  destruct (Hyes Hex) as (i & Hi & Hres & Hfree & _). fold nm in Hres, Hfree.
  set (cn := candidate (stem nm) (suffix nm) i) in *.
  pose proof (is_dir_parent t dest_dir nm Hex) as Hdd.
  destruct (shutil_move_file t src dest_dir cn c Hsrc Hden Hdd Hfree)
    as (t1 & t2 & U1 & U2 & Hmv).
  assert (Hsq : is_prefix src q = false).
  { destruct (is_prefix src q) eqn:E; [|reflexivity].
    unfold is_dir in Hdir. destruct (get t q) as [[|es]|] eqn:G; try discriminate.
    pose proof (get_below_file t src q c _ Hsrc E G). congruence. }
  assert (Hcq : is_prefix (dest_dir // cn) q = false).
  { apply is_prefix_siblings. apply candidate_neq. }
  assert (Hqc : is_prefix q (dest_dir // cn) = false).
  { apply is_prefix_siblings. intros E. symmetry in E. revert E. apply candidate_neq. }
  exists i, t2. split; [exact Hi|]. cbv zeta. fold cn.
  split; [|split; [|split; [|split]]].
  - unfold move_file. now rewrite Hres, Hmv.
  - apply (get_update_same _ _ _ _ U2).
  - destruct (is_prefix (dest_dir // cn) src) eqn:E1.
    + exfalso. apply is_prefix_spec in E1 as [r E1].
      rewrite E1, get_app in Hsrc. unfold exists_ in Hfree.
      destruct (get t (dest_dir // cn)); discriminate.
    + destruct (is_prefix src (dest_dir // cn)) eqn:E2.
      * exfalso. apply is_prefix_join_r in E2 as [E2|E2].
        -- rewrite E2 in Hsrc. unfold exists_ in Hfree.
           rewrite Hsrc in Hfree. discriminate.
        -- unfold is_dir in Hdd.
           destruct (get t dest_dir) as [[|es]|] eqn:G; try discriminate.
           pose proof (get_below_file t src dest_dir c _ Hsrc E2 G). congruence.
      * rewrite (get_update_apart _ _ _ _ src U2 E1 E2).
        apply (get_update_same _ _ _ _ U1).
  - apply (is_dir_update _ q _ _ _ U2 Hcq).
    apply (is_dir_update _ q _ _ _ U1 Hsq). exact Hdir.
  - intros Hqs.
    rewrite (get_update_apart _ _ _ _ q U2 Hcq Hqc).
    apply (get_update_apart _ _ _ _ q U1 Hsq Hqs).
Qed.

End MoveFileFacts.

(* ----------------------------------------------------------------- *)
(** ** The executor's list of futures *)

Lemma nth_error_lt {A : Type} (l : list A) (i : nat) (x : A) :
  nth_error l i = Some x -> i < List.length l.
Proof. intros H. apply nth_error_Some. congruence. Qed.

Lemma length_set_status (i : nat) (st : status) (l : list future) :
  List.length (set_status i st l) = List.length l.
Proof.
  revert i; induction l as [|[src o] l IH]; intros [|i]; simpl; auto.
Qed.

Lemma nth_set_status_same (i : nat) (st o : status) (src : path) (l : list future) :
  nth_error l i = Some (src, o) ->
  nth_error (set_status i st l) i = Some (src, st).
Proof.
  revert i; induction l as [|[src' o'] l IH]; intros [|i]; simpl; try discriminate.
  - intros H. now injection H as -> _.
  - apply IH.
Qed.

Lemma nth_set_status_other (i j : nat) (st : status) (l : list future) :
  j <> i -> nth_error (set_status i st l) j = nth_error l j.
Proof.
  revert i j; induction l as [|[src o] l IH]; intros [|i] [|j] H; simpl;
    try reflexivity; try contradiction.
  apply IH. congruence.
Qed.

(** Any additive measure of the futures changes by what the one future
    rewritten contributes. *)
Lemma sum_set_status (w : future -> nat) (i : nat) (st o : status) (src : path)
    (l : list future) :
  nth_error l i = Some (src, o) ->
  list_sum (map w (set_status i st l)) + w (src, o) =
  list_sum (map w l) + w (src, st).
Proof.
  revert i; induction l as [|[src' o'] l IH]; intros [|i]; simpl; try discriminate.
  - intros H. injection H as -> ->. lia.
  - intros H. specialize (IH i H). lia.
Qed.

Lemma count_filter (P : future -> bool) (l : list future) :
  List.length (filter P l) = count P l.
Proof.
  unfold count. induction l as [|f l IH]; simpl; [reflexivity|].
  destruct (P f); simpl; now rewrite IH.
Qed.

Lemma take_spec (l l' : list future) :
  take l = Some l' ->
  exists i src,
    nth_error l i = Some (src, Queued) /\ l' = set_status i Started l /\
    forall j f, j < i -> nth_error l j = Some f -> snd f <> Queued.
Proof.
  revert l'; induction l as [|[src o] l IH]; intros l'; simpl; [discriminate|].
  assert (K : match take l with Some l'' => Some ((src, o) :: l'') | None => None end
              = Some l' -> o <> Queued ->
              exists i src0, nth_error ((src, o) :: l) i = Some (src0, Queued) /\
                l' = set_status i Started ((src, o) :: l) /\
                forall j f, j < i -> nth_error ((src, o) :: l) j = Some f ->
                            snd f <> Queued).
  { destruct (take l) as [l''|]; [|discriminate]. intros H Ho. injection H as <-.
    destruct (IH l'' eq_refl) as (i & src0 & Hn & -> & Hfirst).
    exists (S i), src0. repeat split; try assumption.
    intros [|j] f Hj; simpl; intros Hf.
    - now injection Hf as <-.
    - apply (Hfirst j); [lia | exact Hf]. }
  destruct o; try (intros H; apply K; [exact H | discriminate]).
  intros H. injection H as <-. exists 0, src. repeat split.
  intros j f Hj. lia.
Qed.

Lemma take_some (l : list future) :
  (exists f, In f l /\ snd f = Queued) -> take l <> None.
Proof.
  induction l as [|[src o] l IH]; intros (f & Hin & Hq); [contradiction|].
  simpl. destruct Hin as [<-|Hin].
  - simpl in Hq. subst o. discriminate.
  - assert (T : take l <> None) by (apply IH; eauto).
    destruct (take l); [|contradiction]. destruct o; discriminate.
Qed.

Lemma length_remove_id (i : nat) (l : list nat) :
  existsb (Nat.eqb i) l = true -> S (List.length (remove_id i l)) = List.length l.
Proof.
  induction l as [|j l IH]; simpl; [discriminate|].
  destruct (Nat.eqb i j); simpl; [reflexivity|]. intros H. now rewrite IH.
Qed.

Lemma in_remove_id (i j : nat) (l : list nat) :
  In j l -> j <> i -> In j (remove_id i l).
Proof.
  induction l as [|k l IH]; simpl; [tauto|].
  intros [->|H] Hne.
  - destruct (Nat.eqb_spec i j); [congruence | now left].
  - destruct (Nat.eqb i k); [exact H | right; now apply IH].
Qed.

Lemma remove_id_incl (i j : nat) (l : list nat) :
  In j (remove_id i l) -> In j l.
Proof.
  induction l as [|k l IH]; simpl; [tauto|].
  destruct (Nat.eqb i k); simpl; tauto.
Qed.

(** Futures with a property whose positions all occur in [w] number at
    most the length of [w]. *)
Lemma count_le_ids (P : future -> bool) (l : list future) : forall (w : list nat),
  (forall i f, nth_error l i = Some f -> P f = true -> In i w) ->
  count P l <= List.length w.
Proof.
  unfold count. induction l as [|x l IH] using rev_ind; intros w H; simpl; [lia|].
  rewrite map_app, list_sum_app. simpl.
  destruct (P x) eqn:Px.
  - assert (Hin : In (List.length l) w).
    { apply (H _ x); [|exact Px].
      rewrite nth_error_app2 by lia. now rewrite Nat.sub_diag. }
    pose proof (remove_length_lt Nat.eq_dec w (List.length l) Hin) as Hlt.
    specialize (IH (remove Nat.eq_dec (List.length l) w)).
    assert (IH' : list_sum (map (fun f => if P f then 1 else 0) l)
                  <= List.length (remove Nat.eq_dec (List.length l) w)).
    { apply IH. intros i f Hi Pf. apply in_in_remove.
      - apply nth_error_lt in Hi. lia.
      - apply (H i f); [|exact Pf]. rewrite nth_error_app1; [exact Hi|].
        now apply nth_error_lt in Hi. }
    lia.
  - assert (IH' : list_sum (map (fun f => if P f then 1 else 0) l)
                  <= List.length w).
    { apply IH. intros i f Hi Pf. apply (H i f); [|exact Pf].
      rewrite nth_error_app1; [exact Hi|]. now apply nth_error_lt in Hi. }
    lia.
Qed.

(* ----------------------------------------------------------------- *)
(** ** Every schedule is finite *)

Section Schedules.

Variable denied : path -> bool.
Variable c : config.

Lemma worker_step_inv (l : label) (s s' : state) :
  l <> Main -> (forall i, l <> Yield i) ->
  step denied c l s = Some s' ->
  exists i src o st,
    nth_error (pool s) i = Some (src, o) /\
    is_done (src, o) = false /\
    status_weight (src, st) < status_weight (src, o) /\
    pool s' = set_status i st (pool s) /\
    at_ s' = at_ s /\ out s' = out s.
Proof.
  intros HM HY. destruct l as [|j|  |j|j]; simpl;
    try contradiction; try (now destruct (HY j)).
  - destruct (Z.of_nat _ <? max_workers c)%Z; [|discriminate].
    destruct (take (pool s)) as [p'|] eqn:T; [|discriminate].
    intros H. injection H as <-. simpl.
    destruct (take_spec _ _ T) as (i & src & Hn & -> & _).
    exists i, src, Queued, Started. repeat split; try assumption; try reflexivity;
      unfold status_weight; simpl; lia.
  - destruct (nth_error (pool s) j) as [[src [| | |]]|] eqn:N; try discriminate.
    destruct (resolve (fs s) src (dest c)) as [d|]; [|discriminate].
    intros H. injection H as <-. simpl.
    exists j, src, Started, (Resolved d). repeat split; try assumption; try reflexivity;
      unfold status_weight; simpl; lia.
  - destruct (nth_error (pool s) j) as [[src [| |d|]]|] eqn:N; try discriminate.
    destruct (shutil_move denied (fs s) src d) as [t'|e];
      intros H; injection H as <-; simpl.
    + exists j, src, (Resolved d), (Done (Ok d)). repeat split; try assumption; try reflexivity;
      unfold status_weight; simpl; lia.
    + exists j, src, (Resolved d), (Done (Err e)). repeat split; try assumption; try reflexivity;
      unfold status_weight; simpl; lia.
Qed.

(** Each step uses up some of the state's weight. *)
Lemma step_weight (l : label) (s s' : state) :
  step denied c l s = Some s' -> weight s' < weight s.
Proof.
  intros H. destruct l as [|j|  |j|j].
  - simpl in H. unfold main_step in H. unfold weight.
    destruct (at_ s) as [[|f rest] futs|rest [|? ?]|[|? ?]|r|r] eqn:A;
      try discriminate.
    + injection H as <-. simpl. lia.
    + destruct (dry_run c).
      * injection H as <-. simpl. lia.
      * destruct (_ >=? _)%Z; injection H as <-; simpl;
          rewrite map_app, list_sum_app, length_app; simpl; lia.
    + injection H as <-. simpl. lia.
    + injection H as <-. simpl. lia.
    + destruct (forallb is_done (pool s)); [|discriminate].
      destruct r; injection H as <-; simpl; lia.
  - simpl in H. unfold yield_step in H. unfold weight.
    destruct (at_ s) as [? ?|rest w|w|r|r] eqn:A; try discriminate;
      (destruct (existsb (Nat.eqb j) w) eqn:E; [|discriminate]);
      apply length_remove_id in E;
      destruct (nth_error (pool s) j) as [[src [| | |[d|e]]]|];
      try discriminate; injection H as <-; simpl; lia.
  - destruct (worker_step_inv Take s s' ltac:(discriminate) ltac:(discriminate) H)
      as (i & src & o & st & Hn & _ & Hw & Hp & Ha & _).
    unfold weight. rewrite Hp, Ha.
    pose proof (sum_set_status status_weight i st o src (pool s) Hn). lia.
  - destruct (worker_step_inv (Probe j) s s' ltac:(discriminate) ltac:(discriminate) H)
      as (i & src & o & st & Hn & _ & Hw & Hp & Ha & _).
    unfold weight. rewrite Hp, Ha.
    pose proof (sum_set_status status_weight i st o src (pool s) Hn). lia.
  - destruct (worker_step_inv (Move j) s s' ltac:(discriminate) ltac:(discriminate) H)
      as (i & src & o & st & Hn & _ & Hw & Hp & Ha & _).
    unfold weight. rewrite Hp, Ha.
    pose proof (sum_set_status status_weight i st o src (pool s) Hn). lia.
Qed.

Lemma run_weight (tr : list label) : forall (s s' : state),
  run denied c tr s = Some s' -> List.length tr + weight s' <= weight s.
Proof.
  induction tr as [|l tr IH]; intros s s'; simpl.
  - intros H. injection H as <-. lia.
  - destruct (step denied c l s) as [s1|] eqn:E; [|discriminate].
    intros H. apply IH in H. apply step_weight in E. lia.
Qed.

Lemma run_app (tr1 tr2 : list label) : forall (s : state),
  run denied c (tr1 ++ tr2) s =
  match run denied c tr1 s with
  | Some s1 => run denied c tr2 s1
  | None => None
  end.
Proof.
  induction tr1 as [|l tr1 IH]; intros s; simpl; [reflexivity|].
  destruct (step denied c l s); [apply IH | reflexivity].
Qed.

End Schedules.

(* ----------------------------------------------------------------- *)
(** ** What holds in every state [main] reaches *)

Section Invariant.

Variable denied : path -> bool.
Variable c : config.
Variable fs0 : node.

Lemma succeeded_done (f : future) : succeeded f = true -> is_done f = true.
Proof.
  destruct f as [src [| | |[d|e]]]; unfold succeeded, is_done; simpl; congruence.
Qed.

Lemma in_flight_count (s : state) :
  in_flight s = count (fun f => negb (is_done f)) (pool s).
Proof. apply count_filter. Qed.

Lemma holds_in_flight (s : state) (w : list nat) :
  holds c s w -> in_flight s <= List.length w.
Proof.
  intros (_ & _ & _ & H). rewrite in_flight_count. apply count_le_ids.
  intros i f Hi Hd. apply (H i f Hi).
  destruct (succeeded f) eqn:E; [|reflexivity].
  apply succeeded_done in E. rewrite E in Hd. discriminate.
Qed.

Lemma inv_pc_start : inv_pc c (start c fs0).
Proof.
  clear denied. unfold start, inv_pc.
  destruct (negb (exists_ fs0 (source c))); [simpl; tauto|].
  destruct (mkdir fs0 (dest c)) as [fs1|e]; [|now left].
  destruct (Z.leb_spec (max_workers c) 0) as [W|W]; [now left|].
  unfold holds, cap. simpl.
  split; [|lia]. split; [exact W|]. split; [lia|]. split.
  - intros i [].
  - intros [|i] f; discriminate.
Qed.

Lemma inv_out_start : inv_out c fs0 (start c fs0).
Proof.
  unfold start, inv_out, found_line.
  destruct (exists_ fs0 (source c)) eqn:E; simpl.
  - destruct (mkdir fs0 (dest c)) as [fs1|e]; simpl; [|tauto].
    destruct (max_workers c <=? 0)%Z; simpl.
    + split; [|reflexivity]. intros [H|[]]. discriminate.
    + repeat split; try reflexivity. intros [H|[]]. discriminate.
  - discriminate.
Qed.

(** A worker's progress on one future disturbs nothing main relies on. *)
Lemma inv_pc_worker (s s' : state) (i : nat) (src : path) (o st : status) :
  nth_error (pool s) i = Some (src, o) ->
  is_done (src, o) = false ->
  pool s' = set_status i st (pool s) ->
  at_ s' = at_ s ->
  inv_pc c s -> inv_pc c s'.
Proof.
  intros Hn Hnd Hp Ha.
  assert (Hlen : List.length (pool s') = List.length (pool s))
    by (rewrite Hp; apply length_set_status).
  assert (Hold : succeeded (src, o) = false).
  { destruct (succeeded (src, o)) eqn:E; [|reflexivity].
    apply succeeded_done in E. congruence. }
  assert (Hh : forall w, holds c s w -> holds c s' w).
  { intros w (Hw & Hc & Hids & Hcur). repeat split; try assumption.
    - intros j Hj. rewrite Hlen. now apply Hids.
    - intros j f Hj Hs. destruct (Nat.eq_dec j i) as [->|Hne].
      + apply (Hcur i (src, o) Hn Hold).
      + rewrite Hp, nth_set_status_other in Hj by exact Hne.
        apply (Hcur j f Hj Hs). }
  assert (Hall : forall P : future -> bool,
             (forall f, P f = true -> is_done f = true) ->
             (forall f, In f (pool s) -> P f = true) -> False).
  { intros P HP H. apply nth_error_In in Hn as Hin.
    apply H, HP in Hin. congruence. }
  assert (Hr : forall e, raised_by e (pool s) -> raised_by e (pool s')).
  { intros e (j & sj & Hj). exists j, sj. rewrite Hp.
    rewrite nth_set_status_other; [exact Hj|].
    intros ->. rewrite Hn in Hj. injection Hj as _ ->. discriminate. }
  unfold inv_pc. rewrite Ha.
  destruct (at_ s) as [rest futs|rest w|w|[e|]|[e|]].
  - intros [H L]. split; [now apply Hh | exact L].
  - apply Hh.
  - apply Hh.
  - intros (Hw & Hre & Hfl). repeat split; [exact Hw | now apply Hr |].
    rewrite in_flight_count in *. rewrite Hp.
    pose proof (sum_set_status (fun f => if negb (is_done f) then 1 else 0)
                  i st o src (pool s) Hn) as S.
    unfold count. cbv beta in S. rewrite Hnd in S. simpl in S.
    unfold count in Hfl. destruct (negb (is_done (src, st))); lia.
  - intros (_ & H). exfalso. apply (Hall succeeded succeeded_done H).
  - intros [H|[_ H]]; exfalso.
    + rewrite H in Hn. now destruct i.
    + apply (Hall is_done (fun f E => E) H).
  - intros H. exfalso. apply (Hall succeeded succeeded_done H).
Qed.

Lemma inv_out_worker (s s' : state) (i : nat) (src : path) (o st : status) :
  nth_error (pool s) i = Some (src, o) ->
  is_done (src, o) = false ->
  pool s' = set_status i st (pool s) ->
  at_ s' = at_ s -> out s' = out s ->
  inv_pc c s -> inv_out c fs0 s -> inv_out c fs0 s'.
Proof.
  intros Hn Hnd Hp Ha Ho. unfold inv_out, inv_pc. rewrite Ha, Ho.
  assert (Hne : pool s <> []) by (intros E; rewrite E in Hn; now destruct i).
  assert (Hlen : List.length (pool s') = List.length (pool s))
    by (rewrite Hp; apply length_set_status).
  assert (Hne' : pool s' <> [] -> pool s <> []) by (intros _; exact Hne).
  assert (Hall : forall P : future -> bool,
             (forall f, P f = true -> is_done f = true) ->
             (forall f, In f (pool s) -> P f = true) -> False).
  { intros P HP H. apply nth_error_In in Hn as Hin.
    apply H, HP in Hin. congruence. }
  destruct (at_ s) as [rest futs|rest w|w|r|[e|]];
    try (intros _ (H1 & H2 & H3); repeat split; try assumption;
         intros D; exfalso; apply Hne; now apply H3).
  - intros _ [H1 H2]. split; [exact H1 | intros _; now apply H2].
  - intros H. exfalso. apply (Hall succeeded succeeded_done H).
Qed.

End Invariant.

Section InvariantSteps.

Variable denied : path -> bool.
Variable c : config.
Variable fs0 : node.

Lemma holds_pool (s s' : state) (w : list nat) :
  pool s' = pool s -> holds c s w -> holds c s' w.
Proof. unfold holds. now intros ->. Qed.

Lemma holds_submit (s s' : state) (w : list nat) (f : path) :
  pool s' = pool s ++ [(f, Queued)] ->
  holds c s w -> List.length w < cap c ->
  holds c s' (w ++ [List.length (pool s)]).
Proof.
  intros Hp (Hw & _ & Hids & Hcur) L. unfold holds. rewrite Hp.
  rewrite !length_app. simpl. repeat split; try assumption; try lia.
  - intros i Hi. apply in_app_or in Hi as [Hi|[<-|[]]]; [|lia].
    apply Hids in Hi. lia.
  - intros i g Hi Hs. apply in_or_app.
    destruct (Nat.lt_ge_cases i (List.length (pool s))) as [Hlt|Hge].
    + left. rewrite nth_error_app1 in Hi by exact Hlt. now apply (Hcur i g).
    + right. left. apply nth_error_lt in Hi. rewrite length_app in Hi.
      simpl in Hi. lia.
Qed.

Lemma holds_nil_all (s : state) :
  holds c s [] -> forall f, In f (pool s) -> succeeded f = true.
Proof.
  intros (_ & _ & _ & Hcur) f Hin. apply In_nth_error in Hin as [i Hi].
  destruct (succeeded f) eqn:E; [reflexivity|].
  now apply (Hcur i f Hi) in E.
Qed.

Lemma holds_yield (s s' : state) (w : list nat) (i : nat) (src d : path) :
  pool s' = pool s ->
  existsb (Nat.eqb i) w = true ->
  nth_error (pool s) i = Some (src, Done (Ok d)) ->
  holds c s w -> holds c s' (remove_id i w).
Proof.
  intros Hp Hi Hn (Hw & Hc & Hids & Hcur). unfold holds. rewrite Hp.
  apply length_remove_id in Hi. repeat split; try assumption; try lia.
  - intros j Hj. apply Hids. now apply remove_id_incl in Hj.
  - intros j f Hj Hs. apply in_remove_id; [now apply (Hcur j f)|].
    intros ->. rewrite Hn in Hj. injection Hj as <-. discriminate.
Qed.

Lemma would_move_not_done (f d : path) : would_move_msg f d <> done_msg.
Proof. unfold would_move_msg, done_msg. simpl. discriminate. Qed.

Lemma inv_main_step (s s' : state) :
  main_step c s = Some s' ->
  inv_pc c s -> inv_out c fs0 s -> inv_pc c s' /\ inv_out c fs0 s'.
Proof.
  unfold main_step, inv_pc, inv_out. destruct s as [t o pl a]. simpl.
  destruct a as [[|f rest] futs|rest [|? ?]|[|? ?]|r|r]; try discriminate.
  - intros H. injection H as <-. simpl. intros [Hh L] Ho. split; [|exact Ho].
    eapply holds_pool; [|exact Hh]. reflexivity.
  - destruct (dry_run c) eqn:D.
    + intros H. injection H as <-. simpl. intros [Hh L] (O1 & O2 & O3).
      split; [split; [|exact L]|].
      * eapply holds_pool; [|exact Hh]. reflexivity.
      * repeat split; try assumption; try discriminate.
        intros Hin. apply in_app_or in Hin as [Hin|[Hin|[]]]; [tauto|].
        now apply would_move_not_done in Hin.
    + destruct (_ >=? _)%Z eqn:B; intros H; injection H as <-; simpl;
        intros [Hh L] (O1 & O2 & O3).
      * split; [|repeat split; try assumption; discriminate].
        apply (holds_submit (State t o pl (AtLoop (f :: rest) futs))) with (f := f);
          [reflexivity | exact Hh | exact L].
      * split; [|repeat split; try assumption; discriminate].
        split.
        -- apply (holds_submit (State t o pl (AtLoop (f :: rest) futs))) with (f := f);
             [reflexivity | exact Hh | exact L].
        -- rewrite length_app in *. simpl in *.
           rewrite Z.geb_leb in B. apply Z.leb_gt in B. unfold cap. lia.
  - intros H. injection H as <-. simpl. intros Hh Ho. split; [|exact Ho].
    split; [eapply holds_pool; [|exact Hh]; reflexivity|].
    unfold cap. simpl. lia.
  - intros H. injection H as <-. simpl. intros Hh Ho. split; [|exact Ho].
    split; [apply Hh | apply (holds_nil_all _ Hh)].
  - destruct (forallb is_done pl) eqn:F; [|discriminate].
    destruct r as [e|]; intros H; injection H as <-; simpl.
    + intros (Hw & Hr & _) (O1 & O2 & O3). split.
      * right. split; [exact Hr|]. now apply forallb_forall.
      * split; [exact O1|]. intros Hne. apply O2.
        destruct (dry_run c); [|reflexivity]. now destruct Hne; apply O3.
    + intros (_ & Hs) _. split; [exact Hs|].
      intros _. apply in_or_app. right. now left.
Qed.

Lemma inv_yield_step (i : nat) (s s' : state) :
  yield_step i s = Some s' ->
  inv_pc c s -> inv_out c fs0 s -> inv_pc c s' /\ inv_out c fs0 s'.
Proof.
  unfold yield_step, inv_pc, inv_out. destruct s as [t o pl a]. simpl.
  destruct a as [? ?|rest w|w|r|r]; try discriminate;
    (destruct (existsb (Nat.eqb i) w) eqn:E; [|discriminate]);
    destruct (nth_error pl i) as [[src [| | |[d|e]]]|] eqn:N; try discriminate;
    intros H; injection H as <-; simpl; intros Hh Ho.
  - split; [|exact Ho].
    apply (holds_yield (State t o pl (AtDrain rest w))) with (src := src) (d := d);
      [reflexivity | exact E | exact N | exact Hh].
  - split; [|exact Ho]. destruct Hh as (Hw & Hc & Hrest) eqn:Hh'. clear Hh'.
    repeat split; [exact Hw | now exists i, src |].
    pose proof (holds_in_flight c (State t o pl (AtDrain rest w)) w
                  (conj Hw (conj Hc Hrest))) as L. simpl in L.
    unfold in_flight in *. simpl in *. lia.
  - split; [|exact Ho].
    apply (holds_yield (State t o pl (AtFinal w))) with (src := src) (d := d);
      [reflexivity | exact E | exact N | exact Hh].
  - split; [|exact Ho]. destruct Hh as (Hw & Hc & Hrest) eqn:Hh'. clear Hh'.
    repeat split; [exact Hw | now exists i, src |].
    pose proof (holds_in_flight c (State t o pl (AtFinal w)) w
                  (conj Hw (conj Hc Hrest))) as L. simpl in L.
    unfold in_flight in *. simpl in *. lia.
Qed.

Lemma inv_step (l : label) (s s' : state) :
  step denied c l s = Some s' ->
  inv_pc c s -> inv_out c fs0 s -> inv_pc c s' /\ inv_out c fs0 s'.
Proof.
  intros H Hpc Hout.
  destruct l as [|j|  |j|j];
    [now apply inv_main_step with (s := s)
    |now apply inv_yield_step with (i := j) (s := s)| | |].
  all: match type of H with step _ _ ?l _ = _ =>
         destruct (worker_step_inv denied c l s s' ltac:(discriminate)
                     ltac:(discriminate) H)
           as (i & src & o & st & Hn & Hnd & _ & Hp & Ha & Ho)
       end.
  all: split;
    [ exact (inv_pc_worker c s s' i src o st Hn Hnd Hp Ha Hpc)
    | exact (inv_out_worker c fs0 s s' i src o st Hn Hnd Hp Ha Ho Hpc Hout) ].
Qed.

(** The invariants hold in every state a schedule leads to. *)
Lemma run_inv (tr : list label) : forall (s s' : state),
  run denied c tr s = Some s' ->
  inv_pc c s -> inv_out c fs0 s -> inv_pc c s' /\ inv_out c fs0 s'.
Proof.
  induction tr as [|l tr IH]; intros s s'; simpl.
  - intros H. injection H as <-. tauto.
  - destruct (step denied c l s) as [s1|] eqn:E; [|discriminate].
    intros H Hpc Hout. destruct (inv_step l s s1 E Hpc Hout) as [Hpc1 Hout1].
    now apply (IH s1 s').
Qed.

Lemma reach_inv (tr : list label) (s : state) :
  run denied c tr (start c fs0) = Some s -> inv_pc c s /\ inv_out c fs0 s.
Proof.
  intros H. apply (run_inv tr _ _ H); [apply inv_pc_start | apply inv_out_start].
Qed.

End InvariantSteps.

(* ----------------------------------------------------------------- *)
(** ** No schedule gets stuck before [main] ends *)

Section Progress.

Variable denied : path -> bool.
Variable c : config.

Lemma forallb_false {A : Type} (P : A -> bool) (l : list A) :
  forallb P l = false -> exists x, In x l /\ P x = false.
Proof.
  induction l as [|a l IH]; simpl; [discriminate|].
  destruct (P a) eqn:E; simpl.
  - intros H. destruct (IH H) as (x & Hin & Hx). eauto.
  - intros _. eauto.
Qed.

(** Some worker is past line 23, or past the queue, or none is busy. *)
Lemma pool_cases (l : list future) :
  (exists i src d, nth_error l i = Some (src, Resolved d)) \/
  (exists i src, nth_error l i = Some (src, Started)) \/
  filter is_running l = [].
Proof.
  induction l as [|[src o] l IH]; [now right; right|].
  destruct o as [| |d|r].
  - destruct IH as [(i & s1 & d & H)|[(i & s1 & H)|H]].
    + left. now exists (S i), s1, d.
    + right. left. now exists (S i), s1.
    + right. right. exact H.
  - right. left. now exists 0, src.
  - left. now exists 0, src, d.
  - destruct IH as [(i & s1 & d & H)|[(i & s1 & H)|H]].
    + left. now exists (S i), s1, d.
    + right. left. now exists (S i), s1.
    + right. right. exact H.
Qed.

(** An unfinished future lets some worker move on. *)
Lemma worker_progress (s : state) :
  (0 < max_workers c)%Z ->
  (exists f, In f (pool s) /\ is_done f = false) ->
  exists l s', step denied c l s = Some s'.
Proof.
  intros Hw (f & Hin & Hf).
  destruct (pool_cases (pool s)) as [(i & src & d & H)|[(i & src & H)|H]].
  - exists (Move i). simpl. rewrite H.
    destruct (shutil_move denied (fs s) src d); eauto.
  - exists (Probe i). simpl. rewrite H.
    destruct (resolve_total (fs s) src (dest c)) as (d & -> & _). eauto.
  - exists Take. simpl. rewrite H. simpl.
    destruct (Z.ltb_spec 0 (max_workers c)) as [_|]; [|lia].
    assert (T : take (pool s) <> None).
    { apply take_some. exists f. split; [exact Hin|].
      assert (R : is_running f = false).
      { destruct (is_running f) eqn:R; [|reflexivity].
        assert (Hi : In f (filter is_running (pool s)))
          by (apply filter_In; now split).
        rewrite H in Hi. contradiction. }
      destruct f as [sf [| | |r]]; try reflexivity; discriminate. }
    destruct (take (pool s)); [eauto | contradiction].
Qed.

Lemma yield_progress (s : state) (w : list nat) :
  (0 < max_workers c)%Z ->
  (forall i, In i w -> i < List.length (pool s)) ->
  w <> [] ->
  (exists j, In j w /\ existsb (Nat.eqb j) w = true /\
                exists src r, nth_error (pool s) j = Some (src, Done r)) \/
  exists l s', step denied c l s = Some s'.
Proof.
  intros Hw Hids Hne.
  destruct (existsb (fun j => match nth_error (pool s) j with
                              | Some f => is_done f
                              | None => false
                              end) w) eqn:E.
  - left. apply existsb_exists in E as (j & Hj & Hd).
    exists j. split; [exact Hj|]. split.
    + apply existsb_exists. exists j. split; [exact Hj | apply Nat.eqb_refl].
    + destruct (nth_error (pool s) j) as [[src [| | |r]]|]; try discriminate.
      now exists src, r.
  - right. destruct w as [|i w]; [contradiction|].
    simpl in E. apply orb_false_iff in E as [E _].
    assert (Hi : i < List.length (pool s)) by (apply Hids; now left).
    apply nth_error_Some in Hi.
    destruct (nth_error (pool s) i) as [f|] eqn:N; [|contradiction].
    apply worker_progress; [exact Hw|]. exists f. split; [|exact E].
    now apply nth_error_In in N.
Qed.

Lemma progress (s : state) :
  inv_pc c s -> (forall r, at_ s <> Finished r) ->
  exists l s', step denied c l s = Some s'.
Proof.
  unfold inv_pc. destruct s as [t o pl a]; simpl. intros Hinv Hnf.
  destruct a as [rest futs|rest w|w|r|r].
  - exists Main. simpl. unfold main_step. simpl.
    destruct rest as [|f rest]; [eauto|].
    destruct (dry_run c); [eauto|]. destruct (_ >=? _)%Z; eauto.
  - destruct w as [|i w]; [exists Main; simpl; unfold main_step; simpl; eauto|].
    destruct Hinv as (Hw & _ & Hids & _).
    destruct (yield_progress (State t o pl (AtDrain rest (i :: w))) (i :: w)
                Hw Hids ltac:(discriminate))
      as [(j & Hj & Hjb & src & r & Hn)|H]; [|exact H].
    exists (Yield j). simpl. unfold yield_step. simpl in *.
    rewrite Hjb, Hn. destruct r; eauto.
  - destruct w as [|i w]; [exists Main; simpl; unfold main_step; simpl; eauto|].
    destruct Hinv as (Hw & _ & Hids & _).
    destruct (yield_progress (State t o pl (AtFinal (i :: w))) (i :: w)
                Hw Hids ltac:(discriminate))
      as [(j & Hj & Hjb & src & r & Hn)|H]; [|exact H].
    exists (Yield j). simpl. unfold yield_step. simpl in *.
    rewrite Hjb, Hn. destruct r; eauto.
  - destruct (forallb is_done pl) eqn:F.
    + exists Main. simpl. unfold main_step. simpl. rewrite F. destruct r; eauto.
    + apply forallb_false in F. apply worker_progress; [|exact F].
      destruct r; tauto.
  - now destruct (Hnf r).
Qed.

End Progress.

(* ----------------------------------------------------------------- *)
(** ** Batches, failures and the end of [main] *)

Section Claims.

Variable denied : path -> bool.
Variable c : config.
Variable fs0 : node.

Lemma main_step_pool (s s' : state) :
  main_step c s = Some s' ->
  pool s' = pool s \/ exists f, pool s' = pool s ++ [(f, Queued)].
Proof.
  unfold main_step.
  destruct (at_ s) as [[|f rest] futs|rest [|? ?]|[|? ?]|r|r]; try discriminate;
    try (intros H; injection H as <-; now left).
  - destruct (dry_run c); [intros H; injection H as <-; now left|].
    destruct (_ >=? _)%Z; intros H; injection H as <-; right; now exists f.
  - destruct (forallb is_done (pool s)); [|discriminate].
    destruct r; intros H; injection H as <-; now left.
Qed.

Lemma yield_step_pool (i : nat) (s s' : state) :
  yield_step i s = Some s' -> pool s' = pool s /\ fs s' = fs s.
Proof.
  unfold yield_step.
  destruct (at_ s) as [? ?|rest w|w|r|r]; try discriminate;
    (destruct (existsb (Nat.eqb i) w); [|discriminate]);
    destruct (nth_error (pool s) i) as [[src [| | |[d|e]]]|]; try discriminate;
    intros H; injection H as <-; now split.
Qed.

(** A future, once submitted, stays in the executor's list. *)
Lemma step_keeps (l : label) (s s' : state) (i : nat) (src : path) (o : status) :
  step denied c l s = Some s' ->
  nth_error (pool s) i = Some (src, o) ->
  exists o', nth_error (pool s') i = Some (src, o').
Proof.
  intros H Hn.
  assert (W : l <> Main -> (forall j, l <> Yield j) ->
              exists o', nth_error (pool s') i = Some (src, o')).
  { intros HM HY.
    destruct (worker_step_inv denied c l s s' HM HY H)
      as (j & sj & oj & st & Hj & _ & _ & Hp & _).
    rewrite Hp. destruct (Nat.eq_dec i j) as [->|Hne].
    - rewrite Hj in Hn. injection Hn as -> ->.
      exists st. apply (nth_set_status_same _ _ _ _ _ Hj).
    - exists o. now rewrite nth_set_status_other. }
  destruct l as [|j|  |j|j]; try (apply W; [discriminate | discriminate]).
  - simpl in H. apply main_step_pool in H as [->|[f ->]]; exists o; [exact Hn|].
    rewrite nth_error_app1; [exact Hn | now apply nth_error_lt in Hn].
  - simpl in H. apply yield_step_pool in H as [-> _]. now exists o.
Qed.

Lemma run_keeps (tr : list label) : forall (s s' : state) i src o,
  run denied c tr s = Some s' ->
  nth_error (pool s) i = Some (src, o) ->
  exists o', nth_error (pool s') i = Some (src, o').
Proof.
  induction tr as [|l tr IH]; intros s s' i src o; simpl.
  - intros H. injection H as <-. eauto.
  - destruct (step denied c l s) as [s1|] eqn:E; [|discriminate].
    intros H Hn. destruct (step_keeps l s s1 i src o E Hn) as [o1 H1].
    apply (IH s1 s' i src o1 H H1).
Qed.

Lemma finished_all_done (s : state) (r : option exn) :
  inv_pc c s -> at_ s = Finished r ->
  forall f, In f (pool s) -> is_done f = true.
Proof.
  unfold inv_pc. intros H A. rewrite A in H. destruct r as [e|].
  - destruct H as [->|[_ H]]; [contradiction | exact H].
  - intros f Hin. apply succeeded_done. now apply H.
Qed.

(** From any state reached, some schedule leads to the end of [main]. *)
Lemma completes (n : nat) : forall (s : state),
  weight s <= n -> inv_pc c s -> inv_out c fs0 s ->
  exists tr s' r, run denied c tr s = Some s' /\ at_ s' = Finished r.
Proof.
  induction n as [|n IH]; intros s Hn Hpc Hout.
  - destruct (at_ s) as [? ?|? ?|?|?|r] eqn:A;
      try (destruct (progress denied c s Hpc) as (l & s1 & E);
           [intros r; rewrite A; discriminate|];
           apply step_weight in E; lia).
    now exists [], s, r.
  - destruct (at_ s) as [? ?|? ?|?|?|r] eqn:A;
      try (destruct (progress denied c s Hpc) as (l & s1 & E);
           [intros r; rewrite A; discriminate|];
           destruct (inv_step denied c fs0 l s s1 E Hpc Hout) as [Hpc1 Hout1];
           pose proof (step_weight denied c l s s1 E) as W;
           destruct (IH s1 ltac:(lia) Hpc1 Hout1) as (tr & s' & r & R & F);
           exists (l :: tr), s', r; simpl; rewrite E; now split).
    now exists [], s, r.
Qed.

(** C3, as the code has it.  A failing item neither cancels nor skips the
    items submitted with it: whatever the schedule, it is finite, it never
    gets stuck before [main] has ended and some continuation of it reaches
    that end, and every item submitted at any point is in a terminal state
    when [main] has ended (leaving the [with] block waits for the
    executor).  What is raised in [main] is the exception of an item that
    failed. *)
Theorem failure_spares_siblings (tr : list label) (s : state) :
  run denied c tr (start c fs0) = Some s ->
  List.length tr + weight s <= weight (start c fs0) /\
  ((forall r, at_ s <> Finished r) ->
   exists l s', step denied c l s = Some s') /\
  (exists tr' s' r, run denied c tr' s = Some s' /\ at_ s' = Finished r) /\
  (forall tr' s' r i src o,
     run denied c tr' s = Some s' -> at_ s' = Finished r ->
     nth_error (pool s) i = Some (src, o) ->
     exists res, nth_error (pool s') i = Some (src, Done res)) /\
  (forall e, at_ s = AtExit (Some e) -> raised_by e (pool s)).
Proof.
  intros R. destruct (reach_inv denied c fs0 tr s R) as [Hpc Hout].
  split; [now apply run_weight with (denied := denied) (c := c)|].
  split; [intros Hnf; now apply progress|].
  split; [now apply (completes (weight s))|]. split.
  - intros tr' s' r i src o R' Hfin Hn.
    destruct (run_keeps tr' s s' i src o R' Hn) as [o' Hn'].
    assert (R2 : run denied c (tr ++ tr') (start c fs0) = Some s')
      by (now rewrite run_app, R).
    destruct (reach_inv denied c fs0 _ s' R2) as [Hpc' _].
    pose proof (finished_all_done s' r Hpc' Hfin (src, o')
                  (nth_error_In _ _ Hn')) as D.
    destruct o' as [| | |res]; try discriminate. now exists res.
  - intros e He. unfold inv_pc in Hpc. rewrite He in Hpc. tauto.
Qed.

Lemma all_done_in_flight (s : state) :
  (forall f, In f (pool s) -> is_done f = true) -> in_flight s = 0.
Proof.
  unfold in_flight. induction (pool s) as [|f l IH]; [reflexivity|].
  intros H. simpl. rewrite (H f) by now left. simpl. apply IH.
  intros g Hg. apply H. now right.
Qed.

Lemma inv_in_flight (s : state) : inv_pc c s -> in_flight s <= cap c.
Proof.
  unfold inv_pc. destruct (at_ s) as [rest futs|rest w|w|[e|]|[e|]] eqn:A.
  - intros [H L]. apply holds_in_flight in H. lia.
  - intros H. pose proof (holds_in_flight c s w H). destruct H as (_ & L & _). lia.
  - intros H. pose proof (holds_in_flight c s w H). destruct H as (_ & L & _). lia.
  - tauto.
  - intros [_ H]. rewrite all_done_in_flight; [lia|].
    intros f Hf. now apply succeeded_done, H.
  - intros [H|[_ H]].
    + unfold in_flight. rewrite H. simpl. lia.
    + rewrite all_done_in_flight; [lia | exact H].
  - intros H. rewrite all_done_in_flight; [lia|].
    intros f Hf. now apply succeeded_done, H.
Qed.

(** C4, as the code has it.  Whatever the schedule, at most
    [max(batch_size, 1)] items are in flight, hence at most [batch_size]
    for a batch size of one or more; and whenever main is at the head of
    the loop, about to submit, [futures] is short of a full batch and every
    item that is not in it (the items of the batches before) is in a
    terminal state. *)
Theorem in_flight_bounded (tr : list label) (s : state) :
  run denied c tr (start c fs0) = Some s ->
  in_flight s <= Z.to_nat (Z.max 1 (batch_size c)) /\
  ((1 <= batch_size c)%Z -> (Z.of_nat (in_flight s) <= batch_size c)%Z) /\
  (forall rest futures, at_ s = AtLoop rest futures ->
     (Z.of_nat (List.length futures) < Z.max 1 (batch_size c))%Z /\
     forall i f, nth_error (pool s) i = Some f -> ~ In i futures ->
                 is_done f = true).
Proof.
  intros R. destruct (reach_inv denied c fs0 tr s R) as [Hpc _].
  pose proof (inv_in_flight s Hpc) as L. unfold cap in L.
  split; [exact L|]. split; [lia|].
  intros rest futs A. unfold inv_pc in Hpc. rewrite A in Hpc.
  destruct Hpc as [(_ & _ & _ & Hcur) Hlen]. unfold cap in Hlen.
  split; [lia|]. intros i f Hn Hni. apply succeeded_done.
  destruct (succeeded f) eqn:E; [reflexivity|].
  now apply (Hcur i f Hn) in E.
Qed.

Lemma failed_not_succeeded (f : future) : failed f = true -> succeeded f = false.
Proof. destruct f as [src [| | |[d|e]]]; unfold failed, succeeded; simpl; congruence. Qed.

(** C6, as the code has it.  A run that moves files keeps no tally and
    does not go on after a failure: when some move has failed, [main] ends
    by raising the exception of a failed move, having printed the first
    line and nothing else.  ["Done moving files."] is printed exactly when
    [main] returns, and then every move has succeeded. *)
Theorem failure_ends_run (tr : list label) (s : state) (r : option exn) :
  exists_ fs0 (source c) = true ->
  run denied c tr (start c fs0) = Some s ->
  at_ s = Finished r ->
  (In done_msg (out s) <-> r = None) /\
  (r = None -> forall f, In f (pool s) -> succeeded f = true) /\
  ((exists f, In f (pool s) /\ failed f = true) ->
   exists e, r = Some e /\ raised_by e (pool s) /\
             out s = [found_line c fs0]).
Proof.
  intros Hsrc R A. destruct (reach_inv denied c fs0 tr s R) as [Hpc Hout].
  unfold inv_pc, inv_out in *. rewrite A in *. destruct r as [e|].
  - destruct Hout as [Hnd Ho]. split; [split; [tauto | discriminate]|].
    split; [discriminate|]. intros (f & Hin & Hf). exists e.
    destruct Hpc as [Hp|[Hr _]]; [rewrite Hp in Hin; contradiction|].
    repeat split; [exact Hr|]. apply Ho. intros E. rewrite E in Hin. contradiction.
  - split; [split; [reflexivity | intros _; now apply Hout]|].
    split; [intros _; exact Hpc|]. intros (f & Hin & Hf). exfalso.
    apply failed_not_succeeded in Hf. rewrite (Hpc f Hin) in Hf. discriminate.
Qed.

(** C7.  When the source path does not exist, [main] prints the line
    naming it and returns: nothing has been changed in the file system,
    nothing gathered or submitted, and no schedule does anything more. *)
Theorem missing_source_aborts (tr : list label) (s : state) :
  exists_ fs0 (source c) = false ->
  run denied c tr (start c fs0) = Some s ->
  tr = [] /\
  s = State fs0 [missing_msg (source c)] [] (Finished None).
Proof.
  intros Hsrc. unfold start. rewrite Hsrc. simpl.
  destruct tr as [|l tr]; simpl.
  - intros H. injection H as <-. now split.
  - destruct l as [|j|  |j|j]; simpl; try discriminate.
    + destruct (_ <? _)%Z; discriminate.
    + now destruct j.
    + now destruct j.
Qed.

End Claims.

(* ================================================================= *)
(** * Runs on small file systems *)

Example ex_run_raise :
  run ex_denied ex_config ex_trace_raise (start ex_config ex_tree)
  = Some ex_state_raise.
Proof. vm_compute. reflexivity. Qed.

Example ex_run_end :
  run ex_denied ex_config ex_trace_end (start ex_config ex_tree)
  = Some ex_state_end.
Proof. vm_compute. reflexivity. Qed.

(** C3, as stated, fails: the failure of [/s/bad.txt] is raised in [main]
    (line 74) while [/s/good.txt], submitted in the same batch, is still
    queued. *)
Lemma raised_before_batch_completes :
  ~ (forall denied c fs0 tr s e,
       run denied c tr (start c fs0) = Some s ->
       at_ s = AtExit (Some e) ->
       forall f, In f (pool s) -> is_done f = true).
Proof.
  intros H.
  specialize (H ex_denied ex_config ex_tree ex_trace_raise ex_state_raise ex_perm
                ex_run_raise eq_refl (["s"; "good.txt"], Queued)).
  discriminate H. right. now left.
Qed.

Lemma failure_spares_siblings_witness :
  List.length ex_trace_raise + weight ex_state_raise
    <= weight (start ex_config ex_tree) /\
  (exists l s', step ex_denied ex_config l ex_state_raise = Some s') /\
  (exists res, nth_error (pool ex_state_end) 1
               = Some (["s"; "good.txt"], Done res)) /\
  raised_by ex_perm (pool ex_state_raise).
Proof.
  destruct (failure_spares_siblings ex_denied ex_config ex_tree
              ex_trace_raise ex_state_raise ex_run_raise)
    as (H1 & H2 & _ & H3 & H4).
  split; [exact H1|]. split; [apply H2; discriminate|]. split.
  - apply (H3 [Take; Probe 1; Move 1; Main] ex_state_end (Some ex_perm)
              1 ["s"; "good.txt"] Queued); reflexivity.
  - apply H4. reflexivity.
Defined.

(** C4, as stated, fails for a batch size below one: after the first
    submission one item is in flight. *)
Lemma batch_size_zero_exceeded :
  ~ (forall denied c fs0 tr s,
       run denied c tr (start c fs0) = Some s ->
       (Z.of_nat (in_flight s) <= batch_size c)%Z).
Proof.
  intros H.
  specialize (H nothing_denied ex_config_zero ex_tree [Main] _ eq_refl).
  vm_compute in H. now apply H.
Qed.

Lemma in_flight_bounded_witness :
  in_flight ex_state_raise <= 2000 /\
  (Z.of_nat (in_flight ex_state_raise) <= 2000)%Z.
Proof.
  destruct (in_flight_bounded ex_denied ex_config ex_tree
              ex_trace_raise ex_state_raise ex_run_raise) as (H1 & H2 & _).
  split; [exact H1 | apply H2; simpl; lia].
Defined.

(** C6, as stated, fails: the run above ends without ["Done moving
    files."], although the source exists and a move has failed. *)
Lemma failed_run_prints_no_done :
  ~ (forall denied c fs0 tr s r,
       exists_ fs0 (source c) = true ->
       run denied c tr (start c fs0) = Some s ->
       at_ s = Finished r ->
       (exists f, In f (pool s) /\ failed f = true) ->
       In done_msg (out s)).
Proof.
  intros H.
  specialize (H ex_denied ex_config ex_tree ex_trace_end ex_state_end
                (Some ex_perm) eq_refl ex_run_end eq_refl).
  assert (F : exists f, In f (pool ex_state_end) /\ failed f = true).
  { exists (["s"; "bad.txt"], Done (Err ex_perm)). split; [now left | reflexivity]. }
  apply H in F. simpl in F. destruct F as [F|[]]. discriminate F.
Qed.

Lemma failure_ends_run_witness :
  ~ In done_msg (out ex_state_end) /\
  out ex_state_end = [found_line ex_config ex_tree].
Proof.
  destruct (failure_ends_run ex_denied ex_config ex_tree ex_trace_end
              ex_state_end (Some ex_perm) eq_refl ex_run_end eq_refl)
    as (H1 & _ & H3).
  split.
  - intros D. apply H1 in D. discriminate D.
  - destruct H3 as (e & _ & _ & Ho); [|exact Ho].
    exists (["s"; "bad.txt"], Done (Err ex_perm)). split; [now left | reflexivity].
Defined.

Lemma missing_source_aborts_witness :
  [] = @nil label /\
  start ex_config_missing ex_tree
  = State ex_tree ["Source path does not exist: /nowhere"] [] (Finished None).
Proof.
  apply (missing_source_aborts nothing_denied ex_config_missing ex_tree []
           (start ex_config_missing ex_tree)); reflexivity.
Defined.

(** C1 fails on the code: line 52 creates the destination directory
    before the loop looks at [dry_run].  No file is moved, but [/d], which
    did not exist, exists when the dry run has ended. *)
Lemma dry_run_creates_destination :
  exists_ ex_tree ["d"] = false /\
  run nothing_denied ex_config_dry [Main; Main; Main; Main; Main]
    (start ex_config_dry ex_tree)
  = Some (State
            (Dir [("s", Dir [("bad.txt", File "b"); ("good.txt", File "g")]);
                  ("d", Dir [])])
            ["Found 2 files to move.";
             "Would move: /s/bad.txt -> /d";
             "Would move: /s/good.txt -> /d";
             "Done moving files."]
            [] (Finished None)).
Proof. split; vm_compute; reflexivity. Qed.

Lemma dotfile_candidate_witness :
  stem ".gitignore" = ".gitignore" /\
  suffix ".gitignore" = "" /\
  exists i, 1 <= i /\
    resolve ex_tree_taken ["s"; ".gitignore"] ["d"]
    = Some (["d"] // (".gitignore" ++ " (" ++ str_of_int i ++ ")")%string).
Proof.
  destruct (dotfile_candidate ex_tree_taken ["s"; ".gitignore"] ["d"]
              "gitignore" eq_refl eq_refl) as (H1 & H2 & _ & H4).
  split; [exact H1|]. split; [exact H2|]. apply H4. reflexivity.
Defined.

Lemma directory_is_collision_witness :
  exists i t',
    1 <= i /\
    move_file nothing_denied ex_tree_taken ["s"; "a.txt"] ["d"]
    = Some (Ok (["d"] // candidate "a" ".txt" i), t') /\
    get t' (["d"] // candidate "a" ".txt" i) = Some (File "a") /\
    get t' ["d"; "a.txt"] = Some (Dir [("x", File "x")]).
Proof.
  destruct (directory_is_collision nothing_denied ex_tree_taken
              ["s"; "a.txt"] ["d"] "a" eq_refl eq_refl eq_refl)
    as (i & t' & Hi & Hmv & Hget & _ & _ & Hsame).
  exists i, t'. split; [exact Hi|]. split; [exact Hmv|]. split; [exact Hget|].
  apply Hsame. reflexivity.
Defined.

(* ================================================================= *)
(** * Files of one name, moved by one worker *)

(* ----------------------------------------------------------------- *)
(** ** Well-formed file systems *)

Lemma node_induction (P : node -> Prop) :
  (forall c, P (File c)) ->
  (forall es, Forall (fun e => P (snd e)) es -> P (Dir es)) ->
  forall t, P t.
Proof.
  intros HF HD. fix IH 1. intros [c|es]; [apply HF | apply HD].
  induction es as [|[n x] es IHes]; constructor; [apply IH | apply IHes].
Qed.

Lemma nodupb_spec (l : list string) : nodupb l = true <-> NoDup l.
Proof.
  induction l as [|a l IH]; simpl.
  - split; [constructor | reflexivity].
  - rewrite andb_true_iff, negb_true_iff, IH, NoDup_cons_iff.
    assert (E : existsb (String.eqb a) l = false <-> ~ In a l).
    { rewrite <- not_true_iff_false, existsb_exists. split.
      - intros H Hin. apply H. exists a. split; [exact Hin | apply String.eqb_refl].
      - intros H (x & Hin & Hx). apply String.eqb_eq in Hx. now subst. }
    now rewrite E.
Qed.

Lemma wf_dir (es : entries) :
  wf (Dir es) = true <->
  NoDup (map fst es) /\ forall n x, In (n, x) es -> wf x = true.
Proof.
  simpl. rewrite andb_true_iff, nodupb_spec, forallb_forall. split.
  - intros [H1 H2]. split; [exact H1|]. intros n x Hin. apply (H2 (n, x) Hin).
  - intros [H1 H2]. split; [exact H1|]. intros [n x] Hin. now apply (H2 n x).
Qed.

Lemma assoc_nodup (n : string) (x : node) (es : entries) :
  NoDup (map fst es) -> In (n, x) es -> assoc n es = Some x.
Proof.
  induction es as [|[m y] es IH]; simpl; [tauto|].
  intros Hnd Hin. apply NoDup_cons_iff in Hnd as [Hm Hnd].
  destruct (String.eqb_spec n m) as [->|Hne].
  - destruct Hin as [E|Hin]; [now injection E as -> |].
    exfalso. apply Hm. change m with (fst (m, x)). now apply in_map.
  - destruct Hin as [E|Hin]; [injection E as -> _; contradiction|].
    now apply IH.
Qed.

Lemma map_fst_aset (n : string) (v : node) (es : entries) :
  map fst (aset n v es) =
  if existsb (String.eqb n) (map fst es) then map fst es else map fst es ++ [n].
Proof.
  induction es as [|[m y] es IH]; simpl; [reflexivity|].
  destruct (String.eqb_spec n m) as [->|Hne]; simpl; [reflexivity|].
  rewrite IH. now destruct (existsb (String.eqb n) (map fst es)).
Qed.

Lemma in_aset (n m : string) (v x : node) (es : entries) :
  In (m, x) (aset n v es) -> (m = n /\ x = v) \/ In (m, x) es.
Proof.
  induction es as [|[k y] es IH]; simpl.
  - intros [E|[]]. injection E as <- <-. now left.
  - destruct (String.eqb n k); simpl.
    + intros [E|H]; [injection E as <- <-; now left | tauto].
    + intros [E|H]; [tauto|]. apply IH in H. tauto.
Qed.

Lemma in_adel (n m : string) (x : node) (es : entries) :
  In (m, x) (adel n es) -> In (m, x) es.
Proof.
  induction es as [|[k y] es IH]; simpl; [tauto|].
  destruct (String.eqb n k); simpl; [tauto|]. intros [E|H]; tauto.
Qed.

Lemma nodup_adel (n : string) (es : entries) :
  NoDup (map fst es) -> NoDup (map fst (adel n es)).
Proof.
  induction es as [|[k y] es IH]; simpl; [trivial|].
  intros Hnd. apply NoDup_cons_iff in Hnd as [Hk Hnd].
  destruct (String.eqb n k); simpl; [now apply IH|].
  constructor; [|now apply IH].
  intros Hin. apply Hk. apply in_map_iff in Hin as ([k' y'] & E & Hin).
  simpl in E. subst k'. apply in_adel in Hin.
  change k with (fst (k, y')). now apply in_map.
Qed.

Lemma wf_aset (n : string) (v : node) (es : entries) :
  wf (Dir es) = true -> wf v = true -> wf (Dir (aset n v es)) = true.
Proof.
  rewrite !wf_dir. intros [Hnd Hall] Hv. split.
  - rewrite map_fst_aset.
    destruct (existsb (String.eqb n) (map fst es)) eqn:E; [exact Hnd|].
    apply NoDup_app; [exact Hnd | repeat constructor; tauto |].
    intros a Ha [<-|[]].
    rewrite <- not_true_iff_false in E. apply E. apply existsb_exists.
    exists n. split; [exact Ha | apply String.eqb_refl].
  - intros m x Hin. apply in_aset in Hin as [[_ ->]|Hin]; [exact Hv|].
    now apply (Hall m x).
Qed.

Lemma wf_adel (n : string) (es : entries) :
  wf (Dir es) = true -> wf (Dir (adel n es)) = true.
Proof.
  rewrite !wf_dir. intros [Hnd Hall]. split; [now apply nodup_adel|].
  intros m x Hin. apply in_adel in Hin. now apply (Hall m x).
Qed.

Lemma wf_assoc (n : string) (x : node) (es : entries) :
  wf (Dir es) = true -> assoc n es = Some x -> wf x = true.
Proof.
  rewrite wf_dir. intros [_ Hall] H. apply assoc_in in H. now apply (Hall n x).
Qed.

Lemma wf_update (p : path) : forall (t t' : node) (v : option node),
  wf t = true -> (forall x, v = Some x -> wf x = true) ->
  update t p v = Some t' -> wf t' = true.
Proof.
  induction p as [|n p IH]; intros t t' v Ht Hv; simpl; [discriminate|].
  destruct t as [|es]; [discriminate|].
  destruct p as [|m p].
  - intros H. injection H as <-. destruct v as [x|].
    + apply wf_aset; [exact Ht | now apply Hv].
    + now apply wf_adel.
  - destruct (assoc n es) as [x|] eqn:A; [|discriminate].
    destruct (update x (m :: p) v) as [x'|] eqn:U; [|discriminate].
    intros H. injection H as <-. apply wf_aset; [exact Ht|].
    apply (IH x x' v); [now apply (wf_assoc n x es) | exact Hv | exact U].
Qed.

(** Creating a directory that exists changes nothing. *)
Lemma mkdir_existing (t : node) (p : path) :
  is_dir t p = true -> mkdir t p = Ok t.
Proof.
  unfold mkdir, is_dir. generalize p at 2 as whole.
  revert t; induction p as [|n p IH]; intros t whole; simpl.
  - destruct t; [discriminate | reflexivity].
  - destruct t as [|es]; [discriminate|].
    destruct (assoc n es) as [x|] eqn:A; [|discriminate].
    intros H. rewrite (IH x whole H). now rewrite aset_present.
Qed.

(* ----------------------------------------------------------------- *)
(** ** What [gather_files] finds *)

Lemma flat_map_flat_map {A B C : Type} (f : A -> list B) (g : B -> list C)
    (l : list A) :
  flat_map g (flat_map f l) = flat_map (fun a => flat_map g (f a)) l.
Proof.
  induction l as [|a l IH]; simpl; [reflexivity|].
  now rewrite flat_map_app, IH.
Qed.

Lemma walk_files_dir (es : entries) (root : path) :
  walk_files (os_walk (Dir es) root) =
  map (fun f => root // f) (filenames es) ++
  flat_map (fun e : string * node =>
              let (n, x) := e in walk_files (os_walk x (root // n))) es.
Proof.
  unfold walk_files at 1. simpl. f_equal.
  rewrite flat_map_flat_map. apply flat_map_ext. now intros [n x].
Qed.

Lemma in_filenames (n : string) (es : entries) :
  In n (filenames es) <-> exists c, In (n, File c) es.
Proof.
  unfold filenames. rewrite in_map_iff. split.
  - intros ([m x] & E & Hin). simpl in E. subst m.
    apply filter_In in Hin as [Hin Hf]. unfold is_dir_entry in Hf. simpl in Hf.
    destruct x as [c|]; [now exists c | discriminate].
  - intros [c Hin]. exists (n, File c). split; [reflexivity|].
    apply filter_In. now split.
Qed.

Lemma joinpath_app (root : path) (n : string) (rel : path) :
  (root // n) ++ rel = root ++ n :: rel.
Proof. unfold joinpath. now rewrite <- app_assoc. Qed.

(** Every path gathered is that of a file strictly below the root. *)
Lemma walk_files_get (t : node) : forall (root p : path),
  wf t = true ->
  In p (walk_files (os_walk t root)) ->
  exists rel c, rel <> [] /\ p = root ++ rel /\ get t rel = Some (File c).
Proof.
  induction t as [c|es IH] using node_induction; intros root p Hwf.
  - simpl. contradiction.
  - rewrite walk_files_dir. apply wf_dir in Hwf as [Hnd Hall].
    intros Hin. apply in_app_or in Hin as [Hin|Hin].
    + apply in_map_iff in Hin as (n & <- & Hn).
      apply in_filenames in Hn as [c Hn].
      exists [n], c. repeat split; [discriminate|].
      simpl. now rewrite (assoc_nodup n (File c) es Hnd Hn).
    + apply in_flat_map in Hin as ([n x] & Hx & Hin).
      rewrite Forall_forall in IH.
      destruct (IH (n, x) Hx (root // n) p (Hall n x Hx) Hin)
        as (rel & c & Hrel & -> & Hg).
      exists (n :: rel), c. repeat split; [discriminate | apply joinpath_app |].
      simpl. now rewrite (assoc_nodup n x es Hnd Hx).
Qed.

(** Every file strictly below the root is gathered. *)
Lemma walk_files_complete (t : node) : forall (root rel : path) (c : string),
  rel <> [] -> get t rel = Some (File c) ->
  In (root ++ rel) (walk_files (os_walk t root)).
Proof.
  induction t as [c0|es IH] using node_induction; intros root rel c Hrel.
  - destruct rel; [contradiction | discriminate].
  - destruct rel as [|n rel]; [contradiction|].
    rewrite walk_files_dir. simpl get.
    destruct (assoc n es) as [x|] eqn:A; [|discriminate]. intros Hg.
    apply in_or_app. apply assoc_in in A.
    destruct rel as [|m rel].
    + left. simpl in Hg. injection Hg as ->.
      apply in_map_iff. exists n. split; [reflexivity|].
      apply in_filenames. now exists c.
    + right. apply in_flat_map. exists (n, x). split; [exact A|].
      rewrite <- joinpath_app. rewrite Forall_forall in IH.
      apply (IH (n, x) A (root // n) (m :: rel) c); [discriminate | exact Hg].
Qed.

Lemma nodup_map_fst_filter (P : string * node -> bool) (es : entries) :
  NoDup (map fst es) -> NoDup (map fst (filter P es)).
Proof.
  induction es as [|[n x] es IH]; simpl; [trivial|].
  intros Hnd. apply NoDup_cons_iff in Hnd as [Hn Hnd].
  destruct (P (n, x)); simpl; [|now apply IH].
  constructor; [|now apply IH].
  intros Hin. apply Hn. apply in_map_iff in Hin as ([m y] & E & Hin).
  simpl in E. subst m. apply filter_In in Hin as [Hin _].
  change n with (fst (n, y)). now apply in_map.
Qed.

(** No path is gathered twice. *)
Lemma walk_files_nodup (t : node) : forall (root : path),
  wf t = true -> NoDup (walk_files (os_walk t root)).
Proof.
  induction t as [c|es IH] using node_induction; intros root Hwf.
  - constructor.
  - rewrite walk_files_dir. pose proof Hwf as Hwf'.
    apply wf_dir in Hwf as [Hnd Hall]. rewrite Forall_forall in IH.
    apply NoDup_app.
    + apply Injective_map_NoDup; [|now apply nodup_map_fst_filter].
      intros a b E. unfold joinpath in E. apply app_inv_head in E.
      now injection E.
    + clear Hwf'. induction es as [|[n x] es IHes]; [constructor|].
      simpl. apply NoDup_cons_iff in Hnd as [Hn Hnd].
      apply NoDup_app.
      * apply (IH (n, x)); [now left | apply (Hall n x); now left].
      * apply IHes; [|exact Hnd|].
        -- intros e He. apply IH. now right.
        -- intros m y Hin. apply (Hall m y). now right.
      * intros p Hp Hq. apply in_flat_map in Hq as ([m y] & Hy & Hq).
        assert (Wx : wf x = true) by (apply (Hall n x); now left).
        assert (Wy : wf y = true) by (apply (Hall m y); now right).
        destruct (walk_files_get x (root // n) p Wx Hp) as (r1 & _ & _ & E1 & _).
        destruct (walk_files_get y (root // m) p Wy Hq) as (r2 & _ & _ & E2 & _).
        rewrite E1 in E2. rewrite !joinpath_app in E2.
        apply app_inv_head in E2. injection E2 as -> _.
        apply Hn. apply in_map_iff. exists (m, y). now split.
    + intros p Hp Hq. apply in_map_iff in Hp as (n & <- & _).
      apply in_flat_map in Hq as ([m y] & Hy & Hq).
      destruct (walk_files_get y (root // m) _ (Hall m y Hy) Hq)
        as (r & _ & Hr & E & _).
      rewrite joinpath_app in E. unfold joinpath in E.
      apply app_inv_head in E. injection E as _ E.
      destruct r; [contradiction | discriminate].
Qed.

Lemma wf_get (p : path) : forall (t x : node),
  wf t = true -> get t p = Some x -> wf x = true.
Proof.
  induction p as [|n p IH]; intros t x Hwf; simpl.
  - intros H. now injection H as <-.
  - destruct t as [|es]; [discriminate|].
    destruct (assoc n es) as [y|] eqn:A; [|discriminate].
    apply IH. now apply (wf_assoc n y es).
Qed.

Lemma gather_get (t : node) (root p : path) :
  wf t = true -> In p (gather_files t root) ->
  exists rel c, rel <> [] /\ p = root ++ rel /\ get t p = Some (File c).
Proof.
  unfold gather_files. intros Hwf.
  destruct (get t root) as [x|] eqn:G; [|contradiction]. intros Hin.
  destruct (walk_files_get x root p (wf_get root t x Hwf G) Hin)
    as (rel & c & Hrel & -> & Hg).
  exists rel, c. repeat split; [exact Hrel|]. now rewrite get_app, G.
Qed.

Lemma gather_complete (t : node) (root rel : path) (c : string) :
  rel <> [] -> get t (root ++ rel) = Some (File c) ->
  In (root ++ rel) (gather_files t root).
Proof.
  unfold gather_files. intros Hrel. rewrite get_app.
  destruct (get t root) as [x|]; [|discriminate].
  now apply walk_files_complete.
Qed.

Lemma gather_nodup (t : node) (root : path) :
  wf t = true -> NoDup (gather_files t root).
Proof.
  unfold gather_files. intros Hwf.
  destruct (get t root) as [x|] eqn:G; [|constructor].
  apply walk_files_nodup. now apply (wf_get root t x).
Qed.

(* ----------------------------------------------------------------- *)
(** ** Moving the files of one name, one after the other *)

Lemma nth_name_inj (nm : string) (i j : nat) :
  nth_name nm i = nth_name nm j -> i = j.
Proof.
  destruct i as [|i], j as [|j]; simpl; intros H.
  - reflexivity.
  - symmetry in H. now apply candidate_neq in H.
  - now apply candidate_neq in H.
  - now apply candidate_inj in H.
Qed.

Lemma placed_names (nm : string) (pcs : list (path * string)) : forall j,
  map fst (placed nm j pcs) = map (nth_name nm) (seq j (List.length pcs)).
Proof.
  induction pcs as [|[p c0] pcs IH]; intros j; simpl; [reflexivity|].
  now rewrite IH.
Qed.

Lemma placed_snoc (nm : string) (pcs : list (path * string)) (p : path)
    (c0 : string) : forall j,
  placed nm j (pcs ++ [(p, c0)]) =
  placed nm j pcs ++ [(nth_name nm (j + List.length pcs), File c0)].
Proof.
  induction pcs as [|[q d] pcs IH]; intros j; simpl.
  - now rewrite Nat.add_0_r.
  - rewrite IH. now rewrite Nat.add_succ_r.
Qed.

Lemma firstn_S_nth {A : Type} (l : list A) (k : nat) (x : A) :
  nth_error l k = Some x -> firstn (S k) l = firstn k l ++ [x].
Proof.
  revert k; induction l as [|a l IH]; intros [|k] H; try discriminate.
  - simpl in H. now injection H as ->.
  - simpl in H. change (a :: firstn (S k) l = a :: (firstn k l ++ [x])).
    f_equal. now apply IH.
Qed.

Lemma is_prefix_shorter (d : path) (n : string) : is_prefix (d // n) d = false.
Proof.
  destruct (is_prefix (d // n) d) eqn:E; [|reflexivity].
  apply is_prefix_spec in E as [r E]. apply (f_equal (@List.length string)) in E.
  unfold joinpath in E. rewrite !length_app in E. simpl in E. lia.
Qed.

Section Sequential.

Variable denied : path -> bool.
Variables (source_ dest_ : path) (nm : string) (t0 : node).

Local Abbreviation ps := (gather_files t0 source_) (only parsing).

Hypothesis Hwf : wf t0 = true.
Hypothesis Hdest : get t0 dest_ = Some (Dir []).
Hypothesis Hapart : is_prefix source_ dest_ = false.
Hypothesis Hfiles : forall p, In p ps -> name p = nm /\ denied p = false.

Lemma gathered_file (p : path) :
  In p ps ->
  get t0 p = Some (File (content t0 p)) /\
  is_prefix dest_ p = false /\
  exists rel, rel <> [] /\ p = source_ ++ rel.
Proof.
  intros Hin. destruct (gather_get t0 source_ p Hwf Hin) as (rel & c0 & Hrel & E & G).
  split; [unfold content; now rewrite G|]. split; [|now exists rel].
  destruct (is_prefix dest_ p) eqn:Ep; [|reflexivity].
  apply is_prefix_spec in Ep as [r Ep]. rewrite Ep, get_app, Hdest in G.
  destruct r; discriminate.
Qed.

Lemma seq_inv_0 : seq_inv source_ dest_ nm t0 0 t0.
Proof.
  unfold seq_inv. split; [exact Hwf|]. split; [unfold is_dir; now rewrite Hdest|].
  split; [unfold listdir; now rewrite Hdest|]. split.
  - intros j p _ Hj. apply gathered_file. now apply nth_error_In in Hj.
  - intros rel c0 Hrel G. pose proof (gather_complete t0 source_ rel c0 Hrel G) as Hin.
    apply In_nth_error in Hin as [j Hj]. exists j. split; [lia | exact Hj].
Qed.

Lemma length_contents (t : node) (l : list path) :
  List.length (contents t l) = List.length l.
Proof. apply length_map. Qed.

(** The names taken in the destination after [k] moves. *)
Lemma seq_inv_names (k : nat) (t : node) (n : string) :
  seq_inv source_ dest_ nm t0 k t -> k <= List.length ps ->
  (exists_ t (dest_ // n) = true <-> exists j, j < k /\ n = nth_name nm j).
Proof.
  intros (_ & _ & Hl & _) Hk. rewrite exists_join, Hl, placed_names.
  rewrite length_firstn, length_contents, Nat.min_l by exact Hk.
  rewrite in_map_iff. split.
  - intros (j & <- & Hj). apply in_seq in Hj. exists j. split; [lia | reflexivity].
  - intros (j & Hj & ->). exists j. split; [reflexivity | apply in_seq; lia].
Qed.

(** The probe settles on the next name in line. *)
Lemma resolve_next (k : nat) (t : node) (p : path) :
  seq_inv source_ dest_ nm t0 k t -> nth_error ps k = Some p ->
  resolve t p dest_ = Some (dest_ // nth_name nm k) /\
  exists_ t (dest_ // nth_name nm k) = false.
Proof.
  intros Hinv Hp. pose proof (nth_error_lt _ _ _ Hp) as Hk.
  assert (Hnm : name p = nm) by (apply Hfiles; now apply nth_error_In in Hp).
  assert (Hnames := fun n => seq_inv_names k t n Hinv (Nat.lt_le_incl _ _ Hk)).
  assert (Hfree : exists_ t (dest_ // nth_name nm k) = false).
  { destruct (exists_ t (dest_ // nth_name nm k)) eqn:E; [|reflexivity].
    apply Hnames in E as (j & Hj & E). apply nth_name_inj in E. lia. }
  split; [|exact Hfree].
  destruct (resolve_cases t p dest_) as (Hno & Hyes).
  rewrite Hnm in Hno, Hyes. destruct k as [|k].
  - now apply Hno.
  - assert (E0 : exists_ t (dest_ // nm) = true).
    { apply Hnames. exists 0. split; [lia | reflexivity]. }
    destruct (Hyes E0) as (i & Hi & Hr & Hfi & Hbusy). rewrite Hr.
    destruct (Nat.lt_trichotomy i (S k)) as [L|[->|L]].
    + assert (E : exists_ t (dest_ // nth_name nm i) = true).
      { apply Hnames. exists i. split; [exact L | reflexivity]. }
      destruct i as [|i]; [lia|].
      change (nth_name nm (S i)) with (candidate (stem nm) (suffix nm) (S i)) in E.
      congruence.
    + reflexivity.
    + change (nth_name nm (S k)) with (candidate (stem nm) (suffix nm) (S k))
        in Hfree.
      rewrite (Hbusy (S k)) in Hfree by lia. discriminate.
Qed.

(** One more move. *)
Lemma seq_inv_step (k : nat) (t : node) (p : path) :
  NoDup ps ->
  seq_inv source_ dest_ nm t0 k t -> nth_error ps k = Some p ->
  exists t2,
    shutil_move denied t p (dest_ // nth_name nm k) = Ok t2 /\
    seq_inv source_ dest_ nm t0 (S k) t2.
Proof.
  intros Hnd Hinv Hp. pose proof (nth_error_lt _ _ _ Hp) as Hk.
  destruct (resolve_next k t p Hinv Hp) as [_ Hfree].
  destruct Hinv as (Hw & Hd & Hl & Hrest & Hsrc).
  pose proof (nth_error_In _ _ Hp) as Hin.
  destruct (Hfiles p Hin) as [_ Hden].
  destruct (gathered_file p Hin) as (_ & Hdp & _).
  pose proof (Hrest k p (le_n k) Hp) as Hgp.
  set (n := nth_name nm k) in *. set (cp := content t0 p) in *.
  destruct (shutil_move_file denied t p dest_ n cp Hgp Hden Hd Hfree)
    as (t1 & t2 & U1 & U2 & Hmv).
  exists t2. split; [exact Hmv|].
  (* the paths involved lie apart *)
  assert (Hpd : is_prefix p dest_ = false).
  { destruct (is_prefix p dest_) eqn:E; [|reflexivity].
    unfold is_dir in Hd. destruct (get t dest_) as [[|es]|] eqn:G; try discriminate.
    pose proof (get_below_file t p dest_ cp _ Hgp E G). congruence. }
  assert (Hnp : is_prefix (dest_ // n) p = false).
  { destruct (is_prefix (dest_ // n) p) eqn:E; [|reflexivity].
    apply is_prefix_join_l in E. congruence. }
  assert (Hsn : is_prefix source_ (dest_ // n) = false).
  { destruct (is_prefix source_ (dest_ // n)) eqn:E; [|reflexivity].
    apply is_prefix_join_r in E as [E|E]; [|congruence].
    destruct (gathered_file p Hin) as (_ & _ & rel & _ & Erel).
    rewrite <- E, Erel, is_prefix_app in Hnp. discriminate. }
  assert (Hd1 : is_dir t1 dest_ = true)
    by (apply (is_dir_update p dest_ t t1 None U1 Hpd Hd)).
  assert (G1 : get t1 dest_ = get t dest_)
    by (apply (get_update_apart p t t1 None dest_ U1 Hpd Hdp)).
  unfold seq_inv. repeat split.
  - apply (wf_update (dest_ // n) t1 t2 (Some (File cp))); [| |exact U2].
    + apply (wf_update p t t1 None Hw); [discriminate | exact U1].
    + intros x E. now injection E as <-.
  - apply (is_dir_update _ dest_ t1 t2 _ U2); [apply is_prefix_shorter | exact Hd1].
  - destruct (get_update_above dest_ t1 t2 (Some (File cp)) [n]
                ltac:(discriminate) U2) as (s1 & s2 & Gs & Us & Gs2).
    unfold listdir in *. rewrite Gs2. rewrite G1 in Gs.
    rewrite Gs in Hl. destruct s1 as [|es]; [discriminate|].
    simpl in Us. injection Us as <-.
    assert (A : assoc n es = None).
    { unfold exists_ in Hfree. rewrite get_join in Hfree.
      unfold listdir in Hfree. rewrite Gs in Hfree.
      now destruct (assoc n es). }
    rewrite (aset_absent n _ es A), Hl.
    assert (Hc : nth_error (contents t0 ps) k = Some (p, cp)).
    { unfold contents. rewrite nth_error_map, Hp. reflexivity. }
    rewrite (firstn_S_nth _ k _ Hc), placed_snoc.
    rewrite length_firstn, length_contents, Nat.min_l by lia. reflexivity.
  - intros j q Hj Hq.
    assert (Hgq : get t q = Some (File (content t0 q))) by (apply (Hrest j q); [lia | exact Hq]).
    assert (Hqp : q <> p).
    { intros ->. pose proof (proj1 (NoDup_nth_error ps) Hnd k j Hk) as Hkj.
      rewrite Hp, Hq in Hkj. specialize (Hkj eq_refl). lia. }
    assert (A1 : is_prefix p q = false).
    { destruct (is_prefix p q) eqn:E; [|reflexivity].
      now pose proof (get_below_file t p q cp _ Hgp E Hgq). }
    assert (A2 : is_prefix q p = false).
    { destruct (is_prefix q p) eqn:E; [|reflexivity].
      pose proof (get_below_file t q p _ _ Hgq E Hgp). congruence. }
    destruct (gathered_file q (nth_error_In _ _ Hq)) as (_ & Hdq & _).
    assert (A3 : is_prefix (dest_ // n) q = false).
    { destruct (is_prefix (dest_ // n) q) eqn:E; [|reflexivity].
      apply is_prefix_join_l in E. congruence. }
    assert (A4 : is_prefix q (dest_ // n) = false).
    { destruct (is_prefix q (dest_ // n)) eqn:E; [|reflexivity].
      apply is_prefix_join_r in E as [E|E].
      - unfold exists_ in Hfree. rewrite <- E, Hgq in Hfree. discriminate.
      - unfold is_dir in Hd.
        destruct (get t dest_) as [[|es]|] eqn:G; try discriminate.
        pose proof (get_below_file t q dest_ _ _ Hgq E G). congruence. }
    rewrite (get_update_apart _ t1 t2 _ q U2 A3 A4).
    now rewrite (get_update_apart _ t t1 _ q U1 A1 A2).
  - intros rel c0 Hrel G.
    destruct (get_file_update _ _ _ _ _ _ U2 G)
      as [(r & x & E & Ex & Gx)|[Hnq G']].
    + exfalso. injection Ex as <-. destruct r; [|discriminate Gx].
      rewrite app_nil_r in E. rewrite <- E, is_prefix_app in Hsn. discriminate.
    + destruct (get_file_update _ _ _ _ _ _ U1 G')
        as [(r & x & _ & Ex & _)|[Hpq G'']]; [discriminate|].
      destruct (Hsrc rel c0 Hrel G'') as (j & Hj & Hq). exists j. split; [|exact Hq].
      destruct (Nat.eq_dec j k) as [->|]; [|lia].
      rewrite Hp in Hq. injection Hq as ->. rewrite is_prefix_refl in Hpq. discriminate.
Qed.

End Sequential.

(* ----------------------------------------------------------------- *)
(** ** One worker: every schedule moves the files in order *)

Lemma map_fst_set_status (i : nat) (st : status) (l : list future) :
  map fst (set_status i st l) = map fst l.
Proof.
  revert i; induction l as [|[src o] l IH]; intros [|i]; simpl;
    try reflexivity. now rewrite IH.
Qed.

Lemma skipn_cons_nth {A : Type} (l r : list A) (m : nat) (x : A) :
  skipn m l = x :: r -> nth_error l m = Some x /\ skipn (S m) l = r.
Proof.
  revert m; induction l as [|a l IH]; intros [|m]; simpl; try discriminate.
  - intros H. injection H as -> ->. now split.
  - apply IH.
Qed.

Lemma nth_error_set_status (i j : nat) (st : status) (l : list future)
    (src : path) (o : status) :
  nth_error (set_status i st l) j = Some (src, o) ->
  (j = i /\ o = st /\ exists o', nth_error l i = Some (src, o')) \/
  (j <> i /\ nth_error l j = Some (src, o)).
Proof.
  destruct (Nat.eq_dec j i) as [->|Hne].
  - intros H. left. split; [reflexivity|].
    destruct (nth_error l i) as [[s o']|] eqn:N.
    + rewrite (nth_set_status_same i st o' s l N) in H. injection H as <- <-.
      split; [reflexivity | now exists o'].
    + apply nth_error_lt in H. rewrite length_set_status in H.
      apply nth_error_None in N. lia.
  - rewrite nth_set_status_other by exact Hne. intros H. now right.
Qed.

Section OneWorker.

Variable denied : path -> bool.
Variable c : config.
Variable nm : string.
Variable fs0 : node.

Local Abbreviation ps := (gather_files fs0 (source c)) (only parsing).

Hypothesis Hone : max_workers c = 1%Z.
Hypothesis Hdry : dry_run c = false.
Hypothesis Hwf : wf fs0 = true.
Hypothesis Hdest : get fs0 (dest c) = Some (Dir []).
Hypothesis Hapart : is_prefix (source c) (dest c) = false.
Hypothesis Hfiles : forall p, In p ps -> name p = nm /\ denied p = false.

Lemma pool_src (l : list future) (j : nat) (src : path) (st : status) :
  map fst l = firstn (List.length l) ps ->
  nth_error l j = Some (src, st) -> nth_error ps j = Some src.
Proof.
  intros Hm Hj. pose proof (nth_error_lt _ _ _ Hj) as L.
  assert (E : nth_error (map fst l) j = Some src)
    by exact (map_nth_error fst j l Hj).
  rewrite Hm, nth_error_firstn in E.
  destruct (Nat.ltb_spec j (List.length l)); [exact E | lia].
Qed.

Lemma pool_length (l : list future) :
  map fst l = firstn (List.length l) ps -> List.length l <= List.length ps.
Proof.
  intros Hm. apply (f_equal (@List.length path)) in Hm.
  rewrite length_map, length_firstn in Hm. lia.
Qed.

Lemma ow_start : ow_inv c nm fs0 (start c fs0).
Proof.
  assert (S0 := seq_inv_0 (source c) (dest c) nm fs0 Hwf Hdest).
  unfold start. destruct (exists_ fs0 (source c)) eqn:E; simpl.
  - rewrite mkdir_existing by (unfold is_dir; now rewrite Hdest).
    rewrite Hone. simpl. exists 0. simpl.
    split; [lia|]. split; [reflexivity|]. split; [|split; [exact S0 | reflexivity]].
    intros [|j] src st; discriminate.
  - assert (Hps : ps = []).
    { unfold gather_files. unfold exists_ in E.
      now destruct (get fs0 (source c)). }
    exists 0. simpl. rewrite Hps.
    split; [lia|]. split; [reflexivity|]. split; [|split; [exact S0 | reflexivity]].
    intros [|j] src st; discriminate.
Qed.

Lemma status_ok_not_failed (k j : nat) (e : exn) : ~ status_ok c nm k j (Done (Err e)).
Proof.
  intros (H1 & H2 & H3). destruct (Nat.lt_trichotomy j k) as [L|[L|L]].
  - specialize (H1 L). discriminate.
  - destruct (H2 L) as [H|[H|H]]; discriminate.
  - specialize (H3 L). discriminate.
Qed.

Lemma ow_main_step (s s' : state) :
  main_step c s = Some s' -> ow_inv c nm fs0 s -> ow_inv c nm fs0 s'.
Proof.
  unfold main_step, ow_inv. destruct s as [t o pl a]. simpl.
  destruct a as [[|f rest] futs|rest [|? ?]|[|? ?]|r|r]; try discriminate.
  - intros H (k & Hk & Hm & Hst & Hseq & Hpc). injection H as <-. simpl.
    exists k. split; [exact Hk|]. split; [exact Hm|]. split; [exact Hst|].
    split; [exact Hseq|]. simpl.
    pose proof (pool_length pl Hm) as L. simpl in Hpc. symmetry in Hpc.
    apply skipn_all_iff in Hpc. lia.
  - rewrite Hdry.
    assert (K : (exists k, k <= List.length pl /\
                   map fst pl = firstn (List.length pl) ps /\
                   (forall j src st, nth_error pl j = Some (src, st) ->
                                     status_ok c nm k j st) /\
                   seq_inv (source c) (dest c) nm fs0 k t /\
                   f :: rest = skipn (List.length pl) ps) ->
                exists k, k <= List.length (pl ++ [(f, Queued)]) /\
                   map fst (pl ++ [(f, Queued)]) =
                     firstn (List.length (pl ++ [(f, Queued)])) ps /\
                   (forall j src st,
                      nth_error (pl ++ [(f, Queued)]) j = Some (src, st) ->
                      status_ok c nm k j st) /\
                   seq_inv (source c) (dest c) nm fs0 k t /\
                   rest = skipn (List.length (pl ++ [(f, Queued)])) ps).
    { intros (k & Hk & Hm & Hst & Hseq & Hpc). exists k.
      symmetry in Hpc. apply skipn_cons_nth in Hpc as [Hf Hr].
      rewrite length_app. simpl. rewrite Nat.add_1_r.
      split; [lia|]. split.
      - rewrite map_app, (firstn_S_nth ps _ f Hf), Hm. reflexivity.
      - split; [|split; [exact Hseq | now symmetry]].
        intros j src st Hj.
        destruct (Nat.lt_ge_cases j (List.length pl)) as [Hlt|Hge].
        + rewrite nth_error_app1 in Hj by exact Hlt. now apply (Hst j src).
        + assert (j = List.length pl).
          { apply nth_error_lt in Hj. rewrite length_app in Hj. simpl in Hj. lia. }
          subst j. rewrite nth_error_app2, Nat.sub_diag in Hj by lia.
          injection Hj as <- <-. unfold status_ok.
          split; [lia|]. split; [tauto | reflexivity]. }
    destruct (_ >=? _)%Z; intros H Hinv; injection H as <-; simpl;
      apply K; exact Hinv.
  - intros H Hinv. injection H as <-. exact Hinv.
  - intros H Hinv. injection H as <-. exact Hinv.
  - destruct (forallb is_done pl); [|discriminate].
    destruct r as [e|]; intros H (k & Hk & Hm & Hst & Hseq & Hpc);
      [contradiction|]. injection H as <-. simpl. exists k. tauto.
Qed.

Lemma ow_yield_step (i : nat) (s s' : state) :
  yield_step i s = Some s' -> ow_inv c nm fs0 s -> ow_inv c nm fs0 s'.
Proof.
  unfold yield_step, ow_inv. destruct s as [t o pl a]. simpl.
  destruct a as [? ?|rest w|w|r|r]; try discriminate;
    (destruct (existsb (Nat.eqb i) w); [|discriminate]);
    destruct (nth_error pl i) as [[src [| | |[d|e]]]|] eqn:N; try discriminate;
    intros H (k & Hk & Hm & Hst & Hseq & Hpc); injection H as <-; simpl;
    try (exists k; tauto);
    exfalso; apply (status_ok_not_failed k i e); now apply (Hst i src).
Qed.

(** What the [k]-th future may stand at. *)
Lemma status_ok_at (k j : nat) (st : status) :
  status_ok c nm k j st -> st <> Queued -> (forall r, st <> Done r) -> j = k.
Proof.
  intros (H1 & H2 & H3) Hq Hd. destruct (Nat.lt_trichotomy j k) as [L|[L|L]].
  - now destruct (Hd _ (H1 L)).
  - exact L.
  - now destruct (Hq (H3 L)).
Qed.

(** Rewriting the [k]-th future. *)
Lemma status_ok_set (k k' : nat) (st' : status) (l : list future) :
  (forall j src st, nth_error l j = Some (src, st) -> status_ok c nm k j st) ->
  status_ok c nm k' k st' ->
  (forall j st, j <> k -> status_ok c nm k j st -> status_ok c nm k' j st) ->
  forall j src st,
    nth_error (set_status k st' l) j = Some (src, st) -> status_ok c nm k' j st.
Proof.
  intros Hst Hk Hother j src st Hj.
  apply nth_error_set_status in Hj as [[Ej [Es _]]|[Hne Hj]].
  - subst j st. exact Hk.
  - apply Hother; [exact Hne | now apply (Hst j src)].
Qed.

Lemma ow_take_step (s s' : state) :
  step denied c Take s = Some s' -> ow_inv c nm fs0 s -> ow_inv c nm fs0 s'.
Proof.
  simpl. destruct (Z.ltb_spec (Z.of_nat (List.length (filter is_running (pool s))))
                     (max_workers c)) as [W|]; [|discriminate].
  destruct (take (pool s)) as [pl'|] eqn:T; [|discriminate].
  intros H (k & Hk & Hm & Hst & Hseq & Hpc). injection H as <-. simpl.
  destruct (take_spec _ _ T) as (i & src & Hi & -> & Hfirst).
  assert (Hidle : forall f, In f (pool s) -> is_running f = false).
  { intros f Hf. destruct (is_running f) eqn:R; [|reflexivity].
    assert (Hin : In f (filter is_running (pool s))) by (apply filter_In; now split).
    destruct (filter is_running (pool s)); [contradiction|].
    simpl in W. lia. }
  assert (Hik : i = k).
  { pose proof (Hst i src Queued Hi) as (H1 & _ & _).
    destruct (Nat.lt_trichotomy i k) as [L|[L|L]]; [|exact L|].
    - specialize (H1 L). discriminate.
    - exfalso. pose proof (nth_error_lt _ _ _ Hi) as Li.
      destruct (nth_error (pool s) k) as [[sk stk]|] eqn:Nk;
        [|apply nth_error_None in Nk; lia].
      destruct (Hst k sk stk Nk) as (_ & H2 & _).
      destruct (H2 eq_refl) as [-> | [-> | ->]].
      + now apply (Hfirst k (sk, Queued) L Nk).
      + pose proof (Hidle _ (nth_error_In _ _ Nk)). discriminate.
      + pose proof (Hidle _ (nth_error_In _ _ Nk)). discriminate. }
  subst i. exists k. simpl. rewrite length_set_status, map_fst_set_status.
  split; [exact Hk|]. split; [exact Hm|]. split; [|split; [exact Hseq | exact Hpc]].
  apply (status_ok_set k k Started (pool s) Hst).
  - unfold status_ok. split; [lia|]. split; [tauto | lia].
  - tauto.
Qed.

Lemma ow_probe_step (i : nat) (s s' : state) :
  step denied c (Probe i) s = Some s' -> ow_inv c nm fs0 s -> ow_inv c nm fs0 s'.
Proof.
  simpl. destruct (nth_error (pool s) i) as [[src [| | |]]|] eqn:N;
    try discriminate.
  destruct (resolve (fs s) src (dest c)) as [d|] eqn:R; [|discriminate].
  intros H (k & Hk & Hm & Hst & Hseq & Hpc). injection H as <-. simpl.
  assert (Hik : i = k).
  { apply (status_ok_at k i Started (Hst i src _ N)); intros; discriminate. }
  subst i. pose proof (pool_src _ _ _ _ Hm N) as Hp.
  destruct (resolve_next denied (source c) (dest c) nm fs0 Hfiles
              k (fs s) src Hseq Hp) as [Hr _].
  rewrite Hr in R. injection R as <-.
  exists k. simpl. rewrite length_set_status, map_fst_set_status.
  split; [exact Hk|]. split; [exact Hm|]. split; [|split; [exact Hseq | exact Hpc]].
  apply (status_ok_set k k _ (pool s) Hst).
  - unfold status_ok. split; [lia|]. split; [tauto | lia].
  - tauto.
Qed.

Lemma ow_move_step (i : nat) (s s' : state) :
  step denied c (Move i) s = Some s' -> ow_inv c nm fs0 s -> ow_inv c nm fs0 s'.
Proof.
  simpl. destruct (nth_error (pool s) i) as [[src [| |d|]]|] eqn:N;
    try discriminate.
  intros H (k & Hk & Hm & Hst & Hseq & Hpc).
  assert (Hik : i = k).
  { apply (status_ok_at k i _ (Hst i src _ N)); intros; discriminate. }
  subst i. pose proof (pool_src _ _ _ _ Hm N) as Hp.
  assert (Hd : d = dest c // nth_name nm k).
  { destruct (Hst k src _ N) as (_ & H2 & _).
    destruct (H2 eq_refl) as [E|[E|E]]; try discriminate. now injection E. }
  subst d.
  destruct (seq_inv_step denied (source c) (dest c) nm fs0 Hwf Hdest Hapart
              Hfiles k (fs s) src (gather_nodup fs0 (source c) Hwf) Hseq Hp)
    as (t2 & Hmv & Hseq2).
  rewrite Hmv in H. injection H as <-. simpl.
  exists (S k). simpl. rewrite length_set_status, map_fst_set_status.
  split; [apply nth_error_lt in N; lia|]. split; [exact Hm|].
  split; [|split; [exact Hseq2 | exact Hpc]].
  apply (status_ok_set k (S k) _ (pool s) Hst).
  - unfold status_ok. split; [reflexivity|]. split; lia.
  - intros j st Hj (H1 & H2 & H3). unfold status_ok.
    split; [intros L; apply H1; lia|]. split.
    + intros ->. left. apply H3. lia.
    + intros L. apply H3. lia.
Qed.

Lemma ow_step (l : label) (s s' : state) :
  step denied c l s = Some s' -> ow_inv c nm fs0 s -> ow_inv c nm fs0 s'.
Proof.
  destruct l as [|i|  |i|i].
  - apply ow_main_step.
  - apply ow_yield_step.
  - apply ow_take_step.
  - apply ow_probe_step.
  - apply ow_move_step.
Qed.

Lemma ow_run (tr : list label) : forall (s s' : state),
  run denied c tr s = Some s' -> ow_inv c nm fs0 s -> ow_inv c nm fs0 s'.
Proof.
  induction tr as [|l tr IH]; intros s s'; simpl.
  - intros H. now injection H as <-.
  - destruct (step denied c l s) as [s1|] eqn:E; [|discriminate].
    intros H Hinv. apply (IH s1 s' H). now apply (ow_step l s s1).
Qed.

(** When [main] has ended, every gathered file has been moved. *)
Lemma ow_finished (s : state) (r : option exn) :
  ow_inv c nm fs0 s -> inv_pc c s -> at_ s = Finished r ->
  r = None /\
  listdir (fs s) (dest c) = placed nm 0 (contents fs0 ps) /\
  gather_files (fs s) (source c) = [].
Proof.
  intros (k & Hk & Hm & Hst & Hseq & Hpc) Hinv A.
  unfold inv_pc in Hinv. rewrite A in *. simpl in Hpc.
  destruct r as [e|]; [contradiction|]. split; [reflexivity|].
  assert (Ek : k = List.length ps).
  { rewrite <- Hpc. apply Nat.le_antisymm; [exact Hk|].
    apply Nat.nlt_ge. intros L. apply nth_error_Some in L.
    destruct (nth_error (pool s) k) as [[src st]|] eqn:N; [|contradiction].
    pose proof (Hinv _ (nth_error_In _ _ N)) as Hs.
    destruct (Hst k src st N) as (_ & H2 & _).
    destruct (H2 eq_refl) as [-> | [-> | ->]]; discriminate. }
  subst k. destruct Hseq as (Hw & _ & Hl & _ & Hsrc). split.
  - rewrite Hl. f_equal. apply firstn_all2. unfold contents.
    now rewrite length_map.
  - destruct (gather_files (fs s) (source c)) as [|p l] eqn:G; [reflexivity|].
    exfalso.
    destruct (gather_get (fs s) (source c) p Hw) as (rel & c0 & Hrel & E & Hg);
      [rewrite G; now left|].
    rewrite E in Hg. destruct (Hsrc rel c0 Hrel Hg) as (j & Hj & Hn).
    apply nth_error_lt in Hn. lia.
Qed.

End OneWorker.

(** C5, as the code has it, for one worker thread.  Let the files gathered
    under the source all be called [nm], in a file system where no
    directory lists a name twice, with an existing, empty destination
    directory that does not lie in the source tree, and no move refused.
    Then [main] can run to its end, and however the main thread and the
    worker interleave, it returns normally; the destination then lists
    exactly one entry per gathered file, in the order they were gathered:
    [nm] with the content of the first, ["{stem} (j){suffix}"] with the
    content of the [j+1]-th; and nothing is left to gather under the
    source. *)
Theorem one_worker_moves_all (denied : path -> bool) (c : config)
    (nm : string) (fs0 : node) :
  max_workers c = 1%Z ->
  dry_run c = false ->
  wf fs0 = true ->
  get fs0 (dest c) = Some (Dir []) ->
  is_prefix (source c) (dest c) = false ->
  (forall p, In p (gather_files fs0 (source c)) ->
             name p = nm /\ denied p = false) ->
  (exists tr s,
     run denied c tr (start c fs0) = Some s /\ at_ s = Finished None) /\
  forall tr s r,
    run denied c tr (start c fs0) = Some s -> at_ s = Finished r ->
    r = None /\
    listdir (fs s) (dest c) =
      placed nm 0 (contents fs0 (gather_files fs0 (source c))) /\
    gather_files (fs s) (source c) = [].
Proof.
  intros Hone Hdry Hwf Hdest Hapart Hfiles.
  assert (Hall : forall tr s r,
             run denied c tr (start c fs0) = Some s -> at_ s = Finished r ->
             r = None /\
             listdir (fs s) (dest c) =
               placed nm 0 (contents fs0 (gather_files fs0 (source c))) /\
             gather_files (fs s) (source c) = []).
  { intros tr s r R A.
    destruct (reach_inv denied c fs0 tr s R) as [Hpc _].
    apply (ow_finished c nm fs0 s r); [|exact Hpc | exact A].
    apply (ow_run denied c nm fs0 Hone Hdry Hwf Hdest Hapart Hfiles tr _ s R).
    now apply ow_start. }
  split; [|exact Hall].
  destruct (completes denied c fs0 (weight (start c fs0)) (start c fs0)
              (le_n _) (inv_pc_start c fs0) (inv_out_start c fs0))
    as (tr & s & r & R & A).
  exists tr, s. split; [exact R|].
  destruct (Hall tr s r R A) as [-> _]. exact A.
Qed.

Example ex_run_race :
  run nothing_denied ex_config_two ex_trace_race
    (start ex_config_two ex_tree_same)
  = Some ex_state_race.
Proof. vm_compute. reflexivity. Qed.

Lemma ex_same_names (p : path) :
  In p (gather_files ex_tree_same ["s"]) ->
  name p = "a.txt" /\ nothing_denied p = false.
Proof. intros [<-|[<-|[]]]; split; reflexivity. Qed.

(** C5, as stated, fails with two workers: of two files called [a.txt]
    the destination holds one when [main] has ended, the second move
    having replaced what the first had put there. *)
Lemma race_loses_a_file :
  ~ (forall denied c nm fs0 tr s r,
       dry_run c = false ->
       wf fs0 = true ->
       get fs0 (dest c) = Some (Dir []) ->
       is_prefix (source c) (dest c) = false ->
       (forall p, In p (gather_files fs0 (source c)) ->
                  name p = nm /\ denied p = false) ->
       run denied c tr (start c fs0) = Some s -> at_ s = Finished r ->
       List.length (listdir (fs s) (dest c)) =
       List.length (gather_files fs0 (source c))).
Proof.
  intros H.
  specialize (H nothing_denied ex_config_two "a.txt" ex_tree_same
                ex_trace_race ex_state_race None
                eq_refl eq_refl eq_refl eq_refl ex_same_names
                ex_run_race eq_refl).
  vm_compute in H. discriminate H.
Qed.

Example ex_run_one :
  run nothing_denied ex_config_one ex_trace_one
    (start ex_config_one ex_tree_same)
  = Some ex_state_one.
Proof. vm_compute. reflexivity. Qed.

Lemma one_worker_moves_all_witness :
  listdir (fs ex_state_one) ["d"] =
    placed "a.txt" 0 [(["s"; "x"; "a.txt"], "1"); (["s"; "y"; "a.txt"], "2")] /\
  gather_files (fs ex_state_one) ["s"] = [].
Proof.
  destruct (one_worker_moves_all nothing_denied ex_config_one "a.txt"
              ex_tree_same eq_refl eq_refl eq_refl eq_refl eq_refl
              ex_same_names) as [_ H].
  destruct (H ex_trace_one ex_state_one None ex_run_one eq_refl) as (_ & H1 & H2).
  split; [exact H1 | exact H2].
Defined.

(* ================================================================= *)
(** * Further properties of the code *)

(* ----------------------------------------------------------------- *)
(** ** Candidate names (line 19) *)

(** X1.  The names line 19 builds for one file never clash: different
    counters give different names, and no candidate is the name it was
    built from; each is longer than it by the digits of the counter and
    three characters more. *)
Theorem candidates_never_clash (nm : string) (i j : nat) :
  (candidate (stem nm) (suffix nm) i = candidate (stem nm) (suffix nm) j ->
   i = j) /\
  candidate (stem nm) (suffix nm) i <> nm /\
  String.length (candidate (stem nm) (suffix nm) i) =
  String.length nm + String.length (str_of_int i) + 3.
Proof.
  split; [apply candidate_inj|]. split; [apply candidate_neq|].
  rewrite length_candidate, <- length_append, stem_suffix. reflexivity.
Qed.

(* ----------------------------------------------------------------- *)
(** ** [gather_files] (lines 28-33) *)



Lemma flat_map_ext_in {A B : Type} (f g : A -> list B) (l : list A) :
  (forall a, In a l -> f a = g a) -> flat_map f l = flat_map g l.
Proof.
  induction l as [|a l IH]; intros H; simpl; [reflexivity|].
  rewrite (H a) by now left. f_equal. apply IH. intros b Hb. apply H. now right.
Qed.

(** X3.  The order of [gather_files] is that of a top-down walk: the files
    of a directory in directory-read order, then what is gathered from
    each of its entries in that order; and nothing is gathered from a
    root that is missing or a regular file. *)
Theorem gather_files_top_down (t : node) (root : path) :
  wf t = true ->
  (forall es, get t root = Some (Dir es) ->
     gather_files t root =
     map (fun f => root // f) (filenames es) ++
     flat_map (fun e : string * node => gather_files t (root // fst e)) es) /\
  (get t root = None -> gather_files t root = []) /\
  (forall c, get t root = Some (File c) -> gather_files t root = []).
Proof.
  intros Hwf. split; [|split].
  - intros es G. unfold gather_files at 1. rewrite G, walk_files_dir. f_equal.
    apply flat_map_ext_in. intros [n x] Hin. simpl.
    assert (Hd : wf (Dir es) = true) by (apply (wf_get root t _ Hwf G)).
    apply wf_dir in Hd as [Hnd _].
    unfold gather_files. rewrite get_join. unfold listdir. rewrite G.
    now rewrite (assoc_nodup n x es Hnd Hin).
  - intros G. unfold gather_files. now rewrite G.
  - intros c G. unfold gather_files. now rewrite G.
Qed.

Lemma gather_files_top_down_witness :
  gather_files ex_tree_taken ["s"] = [["s"; ".gitignore"]; ["s"; "a.txt"]] /\
  gather_files ex_tree_taken ["s"; "a.txt"] = [].
Proof.
  destruct (gather_files_top_down ex_tree_taken ["s"] eq_refl) as (H1 & _ & _).
  destruct (gather_files_top_down ex_tree_taken ["s"; "a.txt"] eq_refl)
    as (_ & _ & H3).
  split.
  - rewrite (H1 _ eq_refl). reflexivity.
  - apply (H3 "a"). reflexivity.
Defined.

(* ----------------------------------------------------------------- *)
(** ** [move_file] (lines 7-26) as one uninterrupted call *)

Lemma exists_prefix (t : node) (p q : path) :
  is_prefix p q = true -> exists_ t q = true -> exists_ t p = true.
Proof.
  intros Hp Hq. apply is_prefix_spec in Hp as [r ->].
  unfold exists_ in *. rewrite get_app in Hq. now destruct (get t p).
Qed.

Lemma resolve_in_dir (t : node) (src dest_dir : path) :
  exists n, resolve t src dest_dir = Some (dest_dir // n) /\
            exists_ t (dest_dir // n) = false.
Proof.
  destruct (resolve_cases t src dest_dir) as [H0 H1].
  destruct (exists_ t (dest_dir // name src)) eqn:E.
  - destruct (H1 eq_refl) as (i & _ & R & F & _). eauto.
  - exists (name src). split; [now apply H0 | exact E].
Qed.

Lemma shutil_move_frame (denied : path -> bool) (t : node) (src d : path)
    (n c : string) :
  get t src = Some (File c) ->
  denied src = false ->
  is_dir t d = true ->
  exists_ t (d // n) = false ->
  exists t2,
    shutil_move denied t src (d // n) = Ok t2 /\
    get t2 (d // n) = Some (File c) /\
    get t2 src = None /\
    (forall q x, q <> src -> get t q = Some (File x) ->
                 get t2 q = Some (File x)) /\
    (forall q x, get t2 q = Some (File x) ->
                 q = d // n \/ (q <> src /\ get t q = Some (File x))) /\
    (forall q, is_prefix (d // n) q = false -> is_prefix q (d // n) = false ->
               is_prefix src q = false -> is_prefix q src = false ->
               get t2 q = get t q) /\
    (forall q, is_dir t q = true -> is_dir t2 q = true) /\
    (wf t = true -> wf t2 = true).
Proof.
  intros Hsrc Hden Hd Hfree.
  destruct (shutil_move_file denied t src d n c Hsrc Hden Hd Hfree)
    as (t1 & t2 & U1 & U2 & Hmv).
  exists t2.
  assert (Below : forall q, exists_ t q = true ->
                            is_prefix (d // n) q = false).
  { intros q Hq. destruct (is_prefix (d // n) q) eqn:E; [|reflexivity].
    pose proof (exists_prefix t _ _ E Hq). congruence. }
  assert (Above : forall q x, get t q = Some (File x) ->
                              is_prefix q (d // n) = false).
  { intros q x Hq. destruct (is_prefix q (d // n)) eqn:E; [|reflexivity].
    apply is_prefix_join_r in E as [E|E].
    - unfold exists_ in Hfree. rewrite <- E, Hq in Hfree. discriminate.
    - unfold is_dir in Hd.
      destruct (get t d) as [[|es]|] eqn:G; try discriminate.
      pose proof (get_below_file t q d _ _ Hq E G). congruence. }
  split; [exact Hmv|]. split; [|split; [|split; [|split; [|split; [|split]]]]].
  - apply (get_update_same _ t1 t2 _ U2).
  - rewrite (get_update_apart _ t1 t2 _ src U2).
    + apply (get_update_same _ t t1 _ U1).
    + apply Below. unfold exists_. now rewrite Hsrc.
    + apply (Above src c Hsrc).
  - intros q x Hq Gq.
    assert (A1 : is_prefix src q = false).
    { destruct (is_prefix src q) eqn:E; [|reflexivity].
      now pose proof (get_below_file t src q c _ Hsrc E Gq). }
    assert (A2 : is_prefix q src = false).
    { destruct (is_prefix q src) eqn:E; [|reflexivity].
      pose proof (get_below_file t q src _ _ Gq E Hsrc). congruence. }
    rewrite (get_update_apart _ t1 t2 _ q U2).
    + now rewrite (get_update_apart _ t t1 _ q U1 A1 A2).
    + apply Below. unfold exists_. now rewrite Gq.
    + apply (Above q x Gq).
  - intros q x G.
    destruct (get_file_update _ _ _ _ _ _ U2 G)
      as [(r & y & E & Ey & Gy)|[_ G']].
    + left. injection Ey as <-. destruct r; [|discriminate Gy].
      now rewrite app_nil_r in E.
    + right.
      destruct (get_file_update _ _ _ _ _ _ U1 G')
        as [(r & y & _ & Ey & _)|[Hpq G'']]; [discriminate|].
      split; [|exact G'']. intros ->. rewrite is_prefix_refl in Hpq.
      discriminate.
  - intros q A1 A2 A3 A4.
    rewrite (get_update_apart _ t1 t2 _ q U2 A1 A2).
    apply (get_update_apart _ t t1 _ q U1 A3 A4).
  - intros q Hq.
    assert (Gq : exists es, get t q = Some (Dir es)).
    { unfold is_dir in Hq. destruct (get t q) as [[|es]|]; try discriminate.
      now exists es. }
    destruct Gq as [es Gq].
    apply (is_dir_update _ q t1 t2 _ U2).
    + destruct (is_prefix (d // n) q) eqn:E; [|reflexivity].
      apply is_dir_exists in Hq. pose proof (exists_prefix t _ _ E Hq).
      congruence.
    + apply (is_dir_update _ q t t1 _ U1); [|exact Hq].
      destruct (is_prefix src q) eqn:E; [|reflexivity].
      pose proof (get_below_file t src q c _ Hsrc E Gq) as ->. congruence.
  - intros W.
    apply (wf_update (d // n) t1 t2 (Some (File c))); [| |exact U2].
    + apply (wf_update src t t1 None W); [discriminate|exact U1].
    + intros y E. now injection E as <-.
Qed.

(** X4.  A call of [move_file] on an existing file that the system lets
    move, into an existing directory, returns a path that did not exist
    before; afterwards that path holds the file's content, the source path
    is gone, every other file is where it was with its content, and every
    directory is still a directory: nothing is overwritten. *)
Theorem move_file_overwrites_nothing (denied : path -> bool) (t : node)
    (src dest_dir : path) (c : string) :
  get t src = Some (File c) ->
  denied src = false ->
  is_dir t dest_dir = true ->
  exists d t',
    move_file denied t src dest_dir = Some (Ok d, t') /\
    exists_ t d = false /\
    get t' d = Some (File c) /\
    get t' src = None /\
    (forall q x, q <> src -> get t q = Some (File x) ->
                 get t' q = Some (File x)) /\
    (forall q, is_dir t q = true -> is_dir t' q = true).
Proof.
  intros Hsrc Hden Hd.
  destruct (resolve_in_dir t src dest_dir) as (n & R & Hfree).
  destruct (shutil_move_frame denied t src dest_dir n c Hsrc Hden Hd Hfree)
    as (t2 & Hmv & G2 & Gs & Hkeep & _ & _ & Hdirs & _).
  exists (dest_dir // n), t2.
  split; [|repeat split; assumption].
  unfold move_file. now rewrite R, Hmv.
Qed.

Lemma move_file_overwrites_nothing_witness :
  exists d t',
    move_file nothing_denied ex_tree_taken ["s"; "a.txt"] ["d"] = Some (Ok d, t') /\
    exists_ ex_tree_taken d = false /\
    get t' d = Some (File "a") /\
    get t' ["s"; "a.txt"] = None /\
    (forall q x, q <> ["s"; "a.txt"] -> get ex_tree_taken q = Some (File x) ->
                 get t' q = Some (File x)) /\
    (forall q, is_dir ex_tree_taken q = true -> is_dir t' q = true).
Proof.
  apply (move_file_overwrites_nothing nothing_denied ex_tree_taken
           ["s"; "a.txt"] ["d"] "a"); reflexivity.
Defined.



(* ----------------------------------------------------------------- *)
(** ** [dest.mkdir(parents=True, exist_ok=True)] (line 52) *)

Lemma mkdir_from_ok (whole p : path) : forall (t t' : node),
  mkdir_from whole t p = Ok t' ->
  is_dir t' p = true /\
  (forall q, is_prefix q p = false -> get t' q = get t q) /\
  (wf t = true -> wf t' = true).
Proof.
  induction p as [|n p IH]; intros t t' H.
  - destruct t as [c|es]; simpl in H; [discriminate|]. injection H as <-.
    repeat split; auto.
  - destruct t as [c|es]; simpl in H; [discriminate|].
    set (child := match assoc n es with Some c => c | None => Dir [] end) in *.
    destruct (mkdir_from whole child p) as [c'|e] eqn:M; [|discriminate].
    injection H as <-. destruct (IH _ _ M) as (Hd & Hq & Hw).
    split; [|split].
    + unfold is_dir in *. simpl. now rewrite assoc_aset_same.
    + intros [|m q] Hp; [discriminate|]. simpl in Hp. simpl.
      destruct (String.eqb m n) eqn:E.
      * apply String.eqb_eq in E as ->. simpl in Hp.
        rewrite assoc_aset_same, (Hq q Hp). unfold child.
        destruct (assoc n es); [reflexivity|].
        destruct q as [|a q]; [now destruct p|reflexivity].
      * apply String.eqb_neq in E. now rewrite assoc_aset_other.
    + intros W. apply (wf_aset n c' es W).
      apply Hw. unfold child. destruct (assoc n es) as [x|] eqn:A; [|reflexivity].
      apply (wf_assoc n x es W A).
Qed.

Lemma get_empty_dir (q : path) (c : string) :
  get (Dir []) q = Some (File c) -> False.
Proof. destruct q; discriminate. Qed.

Lemma mkdir_from_err (whole p : path) : forall (t : node) (e : exn),
  mkdir_from whole t p = Err e <->
  (e = FileExistsError whole /\ exists c, get t p = Some (File c)) \/
  (e = NotADirectoryError whole /\
   exists q r c, p = q ++ r /\ r <> [] /\ get t q = Some (File c)).
Proof.
  induction p as [|n p IH]; intros t e.
  - destruct t as [c|es]; simpl; split.
    + intros H. injection H as <-. left. split; [reflexivity|now exists c].
    + intros [[-> _]|[_ (q & r & c' & E & Hr & _)]]; [reflexivity|].
      symmetry in E. apply app_eq_nil in E as [_ ->]. now elim Hr.
    + discriminate.
    + intros [[_ [c H]]|[_ (q & r & c' & E & Hr & _)]]; [discriminate|].
      symmetry in E. apply app_eq_nil in E as [_ ->]. now elim Hr.
  - destruct t as [c|es]; simpl.
    + split.
      * intros H. injection H as <-. right. split; [reflexivity|].
        exists [], (n :: p), c. repeat split. discriminate.
      * intros [[_ [c' H]]|[-> _]]; [discriminate|reflexivity].
    + set (child := match assoc n es with Some c => c | None => Dir [] end).
      assert (Hchild : forall q c, get child q = Some (File c) ->
                                   assoc n es = Some child).
      { intros q c G. unfold child in *. destruct (assoc n es); [reflexivity|].
        now apply get_empty_dir in G. }
      specialize (IH child e). split.
      * intros H. destruct (mkdir_from whole child p) as [c'|e'] eqn:M;
          [discriminate|]. injection H as ->.
        destruct (proj1 IH eq_refl) as [[-> [c G]]|[-> (q & r & c & -> & Hr & G)]].
        -- left. split; [reflexivity|]. exists c.
           now rewrite (Hchild _ _ G).
        -- right. split; [reflexivity|]. exists (n :: q), r, c.
           repeat split; [exact Hr|]. simpl. now rewrite (Hchild _ _ G).
      * intros H.
        assert (M : mkdir_from whole child p = Err e).
        { apply IH. destruct H as [[-> [c G]]|[-> (q & r & c & E & Hr & G)]].
          - left. split; [reflexivity|]. exists c. unfold child.
            destruct (assoc n es); [exact G|discriminate].
          - right. split; [reflexivity|].
            destruct q as [|m q]; [discriminate|]. simpl in E.
            injection E as <- ->. exists q, r, c. repeat split; [exact Hr|].
            simpl in G. unfold child.
            destruct (assoc n es); [exact G|discriminate]. }
        now rewrite M.
Qed.

(** X6.  When [mkdir] succeeds the path is a directory afterwards, every
    path that is neither the destination nor one of its parents leads to
    what it led to before, no directory lists a name twice if none did, and
    a second [mkdir] changes nothing. *)
Theorem mkdir_makes_directory (t t' : node) (p : path) :
  mkdir t p = Ok t' ->
  is_dir t' p = true /\
  (forall q, is_prefix q p = false -> get t' q = get t q) /\
  (wf t = true -> wf t' = true) /\
  mkdir t' p = Ok t'.
Proof.
  intros H. destruct (mkdir_from_ok p p t t' H) as (Hd & Hq & Hw).
  repeat split; try assumption. now apply mkdir_existing.
Qed.

Lemma mkdir_makes_directory_witness :
  is_dir (Dir [("s", Dir []); ("d", Dir [("new", Dir [])])]) ["d"; "new"] = true /\
  (forall q, is_prefix q ["d"; "new"] = false ->
     get (Dir [("s", Dir []); ("d", Dir [("new", Dir [])])]) q =
     get (Dir [("s", Dir [])]) q) /\
  (wf (Dir [("s", Dir [])]) = true ->
   wf (Dir [("s", Dir []); ("d", Dir [("new", Dir [])])]) = true) /\
  mkdir (Dir [("s", Dir []); ("d", Dir [("new", Dir [])])]) ["d"; "new"] =
  Ok (Dir [("s", Dir []); ("d", Dir [("new", Dir [])])]).
Proof.
  apply (mkdir_makes_directory (Dir [("s", Dir [])])). reflexivity.
Defined.


(* ----------------------------------------------------------------- *)
(** ** [main] (lines 48-76): the steps before the loop *)

Lemma finished_stuck (denied : path -> bool) (c : config) (s s' : state)
    (tr : list label) (r : option exn) :
  at_ s = Finished r -> pool s = [] ->
  run denied c tr s = Some s' -> tr = [] /\ s' = s.
Proof.
  intros Hat Hpool. destruct tr as [|l tr]; simpl.
  - intros H. injection H as <-. now split.
  - destruct s as [t o pl a]. simpl in Hat, Hpool. subst a pl.
    destruct l as [|j| |j|j]; simpl; try discriminate.
    + destruct (_ <? _)%Z; discriminate.
    + now destruct j.
    + now destruct j.
Qed.

(** X8.  When the source exists and the destination path or one of its
    parents is a regular file, [main] raises at line 52, before it prints
    or moves anything: the exception names the destination, and no step
    follows. *)
Theorem blocked_destination_aborts (denied : path -> bool) (c : config)
    (fs0 : node) (q : path) (x : string) (tr : list label) (s : state) :
  exists_ fs0 (source c) = true ->
  is_prefix q (dest c) = true ->
  get fs0 q = Some (File x) ->
  run denied c tr (start c fs0) = Some s ->
  tr = [] /\
  exists e,
    s = State fs0 [] [] (Finished (Some e)) /\
    (e = FileExistsError (dest c) \/ e = NotADirectoryError (dest c)).
Proof.
  intros Hsrc Hq Gq Hrun.
  assert (M : exists e, mkdir fs0 (dest c) = Err e /\
                        (e = FileExistsError (dest c) \/
                         e = NotADirectoryError (dest c))).
  { apply is_prefix_spec in Hq as [r E]. destruct r as [|n r].
    - rewrite app_nil_r in E. subst q. exists (FileExistsError (dest c)).
      split; [|now left]. apply mkdir_from_err. left. eauto.
    - exists (NotADirectoryError (dest c)). split; [|now right].
      apply mkdir_from_err. right. split; [reflexivity|].
      exists q, (n :: r), x. repeat split; [exact E|discriminate|exact Gq]. }
  destruct M as (e & M & He).
  assert (S0 : start c fs0 = State fs0 [] [] (Finished (Some e))).
  { unfold start. now rewrite Hsrc, M. }
  rewrite S0 in Hrun.
  destruct (finished_stuck denied c (State fs0 [] [] (Finished (Some e))) s tr
              (Some e) eq_refl eq_refl Hrun) as [-> ->].
  split; [reflexivity|]. now exists e.
Qed.

Lemma blocked_destination_aborts_witness :
  [] = @nil label /\
  exists e,
    start ex_config_blocked ex_tree = State ex_tree [] [] (Finished (Some e)) /\
    (e = FileExistsError (dest ex_config_blocked) \/
     e = NotADirectoryError (dest ex_config_blocked)).
Proof.
  apply (blocked_destination_aborts nothing_denied ex_config_blocked ex_tree
           ["s"; "good.txt"] "g" [] (start ex_config_blocked ex_tree));
    reflexivity.
Defined.

(* ----------------------------------------------------------------- *)
(** ** [main] (lines 58-74): the executor *)

Lemma filter_running_submit (l : list future) (f : path) :
  filter is_running (l ++ [(f, Queued)]) = filter is_running l.
Proof. rewrite filter_app. simpl. apply app_nil_r. Qed.

Lemma running_set_status (i : nat) (st o : status) (src : path)
    (l : list future) :
  nth_error l i = Some (src, o) ->
  List.length (filter is_running (set_status i st l))
  + (if is_running (src, o) then 1 else 0)
  = List.length (filter is_running l)
    + (if is_running (src, st) then 1 else 0).
Proof.
  intros H. rewrite !count_filter. unfold count.
  apply (sum_set_status (fun f => if is_running f then 1 else 0) i st o src l H).
Qed.

Lemma running_step (denied : path -> bool) (c : config) (l : label)
    (s s' : state) :
  step denied c l s = Some s' ->
  (Z.of_nat (List.length (filter is_running (pool s))) <= Z.max 0 (max_workers c))%Z ->
  (Z.of_nat (List.length (filter is_running (pool s'))) <= Z.max 0 (max_workers c))%Z.
Proof.
  intros Hstep Hle. destruct l as [|j| |j|j]; simpl in Hstep.
  - destruct (main_step_pool c s s' Hstep) as [->|[f ->]];
      [exact Hle|now rewrite filter_running_submit].
  - destruct (yield_step_pool j s s' Hstep) as [-> _]. exact Hle.
  - destruct (_ <? _)%Z eqn:B; [|discriminate]. apply Z.ltb_lt in B.
    destruct (take (pool s)) as [pl|] eqn:T; [|discriminate].
    injection Hstep as <-. simpl.
    destruct (take_spec _ _ T) as (i & src & Hi & -> & _).
    pose proof (running_set_status i Started Queued src _ Hi) as E.
    simpl in E. lia.
  - destruct (nth_error (pool s) j) as [[src [| |d|r]]|] eqn:Hj;
      try discriminate.
    destruct (resolve (fs s) src (dest c)) as [d|]; [|discriminate].
    injection Hstep as <-. simpl.
    pose proof (running_set_status j (Resolved d) Started src _ Hj) as E.
    simpl in E. lia.
  - destruct (nth_error (pool s) j) as [[src [| |d|r]]|] eqn:Hj;
      try discriminate.
    destruct (shutil_move denied (fs s) src d) as [t'|e];
      injection Hstep as <-; simpl.
    + pose proof (running_set_status j (Done (Ok d)) (Resolved d) src _ Hj) as E.
      simpl in E. lia.
    + pose proof (running_set_status j (Done (Err e)) (Resolved d) src _ Hj) as E.
      simpl in E. lia.
Qed.

Lemma running_run (denied : path -> bool) (c : config) (tr : list label) :
  forall s s',
  run denied c tr s = Some s' ->
  (Z.of_nat (List.length (filter is_running (pool s))) <= Z.max 0 (max_workers c))%Z ->
  (Z.of_nat (List.length (filter is_running (pool s'))) <= Z.max 0 (max_workers c))%Z.
Proof.
  induction tr as [|l tr IH]; intros s s' H Hle; simpl in H.
  - now injection H as <-.
  - destruct (step denied c l s) as [s1|] eqn:Hs; [|discriminate].
    apply (IH s1 s' H). apply (running_step denied c l s s1 Hs Hle).
Qed.

(** X9.  At every moment of every run of [main], the number of
    [move_file] calls under way (begun and not yet returned) is at most
    [max_workers]. *)
Theorem workers_bounded (denied : path -> bool) (c : config) (fs0 : node)
    (tr : list label) (s : state) :
  run denied c tr (start c fs0) = Some s ->
  (Z.of_nat (List.length (filter is_running (pool s))) <= Z.max 0 (max_workers c))%Z.
Proof.
  intros H. apply (running_run denied c tr _ s H).
  assert (E : pool (start c fs0) = []).
  { unfold start. destruct (negb _); [reflexivity|].
    destruct (mkdir _ _); [|reflexivity]. now destruct (_ <=? _)%Z. }
  rewrite E. simpl. lia.
Qed.

Lemma workers_bounded_witness :
  exists s,
    run nothing_denied ex_config_two ex_trace_busy
      (start ex_config_two ex_tree_same) = Some s /\
    List.length (filter is_running (pool s)) = 2 /\
    (Z.of_nat (List.length (filter is_running (pool s)))
     <= Z.max 0 (max_workers ex_config_two))%Z.
Proof.
  eexists. split; [reflexivity|]. split; [reflexivity|].
  apply (workers_bounded nothing_denied ex_config_two ex_tree_same
           ex_trace_busy). reflexivity.
Defined.

Lemma after_failure_step (denied : path -> bool) (c : config) (l : label)
    (s s' : state) (e : exn) :
  at_ s = AtExit (Some e) \/ at_ s = Finished (Some e) ->
  step denied c l s = Some s' ->
  map fst (pool s') = map fst (pool s) /\ out s' = out s /\
  (at_ s' = AtExit (Some e) \/ at_ s' = Finished (Some e)).
Proof.
  intros Hat Hstep.
  destruct l as [|j| |j|j].
  - simpl in Hstep. unfold main_step in Hstep.
    destruct Hat as [Hat|Hat]; rewrite Hat in Hstep; [|discriminate].
    destruct (forallb is_done (pool s)); [|discriminate].
    injection Hstep as <-. simpl. auto.
  - simpl in Hstep. unfold yield_step in Hstep.
    destruct Hat as [Hat|Hat]; rewrite Hat in Hstep; discriminate.
  - destruct (worker_step_inv denied c Take s s' ltac:(discriminate)
                ltac:(discriminate) Hstep)
      as (i & src & o & st & _ & _ & _ & -> & -> & ->).
    rewrite map_fst_set_status. auto.
  - destruct (worker_step_inv denied c (Probe j) s s' ltac:(discriminate)
                ltac:(discriminate) Hstep)
      as (i & src & o & st & _ & _ & _ & -> & -> & ->).
    rewrite map_fst_set_status. auto.
  - destruct (worker_step_inv denied c (Move j) s s' ltac:(discriminate)
                ltac:(discriminate) Hstep)
      as (i & src & o & st & _ & _ & _ & -> & -> & ->).
    rewrite map_fst_set_status. auto.
Qed.

(** X10.  Once [fut.result()] has raised, [main] submits no further file
    and prints no further line; the workers only finish what had been
    submitted, and [main] ends by raising that same exception. *)
Theorem nothing_submitted_after_failure (denied : path -> bool) (c : config)
    (tr : list label) (s s' : state) (e : exn) :
  at_ s = AtExit (Some e) ->
  run denied c tr s = Some s' ->
  map fst (pool s') = map fst (pool s) /\ out s' = out s /\
  (at_ s' = AtExit (Some e) \/ at_ s' = Finished (Some e)).
Proof.
  intros Hat. assert (H : at_ s = AtExit (Some e) \/ at_ s = Finished (Some e))
    by now left. clear Hat. revert s H.
  induction tr as [|l tr IH]; intros s Hat Hrun; simpl in Hrun.
  - injection Hrun as <-. auto.
  - destruct (step denied c l s) as [s1|] eqn:Hs; [|discriminate].
    destruct (after_failure_step denied c l s s1 e Hat Hs) as (E1 & E2 & Hat1).
    destruct (IH s1 Hat1 Hrun) as (E1' & E2' & Hat').
    rewrite E1', E2'. auto.
Qed.

Lemma nothing_submitted_after_failure_witness :
  map fst (pool ex_state_end) = map fst (pool ex_state_raise) /\
  out ex_state_end = out ex_state_raise /\
  (at_ ex_state_end = AtExit (Some ex_perm) \/
   at_ ex_state_end = Finished (Some ex_perm)).
Proof.
  apply (nothing_submitted_after_failure ex_denied ex_config
           [Take; Probe 1; Move 1; Main] ex_state_raise ex_state_end ex_perm);
    reflexivity.
Defined.

(* ----------------------------------------------------------------- *)
(** ** [main] (lines 60-74): what has been submitted *)

Lemma submitted_start (c : config) (fs0 : node) :
  submitted (gather_files (fs (start c fs0)) (source c)) (start c fs0).
Proof.
  unfold start. destruct (exists_ fs0 (source c)) eqn:E; simpl.
  - destruct (mkdir fs0 (dest c)) as [fs1|e]; simpl.
    + destruct (max_workers c <=? 0)%Z; unfold submitted; simpl; eauto.
    + unfold submitted. simpl. eauto.
  - unfold submitted, gather_files. simpl. unfold exists_ in E.
    now destruct (get fs0 (source c)).
Qed.

Lemma submitted_same (files : list path) (s s' : state) :
  at_ s' = at_ s -> map fst (pool s') = map fst (pool s) ->
  submitted files s -> submitted files s'.
Proof. unfold submitted. now intros -> ->. Qed.

Lemma submitted_main_step (c : config) (files : list path) (s s' : state) :
  dry_run c = false ->
  main_step c s = Some s' -> submitted files s -> submitted files s'.
Proof.
  intros Hdry Hstep. unfold main_step in Hstep. rewrite Hdry in Hstep.
  unfold submitted.
  destruct (at_ s) as [[|f rest] futs|rest [|i w]|[|i w]|r|r] eqn:Hat;
    try discriminate.
  - injection Hstep as <-. simpl. now rewrite app_nil_r.
  - destruct (_ >=? _)%Z; injection Hstep as <-; simpl; intros <-;
      now rewrite map_app, <- app_assoc.
  - injection Hstep as <-. simpl. auto.
  - injection Hstep as <-. simpl. auto.
  - destruct (forallb is_done (pool s)); [|discriminate].
    destruct r as [e|]; injection Hstep as <-; simpl; auto.
Qed.

Lemma submitted_yield_step (files : list path) (i : nat) (s s' : state) :
  yield_step i s = Some s' -> submitted files s -> submitted files s'.
Proof.
  intros Hstep. unfold yield_step in Hstep. unfold submitted.
  destruct (at_ s) as [rest futs|rest w|w|r|r] eqn:Hat; try discriminate.
  - destruct (existsb (Nat.eqb i) w); [|discriminate].
    destruct (nth_error (pool s) i) as [[src [| |d|[d|e]]]|];
      try discriminate; injection Hstep as <-; simpl; eauto.
  - destruct (existsb (Nat.eqb i) w); [|discriminate].
    destruct (nth_error (pool s) i) as [[src [| |d|[d|e]]]|];
      try discriminate; injection Hstep as <-; simpl; auto.
    intros <-. exists []. apply app_nil_r.
Qed.

Lemma submitted_step (denied : path -> bool) (c : config) (files : list path)
    (l : label) (s s' : state) :
  dry_run c = false ->
  step denied c l s = Some s' -> submitted files s -> submitted files s'.
Proof.
  intros Hdry Hstep.
  destruct l as [|j| |j|j].
  - now apply (submitted_main_step c).
  - now apply (submitted_yield_step files j).
  - destruct (worker_step_inv denied c Take s s' ltac:(discriminate)
                ltac:(discriminate) Hstep)
      as (i & src & o & st & _ & _ & _ & E & Hat & _).
    apply submitted_same; [exact Hat|]. rewrite E. apply map_fst_set_status.
  - destruct (worker_step_inv denied c (Probe j) s s' ltac:(discriminate)
                ltac:(discriminate) Hstep)
      as (i & src & o & st & _ & _ & _ & E & Hat & _).
    apply submitted_same; [exact Hat|]. rewrite E. apply map_fst_set_status.
  - destruct (worker_step_inv denied c (Move j) s s' ltac:(discriminate)
                ltac:(discriminate) Hstep)
      as (i & src & o & st & _ & _ & _ & E & Hat & _).
    apply submitted_same; [exact Hat|]. rewrite E. apply map_fst_set_status.
Qed.

Lemma submitted_run (denied : path -> bool) (c : config) (files : list path)
    (tr : list label) : forall s s',
  dry_run c = false ->
  run denied c tr s = Some s' -> submitted files s -> submitted files s'.
Proof.
  induction tr as [|l tr IH]; intros s s' Hdry H Hs; simpl in H.
  - now injection H as <-.
  - destruct (step denied c l s) as [s1|] eqn:E; [|discriminate].
    apply (IH s1 s' Hdry H). apply (submitted_step denied c files l s s1 Hdry E Hs).
Qed.

Lemma submitted_prefix (files : list path) (s : state) :
  submitted files s -> exists rest, map fst (pool s) ++ rest = files.
Proof.
  unfold submitted.
  destruct (at_ s) as [rest futs|rest w|w|[e|]|[e|]]; eauto;
    intros <-; exists []; apply app_nil_r.
Qed.

(** X11.  With real moves, [main] submits the gathered files in the order
    [gather_files] returned them, one future each; and when [main] returns
    normally, every gathered file has been submitted and its [move_file]
    call has returned a destination. *)
Theorem normal_return_moved_all (denied : path -> bool) (c : config)
    (fs0 : node) (tr : list label) (s : state) :
  dry_run c = false ->
  run denied c tr (start c fs0) = Some s ->
  (exists rest,
     map fst (pool s) ++ rest = gather_files (fs (start c fs0)) (source c)) /\
  (at_ s = Finished None ->
   map fst (pool s) = gather_files (fs (start c fs0)) (source c) /\
   forall f, In f (pool s) -> exists d, snd f = Done (Ok d)).
Proof.
  intros Hdry Hrun.
  pose proof (submitted_run denied c _ tr _ s Hdry Hrun (submitted_start c fs0))
    as Hsub.
  split; [now apply submitted_prefix|].
  intros Hat. split.
  - unfold submitted in Hsub. now rewrite Hat in Hsub.
  - destruct (reach_inv denied c fs0 tr s Hrun) as [Hpc _].
    unfold inv_pc in Hpc. rewrite Hat in Hpc. intros f Hf.
    specialize (Hpc f Hf). unfold succeeded in Hpc.
    destruct (snd f) as [| |d|[d|e]]; try discriminate. now exists d.
Qed.

Lemma normal_return_moved_all_witness :
  (exists rest,
     map fst (pool ex_state_one) ++ rest
     = gather_files (fs (start ex_config_one ex_tree_same)) ["s"]) /\
  (at_ ex_state_one = Finished None ->
   map fst (pool ex_state_one)
   = gather_files (fs (start ex_config_one ex_tree_same)) ["s"] /\
   forall f, In f (pool ex_state_one) -> exists d, snd f = Done (Ok d)).
Proof.
  apply (normal_return_moved_all nothing_denied ex_config_one ex_tree_same
           ex_trace_one ex_state_one); reflexivity.
Defined.

(* ----------------------------------------------------------------- *)
(** ** [main] (lines 60-63): dry-run mode *)

Lemma dry_inv_start (c : config) (fs0 fs1 : node) :
  exists_ fs0 (source c) = true -> mkdir fs0 (dest c) = Ok fs1 ->
  dry_inv c fs1 (start c fs0).
Proof.
  intros Hsrc Hmk. unfold start. rewrite Hsrc, Hmk. simpl.
  destruct (max_workers c <=? 0)%Z eqn:B; unfold dry_inv; simpl.
  - apply Z.leb_le in B. auto.
  - auto.
Qed.

Lemma dry_inv_step (denied : path -> bool) (c : config) (fs1 : node)
    (l : label) (s s' : state) :
  dry_run c = true ->
  step denied c l s = Some s' -> dry_inv c fs1 s -> dry_inv c fs1 s'.
Proof.
  intros Hdry Hstep (Hfs & Hpool & Hat). unfold dry_inv.
  destruct l as [|j| |j|j]; simpl in Hstep.
  - unfold main_step in Hstep. rewrite Hdry, Hpool in Hstep.
    destruct (at_ s) as [[|f rest] futs|rest [|i w]|[|i w]|[e|]|r] eqn:E;
      try discriminate; try (now destruct Hat); simpl in Hstep;
      injection Hstep as <-; simpl.
    + destruct Hat as [-> Hout]. rewrite app_nil_r in Hout. auto.
    + destruct Hat as [-> Hout]. simpl in Hout.
      rewrite <- app_assoc. simpl. auto.
    + destruct Hat as [_ Hout]. auto.
    + rewrite Hat. auto.
  - unfold yield_step in Hstep.
    destruct (at_ s) as [rest futs|rest w|w|r|r] eqn:E; try discriminate;
      [now destruct Hat|].
    destruct Hat as [-> _]. discriminate.
  - rewrite Hpool in Hstep. simpl in Hstep.
    destruct (_ <? _)%Z; discriminate.
  - rewrite Hpool in Hstep. now destruct j.
  - rewrite Hpool in Hstep. now destruct j.
Qed.

Lemma dry_inv_run (denied : path -> bool) (c : config) (fs1 : node)
    (tr : list label) : forall s s',
  dry_run c = true ->
  run denied c tr s = Some s' -> dry_inv c fs1 s -> dry_inv c fs1 s'.
Proof.
  induction tr as [|l tr IH]; intros s s' Hdry H Hs; simpl in H.
  - now injection H as <-.
  - destruct (step denied c l s) as [s1|] eqn:E; [|discriminate].
    apply (IH s1 s' Hdry H). apply (dry_inv_step denied c fs1 l s s1 Hdry E Hs).
Qed.

(** X12.  In dry-run mode, with an existing source and a destination that
    line 52 can make, no future is ever submitted and the file system
    stays as line 52 left it (untouched when the destination was a
    directory already); a run that returns has printed the count, one
    'Would move' line per gathered file in the order gathered, and the
    closing line; and with a positive worker count such a run exists. *)
Theorem dry_run_only_reports (denied : path -> bool) (c : config)
    (fs0 fs1 : node) :
  dry_run c = true ->
  exists_ fs0 (source c) = true ->
  mkdir fs0 (dest c) = Ok fs1 ->
  (forall tr s,
     run denied c tr (start c fs0) = Some s ->
     fs s = fs1 /\ pool s = [] /\
     (is_dir fs0 (dest c) = true -> fs s = fs0) /\
     (at_ s = Finished None ->
      out s =
      found_msg (List.length (gather_files fs1 (source c)))
        :: map (fun f => would_move_msg f (dest c))
               (gather_files fs1 (source c))
        ++ [done_msg])) /\
  ((0 < max_workers c)%Z ->
   exists tr s,
     run denied c tr (start c fs0) = Some s /\ at_ s = Finished None).
Proof.
  intros Hdry Hsrc Hmk.
  assert (Inv : forall tr s, run denied c tr (start c fs0) = Some s ->
                             dry_inv c fs1 s).
  { intros tr s Hrun.
    apply (dry_inv_run denied c fs1 tr _ s Hdry Hrun).
    now apply dry_inv_start. }
  split.
  - intros tr s Hrun. destruct (Inv tr s Hrun) as (Hfs & Hpool & Hat).
    split; [exact Hfs|]. split; [exact Hpool|]. split.
    + intros Hd. rewrite (mkdir_existing fs0 (dest c) Hd) in Hmk.
      injection Hmk as <-. exact Hfs.
    + intros E. rewrite E in Hat. exact Hat.
  - intros Hmw.
    destruct (reach_inv denied c fs0 [] (start c fs0) eq_refl) as [Hpc Hout].
    destruct (completes denied c fs0 _ (start c fs0) (le_n _) Hpc Hout)
      as (tr & s & r & Hrun & Hat).
    exists tr, s. split; [exact Hrun|].
    destruct (Inv tr s Hrun) as (_ & _ & H). rewrite Hat in H.
    destruct r as [e|]; [lia|exact Hat].
Qed.

Lemma dry_run_only_reports_witness :
  exists s,
    run nothing_denied ex_config_dry [Main; Main; Main; Main; Main]
      (start ex_config_dry ex_tree_taken) = Some s /\
    fs s = ex_tree_taken /\ pool s = [] /\
    out s = ["Found 2 files to move.";
             "Would move: /s/.gitignore -> /d";
             "Would move: /s/a.txt -> /d";
             "Done moving files."].
Proof.
  eexists. split; [reflexivity|].
  destruct (dry_run_only_reports nothing_denied ex_config_dry ex_tree_taken
              ex_tree_taken eq_refl eq_refl eq_refl) as [H _].
  destruct (H [Main; Main; Main; Main; Main] _ eq_refl) as (A & B & _ & D).
  split; [exact A|]. split; [exact B|]. exact (D eq_refl).
Defined.

(* ----------------------------------------------------------------- *)
(** ** [main] (lines 52-74): directories *)

Lemma update_keeps_dirs (p : path) (t t' : node) (v : option node) :
  update t p v = Some t' ->
  (forall x, v = Some x -> exists c, x = File c) ->
  is_dir t p = false ->
  forall q, is_dir t' q = is_dir t q.
Proof.
  intros U Hv Hp q.
  destruct (is_prefix p q) eqn:A.
  - apply is_prefix_spec in A as [r ->].
    assert (E1 : is_dir t' (p ++ r) = false).
    { unfold is_dir. rewrite (get_update_below p t t' v r U).
      destruct v as [x|]; [|reflexivity].
      destruct (Hv x eq_refl) as [c ->]. now destruct r. }
    assert (E2 : is_dir t (p ++ r) = false).
    { unfold is_dir in *. rewrite get_app.
      destruct (get t p) as [[c|es]|]; [now destruct r|discriminate|reflexivity]. }
    now rewrite E1, E2.
  - destruct (is_prefix q p) eqn:B.
    + apply is_prefix_spec in B as [r ->].
      assert (Hr : r <> []).
      { intros ->. rewrite app_nil_r, is_prefix_refl in A. discriminate. }
      destruct (get_update_above q t t' v r Hr U) as (s1 & s2 & G1 & U' & G2).
      destruct (update_dir _ _ _ _ U') as (es & es' & -> & ->).
      unfold is_dir. now rewrite G1, G2.
    + unfold is_dir. now rewrite (get_update_apart p t t' v q U A B).
Qed.

Lemma shutil_move_keeps_dirs (denied : path -> bool) (t t' : node)
    (src d : path) :
  shutil_move denied t src d = Ok t' ->
  is_dir t src = false ->
  forall q, is_dir t' q = is_dir t q.
Proof.
  unfold shutil_move. intros H Hsrc q.
  set (real_dst := if is_dir t d then d // name src else d) in *.
  destruct (is_dir t d && exists_ t real_dst) eqn:B; [discriminate|].
  destruct (get t src) as [v|] eqn:G; [|discriminate].
  destruct (denied src); [discriminate|].
  destruct (update t src None) as [t1|] eqn:U1; [|discriminate].
  destruct (update t1 real_dst (Some v)) as [t2|] eqn:U2; [|discriminate].
  injection H as <-.
  assert (Hv : exists c, v = File c).
  { unfold is_dir in Hsrc. rewrite G in Hsrc.
    destruct v as [c|es]; [now exists c|discriminate]. }
  assert (K1 : forall q, is_dir t1 q = is_dir t q).
  { apply (update_keeps_dirs src t t1 None U1); [discriminate|exact Hsrc]. }
  assert (Hreal : is_dir t real_dst = false).
  { unfold real_dst in *. destruct (is_dir t d) eqn:D; [|exact D].
    simpl in B. destruct (is_dir t (d // name src)) eqn:E; [|reflexivity].
    apply is_dir_exists in E. congruence. }
  rewrite <- K1.
  apply (update_keeps_dirs real_dst t1 t2 (Some v) U2).
  - intros x E. injection E as <-. exact Hv.
  - now rewrite K1.
Qed.

Lemma step_fs (denied : path -> bool) (c : config) (l : label) (s s' : state) :
  step denied c l s = Some s' ->
  fs s' = fs s \/
  exists j src d,
    l = Move j /\ nth_error (pool s) j = Some (src, Resolved d) /\
    shutil_move denied (fs s) src d = Ok (fs s') /\
    pool s' = set_status j (Done (Ok d)) (pool s).
Proof.
  intros Hstep. destruct l as [|j| |j|j]; simpl in Hstep.
  - left. unfold main_step in Hstep.
    destruct (at_ s) as [[|f rest] futs|rest [|i w]|[|i w]|r|r];
      try discriminate.
    + now injection Hstep as <-.
    + destruct (dry_run c); [now injection Hstep as <-|].
      destruct (_ >=? _)%Z; now injection Hstep as <-.
    + now injection Hstep as <-.
    + now injection Hstep as <-.
    + destruct (forallb is_done (pool s)); [|discriminate].
      destruct r; now injection Hstep as <-.
  - left. now destruct (yield_step_pool j s s' Hstep).
  - left. destruct (_ <? _)%Z; [|discriminate].
    destruct (take (pool s)); [|discriminate]. now injection Hstep as <-.
  - left. destruct (nth_error (pool s) j) as [[src [| |d|r]]|];
      try discriminate.
    destruct (resolve (fs s) src (dest c)); [|discriminate].
    now injection Hstep as <-.
  - destruct (nth_error (pool s) j) as [[src [| |d|r]]|] eqn:Hj;
      try discriminate.
    destruct (shutil_move denied (fs s) src d) as [t'|e] eqn:M;
      injection Hstep as <-; simpl; [|now left].
    right. exists j, src, d. auto.
Qed.

Lemma from_files_start (c : config) (fs0 : node) :
  from_files (gather_files (fs (start c fs0)) (source c)) (start c fs0).
Proof.
  unfold start. destruct (negb _); [now split|].
  destruct (mkdir fs0 (dest c)) as [fs1|e]; [|now split].
  destruct (_ <=? _)%Z; split; simpl; auto using incl_refl; easy.
Qed.

Lemma from_files_step (denied : path -> bool) (c : config) (files : list path)
    (l : label) (s s' : state) :
  step denied c l s = Some s' -> from_files files s -> from_files files s'.
Proof.
  intros Hstep [Hp Hr]. unfold from_files.
  destruct l as [|j| |j|j].
  - simpl in Hstep. unfold main_step in Hstep.
    destruct (at_ s) as [[|f rest] futs|rest [|i w]|[|i w]|r|r];
      try discriminate.
    + now injection Hstep as <-.
    + assert (Hf : In f files) by (apply Hr; now left).
      assert (Hrest : incl rest files) by (intros x Hx; apply Hr; now right).
      assert (Hp' : incl (map fst (pool s ++ [(f, Queued)])) files).
      { rewrite map_app. apply incl_app; [exact Hp|].
        intros x [<-|[]]. exact Hf. }
      destruct (dry_run c); [now injection Hstep as <-|].
      destruct (_ >=? _)%Z; now injection Hstep as <-.
    + now injection Hstep as <-.
    + now injection Hstep as <-.
    + destruct (forallb is_done (pool s)); [|discriminate].
      destruct r; now injection Hstep as <-.
  - simpl in Hstep. unfold yield_step in Hstep.
    destruct (at_ s) as [rest futs|rest w|w|r|r]; try discriminate;
      (destruct (existsb (Nat.eqb j) _); [|discriminate]);
      destruct (nth_error (pool s) j) as [[src [| |d|[d|e]]]|];
      try discriminate; now injection Hstep as <-.
  - destruct (worker_step_inv denied c Take s s' ltac:(discriminate)
                ltac:(discriminate) Hstep)
      as (i & src & o & st & _ & _ & _ & -> & -> & _).
    now rewrite map_fst_set_status.
  - destruct (worker_step_inv denied c (Probe j) s s' ltac:(discriminate)
                ltac:(discriminate) Hstep)
      as (i & src & o & st & _ & _ & _ & -> & -> & _).
    now rewrite map_fst_set_status.
  - destruct (worker_step_inv denied c (Move j) s s' ltac:(discriminate)
                ltac:(discriminate) Hstep)
      as (i & src & o & st & _ & _ & _ & -> & -> & _).
    now rewrite map_fst_set_status.
Qed.

Lemma dirs_step (denied : path -> bool) (c : config) (fs1 : node)
    (files : list path) (l : label) (s s' : state) :
  (forall p, In p files -> is_dir fs1 p = false) ->
  step denied c l s = Some s' ->
  from_files files s ->
  (forall q, is_dir (fs s) q = is_dir fs1 q) ->
  forall q, is_dir (fs s') q = is_dir fs1 q.
Proof.
  intros Hfiles Hstep [Hp _] Hd q.
  destruct (step_fs denied c l s s' Hstep)
    as [->|(j & src & d & _ & Hj & Hmv & _)]; [apply Hd|].
  rewrite <- Hd. apply (shutil_move_keeps_dirs denied _ _ src d Hmv).
  rewrite Hd. apply Hfiles, Hp.
  apply nth_error_In in Hj. now apply (in_map fst) in Hj.
Qed.

Lemma dirs_run (denied : path -> bool) (c : config) (fs1 : node)
    (files : list path) (tr : list label) : forall s s',
  (forall p, In p files -> is_dir fs1 p = false) ->
  run denied c tr s = Some s' ->
  from_files files s ->
  (forall q, is_dir (fs s) q = is_dir fs1 q) ->
  forall q, is_dir (fs s') q = is_dir fs1 q.
Proof.
  induction tr as [|l tr IH]; intros s s' Hfiles H Hf Hd; simpl in H.
  - now injection H as <-.
  - destruct (step denied c l s) as [s1|] eqn:E; [|discriminate].
    apply (IH s1 s' Hfiles H).
    + apply (from_files_step denied c files l s s1 E Hf).
    + apply (dirs_step denied c fs1 files l s s1 Hfiles E Hf Hd).
Qed.

Lemma wf_start (c : config) (fs0 : node) :
  wf fs0 = true -> wf (fs (start c fs0)) = true.
Proof.
  intros W. unfold start. destruct (negb _); [exact W|].
  destruct (mkdir fs0 (dest c)) as [fs1|e] eqn:M; [|exact W].
  destruct (mkdir_from_ok _ _ _ _ M) as (_ & _ & W1).
  destruct (_ <=? _)%Z; simpl; auto.
Qed.

Lemma gathered_not_dir (t : node) (root p : path) :
  wf t = true -> In p (gather_files t root) -> is_dir t p = false.
Proof.
  intros W Hp. destruct (gather_get t root p W Hp) as (rel & x & _ & _ & G).
  unfold is_dir. now rewrite G.
Qed.

Lemma dirs_reach (denied : path -> bool) (c : config) (fs0 : node)
    (tr : list label) (s : state) :
  wf fs0 = true ->
  run denied c tr (start c fs0) = Some s ->
  forall q, is_dir (fs s) q = is_dir (fs (start c fs0)) q.
Proof.
  intros W Hrun.
  apply (dirs_run denied c _ (gather_files (fs (start c fs0)) (source c)) tr
           (start c fs0) s); auto.
  - intros p. apply gathered_not_dir. now apply wf_start.
  - apply from_files_start.
Qed.

(** X13.  In a file system where no directory lists a name twice, [main]
    creates and removes no directory once line 52 has run: whatever is
    moved, the directories of the source are left in place and the
    destination stays a directory. *)
Theorem directories_stay (denied : path -> bool) (c : config) (fs0 : node)
    (tr : list label) (s : state) (q : path) :
  wf fs0 = true ->
  run denied c tr (start c fs0) = Some s ->
  is_dir (fs s) q = is_dir (fs (start c fs0)) q.
Proof. intros W Hrun. now apply (dirs_reach denied c fs0 tr s). Qed.

Lemma directories_stay_witness :
  is_dir (fs ex_state_one) ["s"; "x"]
  = is_dir (fs (start ex_config_one ex_tree_same)) ["s"; "x"].
Proof.
  apply (directories_stay nothing_denied ex_config_one ex_tree_same
           ex_trace_one ex_state_one ["s"; "x"]); reflexivity.
Defined.

(* ----------------------------------------------------------------- *)
(** ** [main] and [move_file]: files of pairwise distinct names *)

Lemma prefix_comparable (a : path) : forall (b l : path),
  is_prefix a l = true -> is_prefix b l = true ->
  is_prefix a b = true \/ is_prefix b a = true.
Proof.
  induction a as [|x a IH]; intros b l Ha Hb; [now left|].
  destruct b as [|y b]; [now right|].
  destruct l as [|z l]; [discriminate|]. simpl in *.
  apply andb_prop in Ha as [Ex Ha]. apply andb_prop in Hb as [Ey Hb].
  apply String.eqb_eq in Ex as ->. apply String.eqb_eq in Ey as ->.
  rewrite String.eqb_refl. simpl. now apply (IH b l).
Qed.

Lemma apart_join (s d : path) (n : string) (rel : path) :
  is_prefix s d = false -> is_prefix d s = false ->
  is_prefix (d // n) (s ++ rel) = false /\
  is_prefix (s ++ rel) (d // n) = false.
Proof.
  intros Hsd Hds. split.
  - destruct (is_prefix (d // n) (s ++ rel)) eqn:E; [|reflexivity].
    apply is_prefix_join_l in E.
    destruct (prefix_comparable d s (s ++ rel) E (is_prefix_app s rel));
      congruence.
  - destruct (is_prefix (s ++ rel) (d // n)) eqn:E; [|reflexivity].
    pose proof (is_prefix_trans _ _ _ (is_prefix_app s rel) E) as E'.
    apply is_prefix_join_r in E' as [E'|E']; [|congruence].
    rewrite E' in Hds. unfold joinpath in Hds.
    rewrite is_prefix_app in Hds. discriminate.
Qed.

Lemma prefix_nth (files rest : list path) (l : list future) (j : nat)
    (src : path) (st : status) :
  map fst l ++ rest = files ->
  nth_error l j = Some (src, st) -> nth_error files j = Some src.
Proof.
  intros <- Hj. pose proof (nth_error_lt _ _ _ Hj) as L.
  rewrite nth_error_app1 by now rewrite length_map.
  exact (map_nth_error fst j l Hj).
Qed.

Lemma pending_not_done (l : list future) (j : nat) (p : path) (st : status) :
  nth_error l j = Some (p, st) -> is_done (p, st) = false -> pending l j.
Proof.
  intros Hj Hd q r E. rewrite Hj in E. injection E as -> ->. discriminate.
Qed.

Lemma pending_same_done (l l' : list future) (j : nat) :
  (forall q r, nth_error l' j = Some (q, Done r) ->
               nth_error l j = Some (q, Done r)) ->
  pending l j -> pending l' j.
Proof. intros H Hp q r E. apply (Hp q r). now apply H. Qed.

Lemma pool_submit_old (l : list future) (f q : path) (st : status) (j : nat) :
  nth_error (l ++ [(f, Queued)]) j = Some (q, st) -> st <> Queued ->
  nth_error l j = Some (q, st).
Proof.
  intros H Hst. destruct (Nat.lt_ge_cases j (List.length l)) as [L|L].
  - now rewrite nth_error_app1 in H.
  - rewrite nth_error_app2 in H by exact L.
    destruct (j - List.length l) as [|k]; simpl in H.
    + injection H as _ <-. now elim Hst.
    + now destruct k.
Qed.

Section DistinctNames.

Variable denied : path -> bool.
Variable c : config.
Variable fs0 : node.

Local Abbreviation files := (gather_files fs0 (source c)) (only parsing).

Hypothesis Hwf : wf fs0 = true.
Hypothesis Hdry : dry_run c = false.
Hypothesis Hmw : (0 < max_workers c)%Z.
Hypothesis Hdest : is_dir fs0 (dest c) = true.
Hypothesis Hsd : is_prefix (source c) (dest c) = false.
Hypothesis Hds : is_prefix (dest c) (source c) = false.
Hypothesis Hnames : NoDup (map name files).
Hypothesis Hfree : forall p, In p files ->
  denied p = false /\ exists_ fs0 (dest c // name p) = false.

Lemma start_existing :
  exists o a, start c fs0 = State fs0 o [] a /\
              (a = Finished None \/ a = AtLoop files []).
Proof.
  unfold start. destruct (negb _); [eauto|].
  rewrite (mkdir_existing fs0 (dest c) Hdest).
  destruct (max_workers c <=? 0)%Z eqn:B; [apply Z.leb_le in B; lia|eauto].
Qed.

Lemma par_start : par_inv c fs0 (start c fs0).
Proof.
  destruct start_existing as (o & a & -> & Ha).
  unfold par_inv. simpl.
  split; [exact Hwf|]. split; [exact Hdest|].
  split; [intros j p r H; now destruct j|].
  split; [intros j p d H; now destruct j|].
  split; [|split; [|split; [|split]]].
  - intros j p Hj _. apply nth_error_In in Hj.
    destruct (gather_get _ _ _ Hwf Hj) as (rel & x & _ & _ & G).
    unfold content. now rewrite G.
  - intros rel x Hrel G.
    destruct (In_nth_error _ _ (gather_complete _ _ _ _ Hrel G)) as [j Hj].
    exists j. split; [exact Hj|]. intros q r E. now destruct j.
  - intros n E. now left.
  - auto.
  - now destruct Ha as [->| ->].
Qed.

Lemma par_free (s : state) (rest : list path) (i : nat) (p : path) :
  par_inv c fs0 s ->
  map fst (pool s) ++ rest = files ->
  nth_error files i = Some p -> pending (pool s) i ->
  exists_ (fs s) (dest c // name p) = false.
Proof.
  intros (_ & _ & _ & _ & _ & _ & HN & _) Hpre Hi Hpend.
  destruct (exists_ (fs s) (dest c // name p)) eqn:E; [|reflexivity].
  exfalso. destruct (HN _ E) as [E0|(j & q & r & Hj & En)].
  - destruct (Hfree p (nth_error_In _ _ Hi)) as [_ F]. congruence.
  - pose proof (prefix_nth _ _ _ _ _ _ Hpre Hj) as Hq.
    assert (Eij : i = j).
    { apply (proj1 (NoDup_nth_error (map name files)) Hnames).
      - rewrite length_map. apply (nth_error_lt _ _ _ Hi).
      - rewrite (map_nth_error name i _ Hi), (map_nth_error name j _ Hq).
        now rewrite En. }
    subst j. now apply (Hpend q r).
Qed.

Lemma par_same (s s' : state) :
  fs s' = fs s ->
  (forall j q r, nth_error (pool s') j = Some (q, Done r) <->
                 nth_error (pool s) j = Some (q, Done r)) ->
  (forall j p d, nth_error (pool s') j = Some (p, Resolved d) ->
                 d = dest c // name p) ->
  match at_ s' with
  | AtExit (Some _) | Finished (Some _) => False
  | _ => True
  end ->
  par_inv c fs0 s -> par_inv c fs0 s'.
Proof.
  intros Efs Hdone Hres Hat (W & D & HD & HR & HU & HS & HN & HF & _).
  unfold par_inv. rewrite Efs.
  split; [exact W|]. split; [exact D|].
  split; [intros j p r H; apply (HD j), Hdone, H|].
  split; [exact Hres|].
  split; [|split; [|split; [|split]]].
  - intros j p Hj Hp. apply (HU j p Hj).
    apply (pending_same_done (pool s')); [|exact Hp].
    intros q r. apply Hdone.
  - intros rel x Hrel G. destruct (HS rel x Hrel G) as (j & Hj & Hp).
    exists j. split; [exact Hj|].
    apply (pending_same_done (pool s)); [|exact Hp].
    intros q r. apply Hdone.
  - intros n E. destruct (HN n E) as [E0|(j & q & r & Hj & En)]; [now left|].
    right. exists j, q, r. split; [now apply Hdone|exact En].
  - exact HF.
  - exact Hat.
Qed.

Lemma par_main_step (s s' : state) :
  main_step c s = Some s' -> par_inv c fs0 s -> par_inv c fs0 s'.
Proof.
  intros Hstep Hinv.
  assert (HR : forall j p d, nth_error (pool s) j = Some (p, Resolved d) ->
                             d = dest c // name p)
    by (destruct Hinv as (_ & _ & _ & HR & _); exact HR).
  assert (Hat : match at_ s with
                | AtExit (Some _) | Finished (Some _) => False
                | _ => True
                end)
    by (destruct Hinv as (_ & _ & _ & _ & _ & _ & _ & _ & Hat); exact Hat).
  unfold main_step in Hstep. rewrite Hdry in Hstep.
  destruct (at_ s) as [[|f rest] futs|rest [|i w]|[|i w]|r|r] eqn:E;
    try discriminate.
  - injection Hstep as <-. now apply (par_same s).
  - assert (P : par_inv c fs0
                  (State (fs s) (out s) (pool s ++ [(f, Queued)]) (AtLoop rest []))).
    { apply (par_same s); simpl; auto.
      - intros j q r. split.
        + intros H. apply (pool_submit_old _ _ _ _ _ H). discriminate.
        + intros H. rewrite nth_error_app1; [exact H|].
          apply (nth_error_lt _ _ _ H).
      - intros j p d H. apply (HR j).
        apply (pool_submit_old _ _ _ _ _ H). discriminate. }
    destruct P as (P1 & P2 & P3 & P4 & P5 & P6 & P7 & P8 & _).
    destruct (_ >=? _)%Z; injection Hstep as <-;
      exact (conj P1 (conj P2 (conj P3 (conj P4 (conj P5 (conj P6
               (conj P7 (conj P8 I)))))))).
  - injection Hstep as <-. now apply (par_same s).
  - injection Hstep as <-. now apply (par_same s).
  - destruct (forallb is_done (pool s)); [|discriminate].
    destruct r as [e|]; [contradiction|].
    injection Hstep as <-. now apply (par_same s).
Qed.

Lemma par_yield_step (i : nat) (s s' : state) :
  yield_step i s = Some s' -> par_inv c fs0 s -> par_inv c fs0 s'.
Proof.
  intros Hstep Hinv.
  assert (HD : forall j p r, nth_error (pool s) j = Some (p, Done r) ->
                             r = Ok (dest c // name p))
    by (destruct Hinv as (_ & _ & HD & _); intros j p r H;
        apply (HD j p r H)).
  assert (HR : forall j p d, nth_error (pool s) j = Some (p, Resolved d) ->
                             d = dest c // name p)
    by (destruct Hinv as (_ & _ & _ & HR & _); exact HR).
  unfold yield_step in Hstep.
  destruct (at_ s) as [rest futs|rest w|w|r|r] eqn:E; try discriminate;
    (destruct (existsb (Nat.eqb i) _); [|discriminate]);
    destruct (nth_error (pool s) i) as [[src [| |d|[d|e]]]|] eqn:Hi;
    try discriminate;
    try (now pose proof (HD i src _ Hi));
    injection Hstep as <-; now apply (par_same s).
Qed.

Lemma par_take_step (s s' : state) :
  step denied c Take s = Some s' -> par_inv c fs0 s -> par_inv c fs0 s'.
Proof.
  intros Hstep Hinv. simpl in Hstep.
  destruct (_ <? _)%Z; [|discriminate].
  destruct (take (pool s)) as [pl|] eqn:T; [|discriminate].
  injection Hstep as <-.
  destruct (take_spec _ _ T) as (i & src & Hi & -> & _).
  assert (Hat : match at_ s with
                | AtExit (Some _) | Finished (Some _) => False
                | _ => True
                end)
    by (destruct Hinv as (_ & _ & _ & _ & _ & _ & _ & _ & Hat); exact Hat).
  assert (HR : forall j p d, nth_error (pool s) j = Some (p, Resolved d) ->
                             d = dest c // name p)
    by (destruct Hinv as (_ & _ & _ & HR & _); exact HR).
  apply (par_same s); simpl; auto.
  - intros j q r. split; intros H.
    + destruct (nth_error_set_status _ _ _ _ _ _ H)
        as [(_ & E & _)|[_ H']]; [discriminate|exact H'].
    + rewrite nth_set_status_other; [exact H|].
      intros ->. congruence.
  - intros j p d H.
    destruct (nth_error_set_status _ _ _ _ _ _ H)
      as [(_ & E & _)|[_ H']]; [discriminate|]. now apply (HR j).
Qed.

Lemma par_probe_step (i : nat) (s s' : state) (rest : list path) :
  map fst (pool s) ++ rest = files ->
  step denied c (Probe i) s = Some s' ->
  par_inv c fs0 s -> par_inv c fs0 s'.
Proof.
  intros Hpre Hstep Hinv. simpl in Hstep.
  destruct (nth_error (pool s) i) as [[src [| |d|r]]|] eqn:Hi;
    try discriminate.
  pose proof (prefix_nth _ _ _ _ _ _ Hpre Hi) as Hsrc.
  pose proof (pending_not_done _ _ _ _ Hi eq_refl) as Hpend.
  pose proof (par_free s rest i src Hinv Hpre Hsrc Hpend) as Hnew.
  rewrite (proj1 (resolve_cases (fs s) src (dest c)) Hnew) in Hstep.
  injection Hstep as <-.
  assert (Hat : match at_ s with
                | AtExit (Some _) | Finished (Some _) => False
                | _ => True
                end)
    by (destruct Hinv as (_ & _ & _ & _ & _ & _ & _ & _ & Hat); exact Hat).
  assert (HR : forall j p d, nth_error (pool s) j = Some (p, Resolved d) ->
                             d = dest c // name p)
    by (destruct Hinv as (_ & _ & _ & HR & _); exact HR).
  apply (par_same s); simpl; auto.
  - intros j q r. split; intros H.
    + destruct (nth_error_set_status _ _ _ _ _ _ H)
        as [(_ & E & _)|[_ H']]; [discriminate|exact H'].
    + rewrite nth_set_status_other; [exact H|].
      intros ->. congruence.
  - intros j p d H.
    destruct (nth_error_set_status _ _ _ _ _ _ H)
      as [(-> & E & o' & Ho)|[_ H']]; [|now apply (HR j)].
    rewrite Hi in Ho. injection Ho as -> _. now injection E as ->.
Qed.

Lemma par_move_step (i : nat) (s s' : state) (rest : list path) :
  map fst (pool s) ++ rest = files ->
  step denied c (Move i) s = Some s' ->
  par_inv c fs0 s -> par_inv c fs0 s'.
Proof.
  intros Hpre Hstep Hinv. simpl in Hstep.
  destruct (nth_error (pool s) i) as [[src [| |d|r]]|] eqn:Hi;
    try discriminate.
  pose proof (prefix_nth _ _ _ _ _ _ Hpre Hi) as Hsrc.
  pose proof (pending_not_done _ _ _ _ Hi eq_refl) as Hpend.
  pose proof (par_free s rest i src Hinv Hpre Hsrc Hpend) as Hnew.
  destruct Hinv as (W & D & HD & HR & HU & HS & HN & HF & Hat).
  pose proof (HR i src d Hi) as ->.
  pose proof (HU i src Hsrc Hpend) as Gsrc.
  destruct (Hfree src (nth_error_In _ _ Hsrc)) as [Hden _].
  destruct (gather_get _ _ _ Hwf (nth_error_In _ _ Hsrc))
    as (rel & x0 & Hrel & Erel & _).
  destruct (shutil_move_frame denied (fs s) src (dest c) (name src) _
              Gsrc Hden D Hnew)
    as (t2 & Hmv & G2 & _ & Hkeep & Hback & Hapart & Hdirs & Hw2).
  rewrite Hmv in Hstep. injection Hstep as <-.
  assert (Hnd : NoDup files) by (apply gather_nodup, Hwf).
  assert (Hother : forall j q, j <> i -> nth_error files j = Some q ->
                               q <> src).
  { intros j q Hji Hq ->.
    apply Hji. apply (proj1 (NoDup_nth_error files) Hnd).
    - apply (nth_error_lt _ _ _ Hq).
    - now rewrite Hq, Hsrc. }
  assert (Hnot_dest : forall n, dest c // n <> src).
  { intros n E. destruct (apart_join (source c) (dest c) n rel Hsd Hds) as [A _].
    rewrite <- Erel, E, is_prefix_refl in A. discriminate. }
  unfold par_inv. simpl.
  split; [now apply Hw2|]. split; [now apply Hdirs|].
  split; [|split; [|split; [|split; [|split; [|split]]]]].
  - intros j q r H.
    destruct (nth_error_set_status _ _ _ _ _ _ H)
      as [(-> & E & o' & Ho)|[Hji H']].
    + rewrite Hi in Ho. injection Ho as -> _. injection E as ->.
      split; [reflexivity|exact G2].
    + destruct (HD j q r H') as [-> G]. split; [reflexivity|].
      apply Hkeep; [apply Hnot_dest|exact G].
  - intros j q d' H.
    destruct (nth_error_set_status _ _ _ _ _ _ H)
      as [(_ & E & _)|[_ H']]; [discriminate|now apply (HR j)].
  - intros j q Hq Hp.
    assert (Hji : j <> i).
    { intros ->. apply (Hp src (Ok (dest c // name src))).
      apply (nth_set_status_same _ _ _ _ _ Hi). }
    apply Hkeep; [now apply (Hother j)|]. apply (HU j q Hq).
    intros q' r E. apply (Hp q' r). now rewrite nth_set_status_other.
  - intros rel' x Hrel' G.
    destruct (Hback _ _ G) as [E|[Hne G']].
    + exfalso.
      destruct (apart_join (source c) (dest c) (name src) rel' Hsd Hds) as [A _].
      rewrite E, is_prefix_refl in A. discriminate.
    + destruct (HS rel' x Hrel' G') as (j & Hj & Hp).
      exists j. split; [exact Hj|].
      assert (Hji : j <> i).
      { intros ->. rewrite Hsrc in Hj. injection Hj as E. now apply Hne. }
      intros q' r E. apply (Hp q' r). now rewrite nth_set_status_other in E.
  - intros n E.
    destruct (String.eqb n (name src)) eqn:En.
    + apply String.eqb_eq in En as ->. right.
      exists i, src, (Ok (dest c // name src)). split; [|reflexivity].
      apply (nth_set_status_same _ _ _ _ _ Hi).
    + apply String.eqb_neq in En.
      assert (Eq : get t2 (dest c // n) = get (fs s) (dest c // n)).
      { destruct (apart_join (source c) (dest c) n rel Hsd Hds) as [A1 A2].
        rewrite <- Erel in A1, A2.
        apply Hapart; try assumption; apply is_prefix_siblings; congruence. }
      unfold exists_ in E. rewrite Eq in E.
      destruct (HN n E) as [E0|(j & q & r & Hj & Hq)]; [now left|].
      right. exists j, q, r. split; [|exact Hq].
      rewrite nth_set_status_other; [exact Hj|]. intros ->. congruence.
  - intros q x Hq G. apply Hkeep; [|now apply (HF q x)].
    intros ->. rewrite Erel, is_prefix_app in Hq. discriminate.
  - exact Hat.
Qed.

Lemma par_step (l : label) (s s' : state) :
  step denied c l s = Some s' ->
  submitted files s -> par_inv c fs0 s -> par_inv c fs0 s'.
Proof.
  intros Hstep Hsub Hinv.
  destruct (submitted_prefix _ _ Hsub) as [rest Hpre].
  destruct l as [|j| |j|j].
  - now apply (par_main_step s).
  - now apply (par_yield_step j s).
  - now apply (par_take_step s).
  - now apply (par_probe_step j s s' rest).
  - now apply (par_move_step j s s' rest).
Qed.

Lemma par_run (tr : list label) : forall (s s' : state),
  run denied c tr s = Some s' ->
  submitted files s -> par_inv c fs0 s ->
  submitted files s' /\ par_inv c fs0 s'.
Proof.
  induction tr as [|l tr IH]; intros s s' H Hsub Hinv; simpl in H.
  - injection H as <-. now split.
  - destruct (step denied c l s) as [s1|] eqn:E; [|discriminate].
    apply (IH s1 s' H).
    + apply (submitted_step denied c _ l s s1 Hdry E Hsub).
    + apply (par_step l s s1 E Hsub Hinv).
Qed.

Lemma par_reach (tr : list label) (s : state) :
  run denied c tr (start c fs0) = Some s ->
  submitted files s /\ par_inv c fs0 s.
Proof.
  intros Hrun. apply (par_run tr (start c fs0) s Hrun); [|apply par_start].
  pose proof (submitted_start c fs0) as H.
  destruct start_existing as (o & a & E & _). rewrite E in H. simpl in H.
  now rewrite E.
Qed.

(** X14.  Let the gathered files have pairwise distinct names that the
    destination directory does not hold, the destination exist, lie
    outside the source and not contain it, and no move be refused.  Then,
    whatever the number of workers, the batch size and the schedule, a run
    of [main] that ends has returned normally; every gathered file is at
    the destination under its own name with its content and gone from the
    source, no file is left below the source, and every file outside the
    source is where it was with its content. *)
Theorem distinct_names_all_moved (tr : list label) (s : state)
    (r : option exn) :
  run denied c tr (start c fs0) = Some s ->
  at_ s = Finished r ->
  r = None /\
  (forall p, In p files ->
     get (fs s) (dest c // name p) = Some (File (content fs0 p)) /\
     get (fs s) p = None) /\
  gather_files (fs s) (source c) = [] /\
  (forall q x, is_prefix (source c) q = false ->
     get fs0 q = Some (File x) -> get (fs s) q = Some (File x)).
Proof.
  intros Hrun Hat.
  destruct (par_reach tr s Hrun)
    as (Hsub & W & D & HD & HR & HU & HS & HN & HF & Hpc).
  rewrite Hat in Hpc. destruct r as [e|]; [contradiction|].
  unfold submitted in Hsub. rewrite Hat in Hsub.
  destruct (reach_inv denied c fs0 tr s Hrun) as [Hinv _].
  unfold inv_pc in Hinv. rewrite Hat in Hinv.
  assert (AllDone : forall j p, nth_error files j = Some p ->
                                exists r, nth_error (pool s) j = Some (p, Done r)).
  { intros j p Hj. rewrite <- Hsub, nth_error_map in Hj.
    destruct (nth_error (pool s) j) as [[q st]|] eqn:E; [|discriminate].
    simpl in Hj. injection Hj as ->.
    pose proof (Hinv _ (nth_error_In _ _ E)) as Hs. unfold succeeded in Hs.
    simpl in Hs. destruct st as [| |d|r]; try discriminate. now exists r. }
  assert (Empty : forall rel x, rel <> [] ->
                    get (fs s) (source c ++ rel) = Some (File x) -> False).
  { intros rel x Hrel G. destruct (HS rel x Hrel G) as (j & Hj & Hp).
    destruct (AllDone j _ Hj) as [r Hr]. exact (Hp _ _ Hr). }
  split; [reflexivity|]. split; [|split; [|exact HF]].
  - intros p Hp. destruct (In_nth_error _ _ Hp) as [j Hj].
    destruct (AllDone j p Hj) as [r Hr].
    split; [apply (HD j p r Hr)|].
    destruct (gather_get _ _ _ Hwf Hp) as (rel & x0 & Hrel & -> & G0).
    destruct (get (fs s) (source c ++ rel)) as [[x|es]|] eqn:G;
      [| |reflexivity].
    + now elim (Empty rel x Hrel G).
    + pose proof (dirs_reach denied c fs0 tr s Hwf Hrun (source c ++ rel)) as E.
      destruct start_existing as (o & a & Es & _). rewrite Es in E. simpl in E.
      unfold is_dir in E. rewrite G, G0 in E. discriminate.
  - destruct (gather_files (fs s) (source c)) as [|q l] eqn:E; [reflexivity|].
    exfalso.
    assert (Hq : In q (gather_files (fs s) (source c))) by (rewrite E; now left).
    destruct (gather_get _ _ _ W Hq) as (rel & x & Hrel & -> & G).
    apply (Empty rel x Hrel G).
Qed.

End DistinctNames.

Example ex_run_pair :
  run nothing_denied ex_config_two ex_trace_pair
    (start ex_config_two ex_tree_pair) = Some ex_state_pair.
Proof. vm_compute. reflexivity. Qed.

Example ex_pair_names :
  NoDup (map name (gather_files ex_tree_pair (source ex_config_two))).
Proof.
  vm_compute. constructor; [intros [E|[]]; discriminate|].
  constructor; [intros []|constructor].
Qed.

Example ex_pair_free (p : path) :
  In p (gather_files ex_tree_pair (source ex_config_two)) ->
  nothing_denied p = false /\
  exists_ ex_tree_pair (dest ex_config_two // name p) = false.
Proof. intros [<-|[<-|[]]]; split; reflexivity. Qed.

Lemma distinct_names_all_moved_witness :
  None = @None exn /\
  (forall p, In p (gather_files ex_tree_pair ["s"]) ->
     get (fs ex_state_pair) (["d"] // name p)
     = Some (File (content ex_tree_pair p)) /\
     get (fs ex_state_pair) p = None) /\
  gather_files (fs ex_state_pair) ["s"] = [] /\
  (forall q x, is_prefix ["s"] q = false ->
     get ex_tree_pair q = Some (File x) ->
     get (fs ex_state_pair) q = Some (File x)).
Proof.
  exact (distinct_names_all_moved nothing_denied ex_config_two ex_tree_pair
           eq_refl eq_refl eq_refl eq_refl eq_refl eq_refl
           ex_pair_names ex_pair_free
           ex_trace_pair ex_state_pair None ex_run_pair eq_refl).
Defined.

(* ----------------------------------------------------------------- *)
(** ** [move_file] under [main]: where files land *)

Lemma resolve_lands (c : config) (t : node) (p d : path) :
  resolve t p (dest c) = Some d -> lands c p d.
Proof.
  intros R. destruct (resolve_cases t p (dest c)) as [H0 H1].
  destruct (exists_ t (dest c // name p)) eqn:E.
  - destruct (H1 eq_refl) as (i & Hi & R' & _). right. exists i.
    split; [exact Hi|]. congruence.
  - left. rewrite (H0 eq_refl) in R. congruence.
Qed.

Lemma flat_set_status (c : config) (l : list future) (i : nat) (p : path)
    (o st : status) :
  nth_error l i = Some (p, o) ->
  (forall d, st = Resolved d \/ st = Done (Ok d) -> lands c p d) ->
  flat c l -> flat c (set_status i st l).
Proof.
  intros Hi Hst Hl j q st' d Hj Hd.
  destruct (nth_error_set_status _ _ _ _ _ _ Hj)
    as [(-> & -> & o' & Ho)|[_ Hj']].
  - rewrite Hi in Ho. injection Ho as -> _. now apply Hst.
  - now apply (Hl j q st' d).
Qed.

Lemma flat_step (denied : path -> bool) (c : config) (l : label)
    (s s' : state) :
  step denied c l s = Some s' -> flat c (pool s) -> flat c (pool s').
Proof.
  intros Hstep Hl. destruct l as [|j| |j|j]; simpl in Hstep.
  - destruct (main_step_pool c s s' Hstep) as [->|[f ->]]; [exact Hl|].
    intros j q st d Hj Hd. apply (Hl j q st d); [|exact Hd].
    apply (pool_submit_old _ _ _ _ _ Hj). now destruct Hd as [->| ->].
  - now destruct (yield_step_pool j s s' Hstep) as [-> _].
  - destruct (_ <? _)%Z; [|discriminate].
    destruct (take (pool s)) as [pl|] eqn:T; [|discriminate].
    injection Hstep as <-. simpl.
    destruct (take_spec _ _ T) as (i & src & Hi & -> & _).
    apply (flat_set_status c _ i src Queued Started Hi); [|exact Hl].
    now intros d [E|E].
  - destruct (nth_error (pool s) j) as [[src [| |d|r]]|] eqn:Hj;
      try discriminate.
    destruct (resolve (fs s) src (dest c)) as [d|] eqn:R; [|discriminate].
    injection Hstep as <-. simpl.
    apply (flat_set_status c _ j src Started (Resolved d) Hj); [|exact Hl].
    intros d' [E|E]; [|discriminate]. injection E as <-.
    now apply (resolve_lands c (fs s)).
  - destruct (nth_error (pool s) j) as [[src [| |d|r]]|] eqn:Hj;
      try discriminate.
    assert (Hd : lands c src d) by (apply (Hl j src (Resolved d) d Hj); now left).
    destruct (shutil_move denied (fs s) src d) as [t'|e];
      injection Hstep as <-; simpl.
    + apply (flat_set_status c _ j src (Resolved d) _ Hj); [|exact Hl].
      intros d' [E|E]; [discriminate|]. now injection E as <-.
    + apply (flat_set_status c _ j src (Resolved d) _ Hj); [|exact Hl].
      now intros d' [E|E].
Qed.

Lemma flat_run (denied : path -> bool) (c : config) (tr : list label) :
  forall s s',
  run denied c tr s = Some s' -> flat c (pool s) -> flat c (pool s').
Proof.
  induction tr as [|l tr IH]; intros s s' H Hl; simpl in H.
  - now injection H as <-.
  - destruct (step denied c l s) as [s1|] eqn:E; [|discriminate].
    apply (IH s1 s' H). apply (flat_step denied c l s s1 E Hl).
Qed.

Lemma pool_start (c : config) (fs0 : node) : pool (start c fs0) = [].
Proof.
  unfold start. destruct (negb _); [reflexivity|].
  destruct (mkdir _ _); [|reflexivity]. now destruct (_ <=? _)%Z.
Qed.

(** X15.  The destination is flat: in every run of [main], whatever the
    schedule, a destination that a [move_file] call has settled on or
    returned lies directly in the destination directory, under the name of
    the file or under 'stem (i)suffix' for some [i >= 1], however deep
    the file was below the source. *)
Theorem destinations_flat (denied : path -> bool) (c : config) (fs0 : node)
    (tr : list label) (s : state) (j : nat) (p d : path) (st : status) :
  run denied c tr (start c fs0) = Some s ->
  nth_error (pool s) j = Some (p, st) ->
  st = Resolved d \/ st = Done (Ok d) ->
  d = dest c // name p \/
  exists i, 1 <= i /\
    d = dest c // candidate (stem (name p)) (suffix (name p)) i.
Proof.
  intros Hrun Hj Hst.
  apply (flat_run denied c tr _ s Hrun) with (j := j) (st := st);
    [|exact Hj|exact Hst].
  rewrite pool_start. intros k q st' d' Hk. now destruct k.
Qed.

Lemma destinations_flat_witness :
  ["d"; "a (1).txt"] = dest ex_config_one // name ["s"; "y"; "a.txt"] \/
  exists i, 1 <= i /\
    ["d"; "a (1).txt"] =
    dest ex_config_one // candidate (stem (name ["s"; "y"; "a.txt"]))
                            (suffix (name ["s"; "y"; "a.txt"])) i.
Proof.
  apply (destinations_flat nothing_denied ex_config_one ex_tree_same
           ex_trace_one ex_state_one 1 ["s"; "y"; "a.txt"] ["d"; "a (1).txt"]
           (Done (Ok ["d"; "a (1).txt"])) ex_run_one eq_refl).
  now right.
Defined.

(* ----------------------------------------------------------------- *)
(** ** [main]: the files it did not gather *)

Lemma shutil_move_others (denied : path -> bool) (t t' : node)
    (src d : path) :
  shutil_move denied t src d = Ok t' ->
  is_dir t src = false -> is_dir t d = false ->
  forall q x, q <> src -> q <> d ->
              get t q = Some (File x) -> get t' q = Some (File x).
Proof.
  unfold shutil_move. intros H Hsrc Hd q x Hqs Hqd Gq.
  rewrite Hd in H. simpl in H.
  destruct (get t src) as [v|] eqn:G; [|discriminate].
  destruct (denied src); [discriminate|].
  destruct (update t src None) as [t1|] eqn:U1; [|discriminate].
  destruct (update t1 d (Some v)) as [t2|] eqn:U2; [|discriminate].
  injection H as <-.
  assert (Hv : exists c, v = File c).
  { unfold is_dir in Hsrc. rewrite G in Hsrc.
    destruct v as [c|es]; [now exists c|discriminate]. }
  destruct Hv as [c ->].
  assert (A1 : is_prefix src q = false).
  { destruct (is_prefix src q) eqn:E; [|reflexivity].
    now pose proof (get_below_file t src q c _ G E Gq). }
  assert (A2 : is_prefix q src = false).
  { destruct (is_prefix q src) eqn:E; [|reflexivity].
    pose proof (get_below_file t q src _ _ Gq E G). congruence. }
  assert (G1 : get t1 q = Some (File x))
    by now rewrite (get_update_apart _ t t1 _ q U1 A1 A2).
  assert (D1 : is_dir t1 d = false).
  { rewrite (update_keeps_dirs src t t1 None U1); [exact Hd|discriminate|exact Hsrc]. }
  assert (A3 : is_prefix d q = false).
  { destruct (is_prefix d q) eqn:E; [|reflexivity].
    apply is_prefix_spec in E as [r ->]. unfold is_dir in D1.
    rewrite get_app in G1.
    destruct (get t1 d) as [[y|es]|]; try discriminate.
    destruct r; [|discriminate]. now rewrite app_nil_r in Hqd. }
  assert (A4 : is_prefix q d = false).
  { destruct (is_prefix q d) eqn:E; [|reflexivity].
    apply is_prefix_spec in E as [r ->].
    assert (Hr : r <> []) by (intros ->; now rewrite app_nil_r in Hqd).
    destruct (get_update_above q t1 t2 _ r Hr U2) as (s1 & s2 & Gs & Us & _).
    destruct (update_dir _ _ _ _ Us) as (es & es' & -> & _). congruence. }
  now rewrite (get_update_apart _ t1 t2 _ q U2 A3 A4).
Qed.

Lemma spares_set_status (fs1 : node) (files : list path) (l : list future)
    (i : nat) (p : path) (o st : status) :
  nth_error l i = Some (p, o) ->
  (forall d, st = Resolved d ->
     is_dir fs1 d = false /\ forall x, get fs1 d = Some (File x) -> In d files) ->
  spares fs1 files l -> spares fs1 files (set_status i st l).
Proof.
  intros Hi Hst Hl j q d Hj.
  destruct (nth_error_set_status _ _ _ _ _ _ Hj)
    as [(-> & E & _)|[_ Hj']]; [now apply Hst|now apply (Hl j q d)].
Qed.

Lemma path_in_dec (q : path) (l : list path) : {In q l} + {~ In q l}.
Proof. apply in_dec, list_eq_dec, string_dec. Qed.

Lemma kept_step (denied : path -> bool) (c : config) (fs1 : node)
    (files : list path) (l : label) (s s' : state) :
  (forall p, In p files -> is_dir fs1 p = false) ->
  step denied c l s = Some s' ->
  from_files files s ->
  (forall q, is_dir (fs s) q = is_dir fs1 q) ->
  spares fs1 files (pool s) -> kept fs1 files (fs s) ->
  spares fs1 files (pool s') /\ kept fs1 files (fs s').
Proof.
  intros Hfiles Hstep [Hp _] Hd Hsp Hk. split.
  - destruct l as [|j| |j|j]; simpl in Hstep.
    + destruct (main_step_pool c s s' Hstep) as [->|[f ->]]; [exact Hsp|].
      intros j q d Hj. apply (Hsp j q d).
      apply (pool_submit_old _ _ _ _ _ Hj). discriminate.
    + now destruct (yield_step_pool j s s' Hstep) as [-> _].
    + destruct (_ <? _)%Z; [|discriminate].
      destruct (take (pool s)) as [pl|] eqn:T; [|discriminate].
      injection Hstep as <-. simpl.
      destruct (take_spec _ _ T) as (i & src & Hi & -> & _).
      apply (spares_set_status fs1 files _ i src Queued Started Hi);
        [discriminate|exact Hsp].
    + destruct (nth_error (pool s) j) as [[src [| |d|r]]|] eqn:Hj;
        try discriminate.
      destruct (resolve (fs s) src (dest c)) as [d|] eqn:R; [|discriminate].
      injection Hstep as <-. simpl.
      apply (spares_set_status fs1 files _ j src Started _ Hj); [|exact Hsp].
      intros d' E. injection E as <-.
      destruct (resolve_total (fs s) src (dest c)) as (d' & R' & Hnew).
      rewrite R in R'. injection R' as <-.
      split.
      * rewrite <- Hd. destruct (is_dir (fs s) d) eqn:E; [|reflexivity].
        apply is_dir_exists in E. congruence.
      * intros x G. destruct (path_in_dec d files) as [Hin|Hout]; [exact Hin|].
        pose proof (Hk d x G Hout) as G'. unfold exists_ in Hnew.
        rewrite G' in Hnew. discriminate.
    + destruct (nth_error (pool s) j) as [[src [| |d|r]]|] eqn:Hj;
        try discriminate.
      destruct (shutil_move denied (fs s) src d) as [t'|e];
        injection Hstep as <-; simpl;
        apply (spares_set_status fs1 files _ j src (Resolved d) _ Hj);
        try exact Hsp; discriminate.
  - destruct (step_fs denied c l s s' Hstep)
      as [->|(j & src & d & _ & Hj & Hmv & _)]; [exact Hk|].
    assert (Hsrc : In src files).
    { apply Hp. apply nth_error_In in Hj. now apply (in_map fst) in Hj. }
    destruct (Hsp j src d Hj) as [Hdd Hdf].
    intros q x G Hq.
    apply (shutil_move_others denied (fs s) (fs s') src d Hmv).
    + rewrite Hd. now apply Hfiles.
    + now rewrite Hd.
    + intros ->. now apply Hq.
    + intros ->. apply Hq. now apply (Hdf x).
    + now apply Hk.
Qed.

Lemma kept_run (denied : path -> bool) (c : config) (fs1 : node)
    (files : list path) (tr : list label) : forall s s',
  (forall p, In p files -> is_dir fs1 p = false) ->
  run denied c tr s = Some s' ->
  from_files files s ->
  (forall q, is_dir (fs s) q = is_dir fs1 q) ->
  spares fs1 files (pool s) -> kept fs1 files (fs s) ->
  kept fs1 files (fs s').
Proof.
  induction tr as [|l tr IH]; intros s s' Hfiles H Hf Hd Hsp Hk; simpl in H.
  - now injection H as <-.
  - destruct (step denied c l s) as [s1|] eqn:E; [|discriminate].
    destruct (kept_step denied c fs1 files l s s1 Hfiles E Hf Hd Hsp Hk)
      as [Hsp1 Hk1].
    apply (IH s1 s' Hfiles H); try assumption.
    + apply (from_files_step denied c files l s s1 E Hf).
    + apply (dirs_step denied c fs1 files l s s1 Hfiles E Hf Hd).
Qed.

Lemma start_keeps_files (c : config) (fs0 : node) (q : path) (x : string) :
  get fs0 q = Some (File x) -> get (fs (start c fs0)) q = Some (File x).
Proof.
  intros G. unfold start. destruct (negb _); [exact G|].
  destruct (mkdir fs0 (dest c)) as [fs1|e] eqn:M; [|exact G].
  assert (Hq : is_prefix q (dest c) = false).
  { destruct (is_prefix q (dest c)) eqn:E; [|reflexivity].
    apply is_prefix_spec in E as [r E].
    assert (Herr : exists e, mkdir fs0 (dest c) = Err e).
    { destruct r as [|n r].
      - exists (FileExistsError (dest c)). apply mkdir_from_err. left.
        split; [reflexivity|]. exists x. rewrite E, app_nil_r. exact G.
      - exists (NotADirectoryError (dest c)). apply mkdir_from_err. right.
        split; [reflexivity|]. exists q, (n :: r), x.
        repeat split; [exact E|discriminate|exact G]. }
    destruct Herr as [e He]. congruence. }
  destruct (mkdir_from_ok _ _ _ _ M) as (_ & Hframe & _).
  destruct (_ <=? _)%Z; simpl; now rewrite (Hframe q Hq).
Qed.

(** X16.  In a file system where no directory lists a name twice, a file
    outside the source tree (so every file the destination held before
    the run, when the destination is outside the source) keeps its place
    and content in every state of every run of [main], whatever the
    names, the worker count and the schedule: [main] never removes,
    replaces or overwrites it. *)
Theorem other_files_untouched (denied : path -> bool) (c : config)
    (fs0 : node) (tr : list label) (s : state) (q : path) (x : string) :
  wf fs0 = true ->
  run denied c tr (start c fs0) = Some s ->
  get fs0 q = Some (File x) ->
  is_prefix (source c) q = false ->
  get (fs s) q = Some (File x).
Proof.
  intros W Hrun G Hq.
  pose proof (wf_start c fs0 W) as W1.
  apply (kept_run denied c (fs (start c fs0))
           (gather_files (fs (start c fs0)) (source c)) tr (start c fs0) s).
  - intros p. now apply gathered_not_dir.
  - exact Hrun.
  - apply from_files_start.
  - reflexivity.
  - rewrite pool_start. intros j p d Hj. now destruct j.
  - intros q' x' G' _. exact G'.
  - now apply start_keeps_files.
  - intros Hin. destruct (gather_get _ _ _ W1 Hin) as (rel & y & _ & -> & _).
    rewrite is_prefix_app in Hq. discriminate.
Qed.

Lemma other_files_untouched_witness :
  get (fs ex_state_pair) ["d"; "keep.txt"] = Some (File "k").
Proof.
  apply (other_files_untouched nothing_denied ex_config_two ex_tree_pair
           ex_trace_pair ex_state_pair ["d"; "keep.txt"] "k" eq_refl
           ex_run_pair eq_refl eq_refl).
Defined.
